(** * Google tiles: session-auth client and caching proxy

    A shallow embedding of the two programs of the repository:

    - [GoogleCloudAuth] (the session-auth client): its [fetch] and
      [refreshToken] methods and the helper [getSessionToken];
    - the caching proxy of [node-google-tiles/server.js]: the request
      handler, [urlToCachePath] and [sendError].

    Both programs run on a single-threaded event loop.  Each is modelled
    as a transition system: a state (the object's fields, the pending
    promises or streams, a log of the network calls made) and one
    transition per event the loop can deliver (a call, a network
    response, a chunk, a flush).  What runs between two awaits or inside
    one callback is one transition.

    Platform services are modelled as follows.
    - Strings are byte strings.
    - [URL]: the generic syntax only (scheme, authority, path, query,
      fragment); components are kept as written, apart from the empty
      path of an http(s) URL, which becomes "/".  Host and scheme
      lower-casing, dot segments, path percent-encoding and the checks
      of the host and the port are left out: the whole of [new URL] on
      the URLs that are kept as written ([plain_url]).
    - The request target is read in origin form, as it is written.
    - The body of a response is what [res.write] and [res.end] are
      given: so it is for every method but HEAD, and for every status
      that has a body.
    - [URLSearchParams]: the application/x-www-form-urlencoded parser and
      serializer, on bytes.
    - JSON numbers are integers.
    - SHA-1 and the cache directory are parameters ([Platform]). *)

From Stdlib Require Import ZArith Ascii String List Bool Lia.
From stdpp Require Import base tactics option list strings gmap pretty.

Local Set Warnings "-register-all".
Local Open Scope char_scope.

(** ** Characters and strings *)

Definition is_upper (c : ascii) : bool :=
  (65 <=? nat_of_ascii c)%nat && (nat_of_ascii c <=? 90)%nat.

Definition is_lower (c : ascii) : bool :=
  (97 <=? nat_of_ascii c)%nat && (nat_of_ascii c <=? 122)%nat.

Definition is_alpha (c : ascii) : bool := is_upper c || is_lower c.

Definition is_digit (c : ascii) : bool :=
  (48 <=? nat_of_ascii c)%nat && (nat_of_ascii c <=? 57)%nat.

Definition is_alnum (c : ascii) : bool := is_alpha c || is_digit c.

Definition is_char (d c : ascii) : bool := Ascii.eqb c d.

(** [break p s] cuts [s] in front of its first character satisfying [p]. *)
Fixpoint break (p : ascii -> bool) (s : string) : string * string :=
  match s with
  | EmptyString => (EmptyString, EmptyString)
  | String c s' =>
      if p c then (EmptyString, s)
      else let '(a, b) := break p s' in (String c a, b)
  end.

Fixpoint string_forall (p : ascii -> bool) (s : string) : bool :=
  match s with
  | EmptyString => true
  | String c s' => p c && string_forall p s'
  end.

(** [stops p s]: [s] is empty or begins with a character satisfying [p]. *)
Definition stops (p : ascii -> bool) (s : string) : bool :=
  match s with
  | EmptyString => true
  | String c _ => p c
  end.

(** [avoids p s]: no character of [s] satisfies [p]. *)
Definition avoids (p : ascii -> bool) (s : string) : bool :=
  string_forall (fun c => negb (p c)) s.

(** [String.prototype.split] with a one-character separator. *)
Fixpoint split (d : ascii) (s : string) : list string :=
  match s with
  | EmptyString => [EmptyString]
  | String c s' =>
      if Ascii.eqb c d then EmptyString :: split d s'
      else match split d s' with
           | [] => [String c EmptyString]
           | w :: ws => String c w :: ws
           end
  end.

Fixpoint join (d : string) (l : list string) : string :=
  match l with
  | [] => EmptyString
  | [w] => w
  | w :: ws => w +:+ d +:+ join d ws
  end.

(** [String.prototype.endsWith]: some suffix of [s] is [suffix]. *)
Fixpoint endsWith (s suffix : string) : bool :=
  String.eqb s suffix ||
  match s with
  | EmptyString => false
  | String _ s' => endsWith s' suffix
  end.

(** ** application/x-www-form-urlencoded *)

Definition hex_value (c : ascii) : option nat :=
  let n := nat_of_ascii c in
  if is_digit c then Some (n - 48)
  else if (65 <=? n)%nat && (n <=? 70)%nat then Some (n - 55)
  else if (97 <=? n)%nat && (n <=? 102)%nat then Some (n - 87)
  else None.

Definition hex_digit (n : nat) : ascii :=
  if (n <? 10)%nat then ascii_of_nat (48 + n) else ascii_of_nat (55 + n).

(** Percent-decoding, with "+" read as a space. *)
Fixpoint form_decode (s : string) : string :=
  match s with
  | EmptyString => EmptyString
  | String c s' =>
      if Ascii.eqb c "+" then String " " (form_decode s')
      else if Ascii.eqb c "%" then
        match s' with
        | String h (String l s'') =>
            match hex_value h, hex_value l with
            | Some a, Some b =>
                String (ascii_of_nat (16 * a + b)) (form_decode s'')
            | _, _ => String c (form_decode s')
            end
        | _ => String c (form_decode s')
        end
      else String c (form_decode s')
  end.

Definition form_safe (c : ascii) : bool :=
  is_alnum c || is_char "*" c || is_char "-" c || is_char "." c || is_char "_" c.

Fixpoint form_encode (s : string) : string :=
  match s with
  | EmptyString => EmptyString
  | String c s' =>
      if form_safe c then String c (form_encode s')
      else if Ascii.eqb c " " then String "+" (form_encode s')
      else String "%" (String (hex_digit (nat_of_ascii c / 16))
             (String (hex_digit (nat_of_ascii c mod 16)) (form_encode s')))
  end.

Definition parse_pair (w : string) : string * string :=
  let '(n, r) := break (is_char "=") w in
  match r with
  | String _ v => (form_decode n, form_decode v)
  | EmptyString => (form_decode n, EmptyString)
  end.

(** The parser behind [new URLSearchParams (q)]. *)
Definition parse_urlencoded (q : string) : list (string * string) :=
  map parse_pair (filter (fun w => w <> EmptyString) (split "&" q)).

Definition serialize_urlencoded (l : list (string * string)) : string :=
  join "&" (map (fun p => form_encode (fst p) +:+ "=" +:+ form_encode (snd p)) l).

(** [URLSearchParams.prototype.get]: the first value, or null. *)
Fixpoint params_get (name : string) (l : list (string * string)) : option string :=
  match l with
  | [] => None
  | (n, v) :: l' => if String.eqb n name then Some v else params_get name l'
  end.

(** [URLSearchParams.prototype.delete]. *)
Definition params_delete (name : string) (l : list (string * string))
  : list (string * string) :=
  filter (fun p => fst p <> name) l.

(** [URLSearchParams.prototype.set]: the first pair of that name takes the
    value and the others of that name go; without one the pair is
    appended. *)
Fixpoint params_set (name v : string) (l : list (string * string))
  : list (string * string) :=
  match l with
  | [] => [(name, v)]
  | (n, x) :: l' =>
      if String.eqb n name then (n, v) :: params_delete name l'
      else (n, x) :: params_set name v l'
  end.

(** ** URL *)

Record URL := mkURL {
  protocol : string;            (* the scheme and its ":" *)
  host : option string;         (* the authority after "//", if any *)
  pathname : string;
  query : option string;        (* without the "?" *)
  fragment : option string;     (* without the "#" *)
  searchParams : list (string * string)   (* the list of its URLSearchParams object *)
}.

Definition is_scheme_char (c : ascii) : bool :=
  is_alnum c || is_char "+" c || is_char "-" c || is_char "." c.

Definition valid_scheme (s : string) : bool :=
  match s with
  | EmptyString => false
  | String c s' => is_alpha c && string_forall is_scheme_char s'
  end.

Definition is_authority_end (c : ascii) : bool :=
  is_char "/" c || is_char "?" c || is_char "#" c.

Definition is_path_end (c : ascii) : bool := is_char "?" c || is_char "#" c.

Definition is_http (proto : string) : bool :=
  String.eqb proto "http:" || String.eqb proto "https:".

(** [after d s]: what follows the first character of [s] when that is [d]. *)
Definition after (d : ascii) (s : string) : option string :=
  match s with
  | String c r => if Ascii.eqb c d then Some r else None
  | EmptyString => None
  end.

(** [new URL (s)] with no base; [None] is the TypeError it throws. *)
Definition new_URL (s : string) : option URL :=
  let '(scheme, r0) := break (is_char ":") s in
  match after ":" r0 with
  | Some r1 =>
      if valid_scheme scheme then
        let '(auth, r2) :=
          match after "/" r1 ≫= after "/" with
          | Some r => let '(a, r') := break is_authority_end r in (Some a, r')
          | None => (None, r1)
          end in
        let '(path, r3) := break is_path_end r2 in
        let '(q, r4) :=
          match after "?" r3 with
          | Some r => let '(q, r') := break (is_char "#") r in (Some q, r')
          | None => (None, r3)
          end in
        let proto := scheme +:+ ":" in
        let path' :=
          if is_http proto && String.eqb path EmptyString then "/"%string else path in
        Some (mkURL proto auth path' q (after "#" r4)
                    (match q with Some q => parse_urlencoded q | None => [] end))
      else None
  | None => None
  end.

(** [url.toString ()], the href. *)
Definition URL_toString (u : URL) : string :=
  protocol u
  +:+ match host u with Some h => "//" +:+ h | None => EmptyString end
  +:+ pathname u
  +:+ match query u with Some q => "?" +:+ q | None => EmptyString end
  +:+ match fragment u with Some f => "#" +:+ f | None => EmptyString end.

(** [url.search]: empty for a null or empty query. *)
Definition search (u : URL) : string :=
  match query u with
  | Some (String c q) => "?" +:+ String c q
  | _ => EmptyString
  end.

(** Writing through [url.searchParams] changes the list and re-serializes
    the query from it; an empty list leaves the URL without a query. *)
Definition update_query (u : URL) (l : list (string * string)) : URL :=
  mkURL (protocol u) (host u) (pathname u)
        (match l with [] => None | _ => Some (serialize_urlencoded l) end)
        (fragment u) l.

Definition searchParams_delete (name : string) (u : URL) : URL :=
  update_query u (params_delete name (searchParams u)).

Definition searchParams_set (name v : string) (u : URL) : URL :=
  update_query u (params_set name v (searchParams u)).

Definition searchParams_get (name : string) (u : URL) : option string :=
  params_get name (searchParams u).

(** ** JavaScript values and exceptions *)

(** The values [JSON.parse] produces. *)
Inductive json :=
| JNull
| JBool (b : bool)
| JNum (n : Z)
| JStr (s : string)
| JArr (items : list json)
| JObj (fields : list (string * json)).

(** A computation that returns or throws. *)
Inductive result (A : Type) :=
| Ok (a : A)
| Throw (e : string).
Arguments Ok {A} a.
Arguments Throw {A} e.

Definition bind {A B : Type} (r : result A) (k : A -> result B) : result B :=
  match r with
  | Ok a => k a
  | Throw e => Throw e
  end.

Notation "x <- r ;; k" := (bind r (fun x => k))
  (at level 100, r at next level, right associativity).

Fixpoint assoc {A : Type} (k : string) (l : list (string * A)) : option A :=
  match l with
  | [] => None
  | (k', v) :: l' => if String.eqb k' k then Some v else assoc k l'
  end.

(** [name in v]: a TypeError on a primitive. *)
Definition has_prop (name : string) (v : json) : result bool :=
  match v with
  | JObj fs => Ok (bool_decide (is_Some (assoc name fs)))
  | JArr _ => Ok false
  | _ => Throw "TypeError: cannot use 'in' operator"
  end.

(** [v.name], where [v] may be undefined ([None]); the result is
    undefined ([None]) when there is no such property.  Reading a
    property of null or undefined is a TypeError. *)
Definition get_prop (name : string) (v : option json) : result (option json) :=
  match v with
  | None | Some JNull => Throw "TypeError: cannot read properties"
  | Some (JObj fs) => Ok (assoc name fs)
  | Some _ => Ok None
  end.

Definition truthy (v : option json) : bool :=
  match v with
  | None | Some JNull => false
  | Some (JBool b) => b
  | Some (JNum n) => negb (n =? 0)%Z
  | Some (JStr s) => negb (String.eqb s EmptyString)
  | Some (JArr _) | Some (JObj _) => true
  end.

(** [String (v)], as [URLSearchParams.set] applies it to a value. *)
Fixpoint js_to_string (v : json) : string :=
  match v with
  | JNull => "null"
  | JBool true => "true"
  | JBool false => "false"
  | JNum n => pretty n
  | JStr s => s
  | JArr l =>
      join "," (map (fun x => match x with JNull => EmptyString | _ => js_to_string x end) l)
  | JObj _ => "[object Object]"
  end.

(** ** Token extraction ([getSessionToken]) *)

Section traverse.
Context {S : Type}.
Variable beforeCb : option json -> S -> result (bool * S).

(** Modelled from the spec: [TraversalUtils.traverseSet] of
    3d-tiles-renderer/core is not among the sources.  The spec has the
    tree walked depth first from the root, a node before its children
    and the children in order, and has the walk stop at the first node
    for which the callback answers true.  [S] is the state the callback
    closes over; the boolean of the result tells whether the walk was
    stopped. *)
Fixpoint traverse_tile (tile : json) (s : S) : result (bool * S) :=
  match beforeCb (Some tile) s with
  | Throw e => Throw e
  | Ok (true, s') => Ok (true, s')
  | Ok (false, s') =>
      match tile with
      | JObj fs =>
          (fix in_fields (fs : list (string * json)) : result (bool * S) :=
             match fs with
             | [] => Ok (false, s')
             | (k, v) :: fs' =>
                 if String.eqb k "children" then
                   match v with
                   | JArr l =>
                       (fix in_children (l : list json) (s : S) : result (bool * S) :=
                          match l with
                          | [] => Ok (false, s)
                          | c :: l' =>
                              match traverse_tile c s with
                              | Ok (false, s1) => in_children l' s1
                              | r => r
                              end
                          end) l s'
                   | _ => Ok (false, s')
                   end
                 else in_fields fs'
             end) fs
      | _ => Ok (false, s')
      end
  end.

(** Modelled from the spec: [traverseSet (root, beforeCb)] walks from
    [root], which is undefined ([None]) when the manifest has none, and
    leaves the callback's state as the walk left it. *)
Definition traverseSet (root : option json) (s : S) : result S :=
  match root with
  | None => r <- beforeCb None s ;; Ok (snd r)
  | Some tile => r <- traverse_tile tile s ;; Ok (snd r)
  end.

(** The loop of [traverse_tile] over the children of a tile, on its own. *)
Fixpoint traverse_children (l : list json) (s : S) : result (bool * S) :=
  match l with
  | [] => Ok (false, s)
  | c :: l' =>
      match traverse_tile c s with
      | Ok (false, s1) => traverse_children l' s1
      | r => r
      end
  end.
End traverse.

(** The second element of [uri.split ('?')], or undefined. *)
Definition uri_params (uri : string) : option string :=
  match split "?" uri with
  | _ :: p :: _ => Some p
  | _ => None
  end.

(** [new URLSearchParams (params).get ('session')], as a value: a string
    or null. *)
Definition session_param (params : option string) : json :=
  match params with
  | None => JNull
  | Some p =>
      match params_get "session" (parse_urlencoded p) with
      | Some v => JStr v
      | None => JNull
      end
  end.

(** The callback [getSessionToken] hands to [traverseSet]; the state is
    its local variable [sessionToken]. *)
Definition token_callback (tile : option json) (sessionToken : json)
  : result (bool * json) :=
  content <- get_prop "content" tile ;;
  if truthy content then
    uri <- get_prop "uri" content ;;
    if truthy uri then
      match uri with
      | Some (JStr u) => Ok (true, session_param (uri_params u))
      | _ => Throw "TypeError: tile.content.uri.split is not a function"
      end
    else Ok (false, sessionToken)
  else Ok (false, sessionToken).

Definition getSessionToken (j : json) : result json :=
  b <- has_prop "session" j ;;
  if b then
    (* the property is there: [JSON.parse] leaves no undefined *)
    s <- get_prop "session" (Some j) ;; Ok (default JNull s)
  else
    root <- get_prop "root" (Some j) ;;
    traverseSet token_callback root JNull.

Definition content_tile (uri : string) (children : list json) : json :=
  JObj [("content"%string, JObj [("uri"%string, JStr uri)]);
        ("children"%string, JArr children)].

Definition plain_tile (children : list json) : json :=
  JObj [("children"%string, JArr children)].

(** ** The session-auth client ([GoogleCloudAuth]) *)

Definition TILES_MAP_URL : string := "https://tile.googleapis.com/v1/createSession".

(** The options object handed to [fetch]. *)
Record FetchOptions := mkOptions {
  opt_method : option string;
  opt_body : option json;       (* the value whose JSON text is the body *)
  opt_headers : option (list (string * string));
  opt_rest : list (string * json)
}.

Definition no_options : FetchOptions := mkOptions None None None [].

(** Assignment to a property of an object literal: an existing key keeps
    its place. *)
Fixpoint assoc_set {A : Type} (k : string) (v : A) (l : list (string * A))
  : list (string * A) :=
  match l with
  | [] => [(k, v)]
  | (k', x) :: l' =>
      if String.eqb k' k then (k', v) :: l' else (k', x) :: assoc_set k v l'
  end.

Record GoogleCloudAuth := mkAuth {
  apiToken : string;
  autoRefreshToken : bool;
  authURL : string;
  sessionToken : json;                    (* [JNull] until a token is held *)
  sessionOptions : json;
  _tokenRefreshPromise : option nat;      (* the refresh promise, by number *)
  proxyURL : option string
}.

Definition constructor (apiToken : string) (sessionOptions : json)
    (autoRefreshToken : bool) (proxyURL : option string) : GoogleCloudAuth :=
  mkAuth apiToken autoRefreshToken TILES_MAP_URL JNull sessionOptions None proxyURL.

Definition isMapTilesSession (a : GoogleCloudAuth) : bool :=
  String.eqb (authURL a) TILES_MAP_URL.

Definition set_authURL (u : string) (a : GoogleCloudAuth) : GoogleCloudAuth :=
  mkAuth (apiToken a) (autoRefreshToken a) u (sessionToken a)
         (sessionOptions a) (_tokenRefreshPromise a) (proxyURL a).

Definition set_sessionToken (t : json) (a : GoogleCloudAuth) : GoogleCloudAuth :=
  mkAuth (apiToken a) (autoRefreshToken a) (authURL a) t
         (sessionOptions a) (_tokenRefreshPromise a) (proxyURL a).

Definition set_tokenRefreshPromise (p : option nat) (a : GoogleCloudAuth)
  : GoogleCloudAuth :=
  mkAuth (apiToken a) (autoRefreshToken a) (authURL a) (sessionToken a)
         (sessionOptions a) p (proxyURL a).

(** An HTTP response: its status, and its body as [res.json ()] parses it
    ([None] when the body is not JSON). *)
Record Response := mkResponse {
  status : Z;
  body : option json
}.

Definition ok (res : Response) : bool :=
  (200 <=? status res)%Z && (status res <=? 299)%Z.

(** What the network answers to a request. *)
Inductive net_result :=
| NetError (e : string)
| NetResponse (res : Response).

Inductive promise_state :=
| Pending
| Fulfilled (v : json)
| Rejected (e : string).

(** Where a network call is made: [fetch] at line 133 for refresh promise
    [p], or at lines 57 and 79 for the call of [fetch] numbered [i]. *)
Inductive call_site :=
| RefreshCall (p : nat)
| DataCall (i : nat).

Record Request := mkRequest {
  req_site : call_site;
  req_url : string;
  req_options : FetchOptions
}.

Inductive outcome :=
| Returned (res : Response)
| ReturnedJson (j : json)
| Failed (e : string).

(** Where a call of [fetch] is suspended. *)
Inductive stage :=
| AwaitMarker (p : option nat)            (* line 37 *)
| AwaitData (retried : bool) (googleUrl : URL)   (* line 57, or 79 *)
| AwaitRetry (googleUrl : URL) (p : nat)  (* line 61 *)
| ReadBody (res : Response)               (* line 87 *)
| Done (o : outcome).

Record task := mkTask {
  t_url : string;
  t_options : FetchOptions;
  t_stage : stage;
  t_responses : list Response    (* the data responses received, oldest first *)
}.

Record World := mkWorld {
  auth : GoogleCloudAuth;
  promises : list promise_state;
  tasks : list task;
  network : list Request         (* the calls of the global fetch, oldest first *)
}.

Definition set_auth (a : GoogleCloudAuth) (w : World) : World :=
  mkWorld a (promises w) (tasks w) (network w).

Definition set_task (i : nat) (t : task) (w : World) : World :=
  mkWorld (auth w) (promises w) (<[i := t]> (tasks w)) (network w).

Definition set_stage (i : nat) (s : stage) (w : World) : World :=
  match tasks w !! i with
  | Some t => set_task i (mkTask (t_url t) (t_options t) s (t_responses t)) w
  | None => w
  end.

Definition send (r : Request) (w : World) : World :=
  mkWorld (auth w) (promises w) (tasks w) (network w ++ [r]).

Definition parse_URL (s : string) : result URL :=
  match new_URL s with
  | Some u => Ok u
  | None => Throw "TypeError: Invalid URL"
  end.

Definition truthy_string (s : option string) : bool :=
  match s with
  | Some (String _ _) => true
  | _ => false
  end.

(** Lines 49-54, 68-77 and 125-131: the request goes to the proxy, with
    the real URL as its [url] parameter, when one is configured. *)
Definition through_proxy (a : GoogleCloudAuth) (target : URL) : result URL :=
  match proxyURL a with
  | Some (String c p) =>
      fetchUrl <- parse_URL (String c p) ;;
      Ok (searchParams_set "url" (URL_toString target) fetchUrl)
  | _ => Ok target
  end.

(** Lines 112-123. *)
Definition refresh_options (a : GoogleCloudAuth) (options : FetchOptions)
  : FetchOptions :=
  if isMapTilesSession a then
    mkOptions (Some "POST"%string) (Some (sessionOptions a))
      (Some (assoc_set "Content-Type" "application/json"%string
               (default [] (opt_headers options))))
      (opt_rest options)
  else options.

(** [refreshToken (options)], lines 103-158: the promise it returns. *)
Definition refreshToken (options : FetchOptions) (w : World) : result (World * nat) :=
  match _tokenRefreshPromise (auth w) with
  | Some p => Ok (w, p)
  | None =>
      authUrl <- parse_URL (authURL (auth w)) ;;
      let authUrl := searchParams_set "key" (apiToken (auth w)) authUrl in
      let fetchOptions := refresh_options (auth w) options in
      fetchUrl <- through_proxy (auth w) authUrl ;;
      let p := length (promises w) in
      Ok (mkWorld (set_tokenRefreshPromise (Some p) (auth w))
                  (promises w ++ [Pending])
                  (tasks w)
                  (network w ++ [mkRequest (RefreshCall p) (URL_toString fetchUrl) fetchOptions]),
          p)
  end.

Definition error_code_message (res : Response) : string :=
  "GoogleCloudAuth: Failed to load data with error code " +:+ pretty (status res).

(** The two [then] callbacks of lines 134-152, run on the answer to the
    refresh request: how the promise settles, and the client after it. *)
Definition refresh_then (r : net_result) (a : GoogleCloudAuth)
  : promise_state * GoogleCloudAuth :=
  match r with
  | NetError e => (Rejected e, a)
  | NetResponse res =>
      if ok res then
        match body res with
        | None => (Rejected "SyntaxError: not JSON", a)
        | Some j =>
            match getSessionToken j with
            | Throw e => (Rejected e, a)
            | Ok t =>
                (Fulfilled j, set_tokenRefreshPromise None (set_sessionToken t a))
            end
        end
      else (Rejected (error_code_message res), a)
  end.

(** Lines 40-54 and 62-77: the URL with the key and the token applied. *)
Definition apply_token (a : GoogleCloudAuth) (googleUrl : URL) : URL :=
  if truthy (Some (sessionToken a))
  then searchParams_set "session" (js_to_string (sessionToken a)) googleUrl
  else googleUrl.

Definition fail (i : nat) (e : string) (w : World) : World :=
  set_stage i (Done (Failed e)) w.

(** Sends the data request of call [i] for [googleUrl] (lines 48-57 and
    68-79). *)
Definition send_data (i : nat) (retried : bool) (options : FetchOptions)
    (googleUrl : URL) (w : World) : World :=
  match through_proxy (auth w) googleUrl with
  | Throw e => fail i e w
  | Ok fetchUrl =>
      set_stage i (AwaitData retried googleUrl)
        (send (mkRequest (DataCall i) (URL_toString fetchUrl) options) w)
  end.

(** Lines 83-99, with the response in hand. *)
Definition finish (i : nat) (res : Response) (w : World) : World :=
  match sessionToken (auth w) with
  | JNull =>
      if isMapTilesSession (auth w) then set_stage i (Done (Returned res)) w
      else set_stage i (ReadBody res) w
  | _ => set_stage i (Done (Returned res)) w
  end.

Definition is_4xx (res : Response) : bool :=
  (400 <=? status res)%Z && (status res <=? 499)%Z.

Definition add_response (i : nat) (res : Response) (w : World) : World :=
  match tasks w !! i with
  | Some t =>
      set_task i (mkTask (t_url t) (t_options t) (t_stage t) (t_responses t ++ [res])) w
  | None => w
  end.

(** What the event loop delivers. *)
Inductive event :=
| Call (url : string) (options : FetchOptions)   (* someone calls fetch *)
| RefreshSettles (p : nat) (r : net_result)      (* the refresh request is answered *)
| Resume (i : nat)                               (* an awaited promise has settled *)
| DataArrives (i : nat) (r : net_result)         (* a data request is answered *)
| BodyRead (i : nat).                            (* res.json () settles *)

(** [fetch (url, options)] up to its first await, lines 28-37. *)
Definition call_fetch (url : string) (options : FetchOptions) (w : World) : World :=
  let i := length (tasks w) in
  let start (s : stage) (w : World) : World :=
    mkWorld (auth w) (promises w) (tasks w ++ [mkTask url options s []]) (network w) in
  match sessionToken (auth w), isMapTilesSession (auth w) with
  | JNull, true =>
      match refreshToken options w with
      | Throw e => start (Done (Failed e)) w
      | Ok (w', _) => start (AwaitMarker (_tokenRefreshPromise (auth w'))) w'
      end
  | _, _ => start (AwaitMarker (_tokenRefreshPromise (auth w))) w
  end.

(** The continuation of call [i] once the promise it awaits has settled. *)
Definition resume (i : nat) (w : World) : option World :=
  t ← tasks w !! i;
  match t_stage t with
  | AwaitMarker p =>
      let continue :=
        match parse_URL (t_url t) with
        | Throw e => fail i e w
        | Ok googleUrl =>
            let googleUrl := searchParams_set "key" (apiToken (auth w)) googleUrl in
            send_data i false (t_options t) (apply_token (auth w) googleUrl) w
        end in
      match p with
      | None => Some continue
      | Some p =>
          match promises w !! p with
          | Some (Fulfilled _) => Some continue
          | Some (Rejected e) => Some (fail i e w)
          | _ => None
          end
      end
  | AwaitRetry googleUrl p =>
      match promises w !! p with
      | Some (Fulfilled _) =>
          Some (send_data i true (t_options t) (apply_token (auth w) googleUrl) w)
      | Some (Rejected e) => Some (fail i e w)
      | _ => None
      end
  | _ => None
  end.

(** The continuation of call [i] once its data request is answered, lines
    57-61 and 79-83. *)
Definition data_arrives (i : nat) (r : net_result) (w : World) : option World :=
  t ← tasks w !! i;
  match t_stage t with
  | AwaitData retried googleUrl =>
      match r with
      | NetError e => Some (fail i e w)
      | NetResponse res =>
          let w := add_response i res w in
          if negb retried && is_4xx res && autoRefreshToken (auth w) then
            match refreshToken (t_options t) w with
            | Throw e => Some (fail i e w)
            | Ok (w', p) => Some (set_stage i (AwaitRetry googleUrl p) w')
            end
          else Some (finish i res w)
      end
  | _ => None
  end.

(** The callback of lines 88-93. *)
Definition body_read (i : nat) (w : World) : option World :=
  t ← tasks w !! i;
  match t_stage t with
  | ReadBody res =>
      match body res with
      | None => Some (fail i "SyntaxError: not JSON" w)
      | Some j =>
          match getSessionToken j with
          | Throw e => Some (fail i e w)
          | Ok tok =>
              Some (set_stage i (Done (ReturnedJson j))
                      (set_auth (set_sessionToken tok (auth w)) w))
          end
      end
  | _ => None
  end.

Definition refresh_settles (p : nat) (r : net_result) (w : World) : option World :=
  match promises w !! p with
  | Some Pending =>
      let '(s, a) := refresh_then r (auth w) in
      Some (mkWorld a (<[p := s]> (promises w)) (tasks w) (network w))
  | _ => None
  end.

(** One turn of the event loop; [None] when the event cannot happen. *)
Definition step (e : event) (w : World) : option World :=
  match e with
  | Call url options => Some (call_fetch url options w)
  | RefreshSettles p r => refresh_settles p r w
  | Resume i => resume i w
  | DataArrives i r => data_arrives i r w
  | BodyRead i => body_read i w
  end.

Fixpoint run (es : list event) (w : World) : option World :=
  match es with
  | [] => Some w
  | e :: es' => w' ← step e w; run es' w'
  end.

(** A client on which nothing has been called yet. *)
Definition fresh (a : GoogleCloudAuth) : World := mkWorld a [] [] [].

Definition is_refresh (r : Request) : bool :=
  match req_site r with RefreshCall _ => true | DataCall _ => false end.

Definition is_data_of (i : nat) (r : Request) : bool :=
  match req_site r with DataCall j => Nat.eqb i j | RefreshCall _ => false end.

Definition refresh_calls (w : World) : nat :=
  length (List.filter is_refresh (network w)).

Definition data_calls (i : nat) (w : World) : nat :=
  length (List.filter (is_data_of i) (network w)).

(** ** The caching proxy ([server.js]) *)

(** What the proxy takes from its platform: the SHA-1 digest in
    hexadecimal and the cache directory. *)
Class Platform := {
  sha1_hex : string -> string;
  CACHE_DIR : string
}.

Definition path_join (dir name : string) : string := dir +:+ "/" +:+ name.

Definition urlToCachePath `{Platform} (urlString : string) : string :=
  path_join CACHE_DIR (sha1_hex urlString).

(** The response object [res]. *)
Record ServerResponse := mkRes {
  statusCode : Z;
  headers : list (string * string);
  headersSent : bool;
  sent : string;              (* the body bytes that reached the socket *)
  ended : bool;               (* res.end () was called *)
  destroyed : bool            (* res.destroy () was called *)
}.

Definition setHeader (name value : string) (r : ServerResponse) : ServerResponse :=
  mkRes (statusCode r) (assoc_set name value (headers r)) (headersSent r)
        (sent r) (ended r) (destroyed r).

Definition set_statusCode (s : Z) (r : ServerResponse) : ServerResponse :=
  mkRes s (headers r) (headersSent r) (sent r) (ended r) (destroyed r).

(** [res.write (chunk)], for a response that has a body (the request is
    not a HEAD); the bytes are dropped when the client is gone. *)
Definition res_write (client_gone : bool) (chunk : string) (r : ServerResponse)
  : ServerResponse :=
  mkRes (statusCode r) (headers r) true
        (if client_gone then sent r else sent r +:+ chunk) (ended r) (destroyed r).

Definition res_end (client_gone : bool) (chunk : string) (r : ServerResponse)
  : ServerResponse :=
  mkRes (statusCode r) (headers r) true
        (if client_gone then sent r else sent r +:+ chunk) true (destroyed r).

Definition res_destroy (r : ServerResponse) : ServerResponse :=
  mkRes (statusCode r) (headers r) (headersSent r) (sent r) (ended r) true.

Definition sendError (client_gone : bool) (status : Z) (message : string)
    (r : ServerResponse) : ServerResponse :=
  res_end client_gone message
    (setHeader "Content-Type" "text/plain; charset=utf-8" (set_statusCode status r)).

(** An incoming request: the method and the request target, in origin
    form (a path and an optional query). *)
Record IncomingMessage := mkReq {
  method : string;
  url : string
}.

(** [new URL (req.url, base)]: the path and the query of a target in
    origin form, as they are written. *)
Definition request_target (s : string) : string * option string :=
  let '(path, r) := break is_path_end s in
  (path, (fun r' => fst (break (is_char "#") r')) <$> after "?" r).

(** Lines 80-100: the string whose digest names the cache file. *)
Definition cache_key (target : URL) : result string :=
  cacheKeyUrl <- parse_URL (URL_toString target) ;;
  Ok (URL_toString (searchParams_delete "session" (searchParams_delete "key" cacheKeyUrl))).

Definition hashed_string (target : URL) : result (option string) :=
  if endsWith (pathname target) ".glb" then
    cacheKey <- cache_key target ;; Ok (Some cacheKey)
  else if endsWith (pathname target) ".json" then
    cacheKey <- cache_key target ;; Ok (Some ("json:" +:+ cacheKey))
  else Ok None.

Definition cache_path `{Platform} (target : URL) : result (option string) :=
  k <- hashed_string target ;; Ok (urlToCachePath <$> k).

(** The request [http.request] or [https.request] is given, lines
    135-147: the protocol, the authority (host name and port), the path
    with the query, and whether it goes through the SOCKS agent.  The
    agent always exists ([SOCKS_PROXY_URL] has a default), so it is used
    for every https URL. *)
Record UpstreamRequest := mkUpstream {
  up_protocol : string;
  up_host : option string;
  up_path : string;
  up_socks : bool
}.

(** The upstream exchange of a connection. *)
Inductive upstream_state :=
| NotAsked              (* no upstream request was made *)
| Asked                 (* upstreamReq.end () was called *)
| Responding            (* the callback of line 151 has run *)
| UpEnded               (* 'end' was emitted *)
| UpFailed.             (* 'error' was emitted *)

(** The write stream on the temporary file; [pending] are the chunks
    written to the stream and not yet in the file. *)
Inductive file_state :=
| NoFile
| Writing (pending : list string)
| Ending (pending : list string)     (* fileStream.end (cb) was called *)
| Renaming                           (* cb has run: fs.rename is under way *)
| Renamed (err : bool)               (* the callback of fs.rename has run *)
| Destroyed.

(** The read stream of a cache hit. *)
Inductive read_state :=
| NoRead
| Reading (content : string)
| ReadDone.

(** The calls the handler makes, in program order. *)
Inductive effect :=
| FileWrite (chunk : string)       (* fileStream.write (chunk) *)
| ClientWrite (chunk : string)     (* res.write (chunk) *)
| FileEnd                          (* fileStream.end (cb) *)
| ClientEnd                        (* res.end () *)
| Rename (src dst : string)        (* fs.rename (tmpPath, cachePath, cb) *)
| FileDestroy.                     (* fileStream.destroy () *)

Record Conn := mkConn {
  res : ServerResponse;
  client_gone : bool;
  cachePath : option string;
  upstream : upstream_state;
  fileStream : file_state;
  readStream : read_state;
  uncaught : option string;          (* the handler threw: its promise is rejected *)
  trace : list effect
}.

(** The disk and the upstream requests made so far. *)
Record Server := mkServer {
  fs : gmap string string;
  upstream_log : list UpstreamRequest
}.

Definition new_res : ServerResponse := mkRes 200 [] false EmptyString false false.

Definition set_res (r : ServerResponse) (c : Conn) : Conn :=
  mkConn r (client_gone c) (cachePath c) (upstream c) (fileStream c)
         (readStream c) (uncaught c) (trace c).

Definition set_upstream (u : upstream_state) (c : Conn) : Conn :=
  mkConn (res c) (client_gone c) (cachePath c) u (fileStream c)
         (readStream c) (uncaught c) (trace c).

Definition set_fileStream (f : file_state) (c : Conn) : Conn :=
  mkConn (res c) (client_gone c) (cachePath c) (upstream c) f
         (readStream c) (uncaught c) (trace c).

Definition set_readStream (r : read_state) (c : Conn) : Conn :=
  mkConn (res c) (client_gone c) (cachePath c) (upstream c) (fileStream c)
         r (uncaught c) (trace c).

Definition set_client_gone (c : Conn) : Conn :=
  mkConn (res c) true (cachePath c) (upstream c) (fileStream c)
         (readStream c) (uncaught c) (trace c).

Definition log (es : list effect) (c : Conn) : Conn :=
  mkConn (res c) (client_gone c) (cachePath c) (upstream c) (fileStream c)
         (readStream c) (uncaught c) (trace c ++ es).

(** A connection whose response is [r] and on which nothing else happened. *)
Definition answered (r : ServerResponse) : Conn :=
  mkConn r false None NotAsked NoFile NoRead None [].

Definition tmp_of (cachePath : string) : string := cachePath +:+ ".tmp".

(** The handler up to its return, lines 44-218. *)
Definition handle `{Platform} (req : IncomingMessage) (s : Server) : Server * Conn :=
  let r := setHeader "Access-Control-Allow-Methods" "GET,OPTIONS"
             (setHeader "Access-Control-Allow-Origin" "*" new_res) in
  if String.eqb (method req) "OPTIONS" then
    (s, answered (res_end false EmptyString (set_statusCode 200 r)))
  else
    let '(path, q) := request_target (url req) in
    if negb (String.eqb path "/proxy") then
      (s, answered (sendError false 404 "Not Found" r))
    else
      match params_get "url" (parse_urlencoded (default EmptyString q)) with
      | None | Some EmptyString =>
          (s, answered (sendError false 400 "Missing url param" r))
      | Some googleUrl =>
          match (target <- parse_URL googleUrl ;;
                 cp <- cache_path target ;; Ok (target, cp)) with
          | Throw e =>
              (s, mkConn r false None NotAsked NoFile NoRead (Some e) [])
          | Ok (target, cp) =>
              let hit :=
                match cp with
                | Some p => fs s !! p
                | None => None
                end in
              match hit with
              | Some content =>
                  let r := setHeader "Content-Length" (pretty (String.length content))
                             (setHeader "X-Cache" "HIT" (set_statusCode 200 r)) in
                  let r := if endsWith (pathname target) ".json"
                           then setHeader "Content-Type" "application/json; charset=utf-8" r
                           else r in
                  (s, mkConn r false cp NotAsked NoFile (Reading content) None [])
              | None =>
                  if is_http (protocol target) then
                    (mkServer (fs s)
                       (upstream_log s ++
                          [mkUpstream (protocol target) (host target)
                             (pathname target +:+ search target)
                             (String.eqb (protocol target) "https:")]),
                     mkConn r false cp Asked NoFile NoRead None [])
                  else
                    (s, mkConn (sendError false 400 "Invalid url param" r)
                               false cp NotAsked NoFile NoRead None [])
              end
          end
      end.

(** What the event loop delivers to a connection. *)
Inductive conn_event :=
| UpstreamResponse (status : Z) (contentType : option string)
| UpstreamData (chunk : string)
| UpstreamEnd
| UpstreamError                    (* 'error' on upstreamRes *)
| RequestError (refused : bool)    (* 'error' on upstreamReq *)
| ClientDisconnects
| FileFlushed                      (* one pending chunk reaches the file *)
| FileFinished                     (* the stream has finished: cb runs *)
| RenameDone                       (* fs.rename completes *)
| ReadEnds                         (* the read stream has been piped *)
| ReadError.

Definition append_file (path chunk : string) (fs : gmap string string)
  : gmap string string :=
  <[path := default EmptyString (fs !! path) +:+ chunk]> fs.

(** [fs.rename]: [None] is the error of a missing source. *)
Definition rename_file (src dst : string) (fs : gmap string string)
  : option (gmap string string) :=
  content ← fs !! src; Some (<[dst := content]> (delete src fs)).

Definition fail_response (message : string) (c : Conn) : Conn :=
  if headersSent (res c) then set_res (res_destroy (res c)) c
  else set_res (sendError (client_gone c) 502 message (res c)) c.

(** Lines 152-157: the status and the content type are passed on. *)
Definition pass_on (st : Z) (ct : option string) (r : ServerResponse) : ServerResponse :=
  let r := set_statusCode (if (st =? 0)%Z then 502%Z else st) r in
  match ct with
  | Some (String a t) => setHeader "Content-Type" (String a t) r
  | _ => r
  end.

Definition conn_step (e : conn_event) (sc : Server * Conn) : option (Server * Conn) :=
  let '(s, c) := sc in
  match e, upstream c with
  | UpstreamResponse st ct, Asked =>
      (* lines 152-160 *)
      let c := set_upstream Responding (set_res (pass_on st ct (res c)) c) in
      match cachePath c with
      | Some p =>
          Some (mkServer (<[tmp_of p := EmptyString]> (fs s)) (upstream_log s),
                set_fileStream (Writing []) c)
      | None => Some (s, c)
      end
  | UpstreamData chunk, Responding =>
      (* lines 162-167 *)
      let c := match fileStream c with
               | Writing pending =>
                   log [FileWrite chunk] (set_fileStream (Writing (pending ++ [chunk])) c)
               | _ => c
               end in
      Some (s, log [ClientWrite chunk]
                 (set_res (res_write (client_gone c) chunk (res c)) c))
  | UpstreamEnd, Responding =>
      (* lines 169-181 *)
      let c := match fileStream c with
               | Writing pending => log [FileEnd] (set_fileStream (Ending pending) c)
               | _ => c
               end in
      Some (s, set_upstream UpEnded
                 (log [ClientEnd] (set_res (res_end (client_gone c) EmptyString (res c)) c)))
  | UpstreamError, Responding =>
      (* lines 183-193 *)
      let c := match fileStream c with
               | Writing _ => log [FileDestroy] (set_fileStream Destroyed c)
               | _ => c
               end in
      Some (s, set_upstream UpFailed (fail_response "Upstream response error" c))
  | RequestError refused, Asked | RequestError refused, Responding =>
      (* lines 196-211 *)
      Some (s, set_upstream UpFailed
                 (fail_response
                    (if refused
                     then "Upstream request error: cannot reach Google (connection refused)"
                     else "Upstream request error") c))
  | ClientDisconnects, _ => Some (s, set_client_gone c)
  | FileFlushed, _ =>
      match fileStream c, cachePath c with
      | Writing (chunk :: pending), Some p =>
          Some (mkServer (append_file (tmp_of p) chunk (fs s)) (upstream_log s),
                set_fileStream (Writing pending) c)
      | Ending (chunk :: pending), Some p =>
          Some (mkServer (append_file (tmp_of p) chunk (fs s)) (upstream_log s),
                set_fileStream (Ending pending) c)
      | _, _ => None
      end
  | FileFinished, _ =>
      (* lines 171-178 *)
      match fileStream c, cachePath c with
      | Ending [], Some p =>
          Some (s, log [Rename (tmp_of p) p] (set_fileStream Renaming c))
      | _, _ => None
      end
  | RenameDone, _ =>
      match fileStream c, cachePath c with
      | Renaming, Some p =>
          match rename_file (tmp_of p) p (fs s) with
          | Some fs' => Some (mkServer fs' (upstream_log s), set_fileStream (Renamed false) c)
          | None => Some (s, set_fileStream (Renamed true) c)
          end
      | _, _ => None
      end
  | ReadEnds, _ =>
      match readStream c with
      | Reading content =>
          Some (s, set_readStream ReadDone
                     (set_res (res_end (client_gone c) content (res c)) c))
      | _ => None
      end
  | ReadError, _ =>
      (* lines 116-123 *)
      match readStream c with
      | Reading _ =>
          Some (s, set_readStream ReadDone
                     (if headersSent (res c) then set_res (res_destroy (res c)) c
                      else set_res (sendError (client_gone c) 500 "Read cache error" (res c)) c))
      | _ => None
      end
  | _, _ => None
  end.

Fixpoint conn_run (es : list conn_event) (sc : Server * Conn) : option (Server * Conn) :=
  match es with
  | [] => Some sc
  | e :: es' => sc' ← conn_step e sc; conn_run es' sc'
  end.

(** The chunks the upstream has delivered: those handed to [res.write]. *)
Fixpoint received (t : list effect) : list string :=
  match t with
  | [] => []
  | ClientWrite chunk :: t' => chunk :: received t'
  | _ :: t' => received t'
  end.

Definition is_write (e : effect) : bool :=
  match e with
  | FileWrite _ | ClientWrite _ => true
  | _ => false
  end.

Definition concat_chunks (l : list string) : string :=
  fold_right String.append EmptyString l.

(** ** The server and its connections *)

(** The handler runs once for each request, and the callbacks it has
    registered run later, one at a time, those of one connection between
    those of another; all share the disk.  What the event loop delivers
    to the server: a new request, for which the handler runs and which
    becomes the next connection, or an event of connection [i]. *)
Inductive server_event :=
| Incoming (req : IncomingMessage)
| On (i : nat) (e : conn_event).

Definition server_step `{Platform} (e : server_event) (sc : Server * list Conn)
  : option (Server * list Conn) :=
  let '(s, cs) := sc in
  match e with
  | Incoming req => let '(s', c) := handle req s in Some (s', cs ++ [c])
  | On i e =>
      c ← cs !! i;
      sc' ← conn_step e (s, c);
      Some (fst sc', <[i := snd sc']> cs)
  end.

Fixpoint server_run `{Platform} (es : list server_event) (sc : Server * list Conn)
  : option (Server * list Conn) :=
  match es with
  | [] => Some sc
  | e :: es' => sc' ← server_step e sc; server_run es' sc'
  end.

(** ** The build configuration *)

(** [/^[./\\]/.test (p)]: [p] begins like a path. *)
Definition is_path_like (p : string) : bool :=
  match p with
  | String c _ => is_char "." c || is_char "/" c || is_char "\" c
  | EmptyString => false
  end.

(** [/^prefix/.test (s)] for a literal prefix. *)
Fixpoint starts_with (prefix s : string) : bool :=
  match prefix with
  | EmptyString => true
  | String a prefix' =>
      match s with
      | String b s' => Ascii.eqb a b && starts_with prefix' s'
      | EmptyString => false
      end
  end.

(** [rollupOptions.external], lines 234-238 of the build configuration:
    a module is left out of the bundle when its name neither begins like
    a path nor begins with the name of the package. *)
Definition external (p : string) : bool :=
  negb (is_path_like p) && negb (starts_with "3d-tiles-renderer" p).

(** The entry points of the library build, lines 212-220. *)
Definition entry : list (string * string) :=
  [("index", "./src/index.js");
   ("index.plugins", "./src/plugins.js");
   ("index.core", "./src/core/renderer/index.js");
   ("index.three", "./src/three/renderer/index.js");
   ("index.r3f", "./src/r3f/index.jsx");
   ("index.core-plugins", "./src/core/plugins/index.js");
   ("index.three-plugins", "./src/three/plugins/index.js")]%string.

(** ** Notions the properties are stated with *)

(** *** URLs *)

(** The shape of the URLs [new_URL] produces. *)
Record wf_URL (u : URL) : Prop := {
  wf_scheme : exists scheme, protocol u = scheme +:+ ":" /\ valid_scheme scheme = true;
  wf_host :
    match host u with
    | Some h => avoids is_authority_end h = true /\ stops (is_char "/") (pathname u) = true
    | None => after "/" (pathname u) ≫= after "/" = None
    end;
  wf_path : avoids is_path_end (pathname u) = true;
  wf_http : is_http (protocol u) = true -> pathname u <> EmptyString;
  wf_query :
    match query u with
    | Some q => avoids (is_char "#") q = true
    | None => True
    end;
  wf_params :
    searchParams u = match query u with Some q => parse_urlencoded q | None => [] end
}.

Definition query_part (q : option string) : string :=
  match q with Some q => "?" +:+ q | None => EmptyString end.

Definition fragment_part (f : option string) : string :=
  match f with Some f => "#" +:+ f | None => EmptyString end.

Definition origin_part (u : URL) : string :=
  protocol u +:+ match host u with Some h => "//" +:+ h | None => EmptyString end.

Definition strip_credentials (l : list (string * string)) : list (string * string) :=
  params_delete "session" (params_delete "key" l).

(** Two URLs that differ at most in their "key" and "session" parameters. *)
Definition same_asset (t1 t2 : URL) : Prop :=
  protocol t1 = protocol t2 /\ host t1 = host t2 /\ pathname t1 = pathname t2 /\
  fragment t1 = fragment t2 /\
  strip_credentials (searchParams t1) = strip_credentials (searchParams t2).

Definition cacheable (t : URL) : bool :=
  endsWith (pathname t) ".glb" || endsWith (pathname t) ".json".

Definition normalized (t : URL) : URL :=
  searchParams_delete "session" (searchParams_delete "key" t).

(** *** Tiles *)

(** The array under the first "children" key. *)
Fixpoint children_in (fs : list (string * json)) : list json :=
  match fs with
  | [] => []
  | (k, v) :: fs' =>
      if String.eqb k "children" then
        match v with
        | JArr l => l
        | _ => []
        end
      else children_in fs'
  end.

Definition tile_children (tile : json) : list json :=
  match tile with
  | JObj fs => children_in fs
  | _ => []
  end.

(** Induction on a tile with its children. *)
Fixpoint tile_ind (P : json -> Prop)
    (step : forall tile, Forall P (tile_children tile) -> P tile) (tile : json)
    {struct tile} : P tile :=
  step tile
    (match tile return Forall P (tile_children tile) with
     | JObj fs =>
         (fix in_fields (fs : list (string * json)) : Forall P (children_in fs) :=
            match fs return Forall P (children_in fs) with
            | [] => @List.Forall_nil json P
            | kv :: fs' =>
                match kv return Forall P (children_in (kv :: fs')) with
                | (k, v) =>
                    match String.eqb k "children" as b
                      return Forall P (if b then match v with JArr l => l | _ => [] end
                                       else children_in fs') with
                    | true =>
                        match v return Forall P (match v with JArr l => l | _ => [] end) with
                        | JArr l =>
                            (fix in_children (l : list json) : Forall P l :=
                               match l return Forall P l with
                               | [] => @List.Forall_nil json P
                               | c :: l' =>
                                   @List.Forall_cons json P c l' (tile_ind P step c) (in_children l')
                               end) l
                        | _ => @List.Forall_nil json P
                        end
                    | false => in_fields fs'
                    end
                end
            end) fs
     | _ => @List.Forall_nil json P
     end).

(** The tiles in the order of the walk: a tile, then its children's. *)
Fixpoint preorder (tile : json) : list json :=
  tile ::
  match tile with
  | JObj fs =>
      (fix in_fields (fs : list (string * json)) : list json :=
         match fs with
         | [] => []
         | (k, v) :: fs' =>
             if String.eqb k "children" then
               match v with
               | JArr l =>
                   (fix in_children (l : list json) : list json :=
                      match l with
                      | [] => []
                      | c :: l' => preorder c ++ in_children l'
                      end) l
               | _ => []
               end
             else in_fields fs'
         end) fs
  | _ => []
  end.

(** The content URI the callback stops at: a string that is not empty. *)
Definition content_uri (tile : json) : option string :=
  match tile with
  | JObj fs =>
      match assoc "content" fs with
      | Some (JObj cfs) =>
          match assoc "uri" cfs with
          | Some (JStr (String c u)) => Some (String c u)
          | _ => None
          end
      | _ => None
      end
  | _ => None
  end.

(** A tile on which the callback does not throw. *)
Definition tile_ok (tile : json) : Prop :=
  exists r, token_callback (Some tile) JNull = Ok r.

Definition token_of_uri (uri : string) : json := session_param (uri_params uri).

(** The first content URI among tiles. *)
Definition first_content_uri (tiles : list json) : option string :=
  head (omap content_uri tiles).

Definition example_root : json :=
  plain_tile [plain_tile []; content_tile "mesh.glb?session=xyz&other=1" []].

(** *** Calls of [fetch] *)




Definition with_stage (s : stage) (t : task) : task :=
  mkTask (t_url t) (t_options t) s (t_responses t).

Definition with_response (res : Response) (t : task) : task :=
  mkTask (t_url t) (t_options t) (t_stage t) (t_responses t ++ [res]).

(** [w'] is [w] with call [i] replaced by [t'], [k] more data requests of
    call [i] and none of another call. *)
Record updates (i : nat) (t' : task) (k : nat) (w w' : World) : Prop := {
  upd_tasks : tasks w' = <[i := t']> (tasks w);
  upd_auto : autoRefreshToken (auth w') = autoRefreshToken (auth w);
  upd_calls : data_calls i w' = data_calls i w + k;
  upd_others : forall j, j <> i -> data_calls j w' = data_calls j w
}.

Definition retry_due (ar : bool) (res : Response) : bool := is_4xx res && ar.

(** The call ended on response [res]: the only one, not calling for a
    retry, or the second one, after a first that did. *)
Definition settled (ar : bool) (n : nat) (rs : list Response) (res : Response) : Prop :=
  (n = 1 /\ rs = [res] /\ retry_due ar res = false) \/
  (n = 2 /\ exists r1, rs = [r1; res] /\ retry_due ar r1 = true).

(** What holds of a call of [fetch] that has sent [n] data requests. *)
Definition task_inv (ar : bool) (n : nat) (t : task) : Prop :=
  match t_stage t with
  | AwaitMarker _ => n = 0 /\ t_responses t = []
  | AwaitData false _ => n = 1 /\ t_responses t = []
  | AwaitRetry _ _ => n = 1 /\ exists r1, t_responses t = [r1] /\ retry_due ar r1 = true
  | AwaitData true _ => n = 2 /\ exists r1, t_responses t = [r1] /\ retry_due ar r1 = true
  | ReadBody res | Done (Returned res) => settled ar n (t_responses t) res
  | Done (ReturnedJson j) => exists res, body res = Some j /\ settled ar n (t_responses t) res
  | Done (Failed _) =>
      n <= 2 /\ (forall r1 rest, t_responses t = r1 :: rest -> retry_due ar r1 = false ->
                                 n = 1 /\ rest = [])
  end.

Record fetch_inv (ar : bool) (w : World) : Prop := {
  inv_auto : autoRefreshToken (auth w) = ar;
  inv_tasks : forall i t, tasks w !! i = Some t -> task_inv ar (data_calls i w) t;
  inv_fresh : forall i, length (tasks w) <= i -> data_calls i w = 0
}.

Definition stage_of (i : nat) (w : World) : option stage := t_stage <$> tasks w !! i.

Definition no_token_3d (a : GoogleCloudAuth) : bool :=
  match sessionToken a with
  | JNull => negb (isMapTilesSession a)
  | _ => false
  end.

(** A client with auto-refresh, for the 2D map tiles. *)
Definition map_client : GoogleCloudAuth := constructor "KEY" JNull true None.

Definition tile_url : string := "https://tile.googleapis.com/v1/2dtiles/1/0/0".

Definition session_reply (tok : string) : net_result :=
  NetResponse (mkResponse 200 (Some (JObj [("session"%string, JStr tok)]))).

Definition status_reply (st : Z) : net_result := NetResponse (mkResponse st None).

Definition after_run (es : list event) (w0 : World) (P : World -> Prop) : Prop :=
  match run es w0 with
  | Some w => P w
  | None => False
  end.

Definition retry_events : list event :=
  [Call tile_url no_options; RefreshSettles 0 (session_reply "s1"); Resume 0;
   DataArrives 0 (status_reply 401); RefreshSettles 1 (session_reply "s2");
   Resume 0; DataArrives 0 (status_reply 403)].

Definition retry_world : World :=
  Eval vm_compute in default (fresh map_client) (run retry_events (fresh map_client)).

Definition retry_task : task :=
  Eval vm_compute in
    default (mkTask EmptyString no_options (AwaitMarker None) []) (tasks retry_world !! 0).

Definition root_url : string := "https://tile.googleapis.com/v1/3dtiles/root.json".

(** A client for the 3D tiles: [authURL] is the root tileset. *)
Definition tiles3d_client : GoogleCloudAuth :=
  set_authURL root_url (constructor "KEY" JNull false None).

Definition manifest : json :=
  JObj [("root"%string,
         plain_tile [content_tile "/v1/3dtiles/datasets/a/files/b.glb?session=xyz" []])].

Definition first_call_world : World :=
  Eval vm_compute in
    default (fresh tiles3d_client)
      (run [Call root_url no_options; Resume 0] (fresh tiles3d_client)).

Definition first_call_task : task :=
  Eval vm_compute in
    default (mkTask EmptyString no_options (AwaitMarker None) [])
      (tasks first_call_world !! 0).

Definition first_call_url : URL :=
  Eval vm_compute in
    match t_stage first_call_task with
    | AwaitData _ g => g
    | _ => mkURL EmptyString None EmptyString None None []
    end.

(** At most one refresh is in flight: a pending refresh promise is the
    one [_tokenRefreshPromise] holds. *)
Record one_in_flight (w : World) : Prop := {
  pending_is_marker : forall p, promises w !! p = Some Pending ->
                                _tokenRefreshPromise (auth w) = Some p;
  marker_is_promise : forall p, _tokenRefreshPromise (auth w) = Some p ->
                                p < length (promises w)
}.

(** *** Connections of the proxy *)

Arguments concat_chunks : simpl never.
Arguments received : simpl nomatch.

Definition paired (chunks : list string) : list effect :=
  flat_map (fun chunk => [FileWrite chunk; ClientWrite chunk]) chunks.

(** The part of the upstream body that is in the temporary file, and the
    part still in the stream. *)
Definition in_flight (s : Server) (c : Conn) (p : string) (pending : list string) : Prop :=
  exists written,
    fs s !! tmp_of p = Some written /\
    written +:+ concat_chunks pending = concat_chunks (received (trace c)).

Definition renames (t : list effect) : list effect :=
  List.filter (fun e => match e with Rename _ _ => true | _ => false end) t.

(** What holds of a connection that missed the cache for [p]. *)
Definition miss_inv (p : string) (sc : Server * Conn) : Prop :=
  let '(s, c) := sc in
  cachePath c = Some p /\ readStream c = NoRead /\
  List.filter is_write (trace c) = paired (received (trace c)) /\
  match fileStream c with
  | NoFile =>
      (upstream c = Asked \/ upstream c = UpFailed) /\ trace c = [] /\ fs s !! p = None
  | Writing pending =>
      (upstream c = Responding \/ upstream c = UpFailed) /\ renames (trace c) = [] /\
      fs s !! p = None /\ in_flight s c p pending
  | Ending pending =>
      upstream c = UpEnded /\ renames (trace c) = [] /\
      fs s !! p = None /\ in_flight s c p pending
  | Renaming =>
      upstream c = UpEnded /\ renames (trace c) = [Rename (tmp_of p) p] /\
      fs s !! p = None /\
      fs s !! tmp_of p = Some (concat_chunks (received (trace c)))
  | Renamed err =>
      upstream c = UpEnded /\ renames (trace c) = [Rename (tmp_of p) p] /\ err = false /\
      fs s !! p = Some (concat_chunks (received (trace c)))
  | Destroyed => upstream c = UpFailed /\ renames (trace c) = [] /\ fs s !! p = None
  end.

(** The events of a cache miss that goes well: the upstream answers with
    the chunks of its body, the file is flushed and renamed. *)
Definition miss_events (st : Z) (ct : option string) (chunks : list string)
  : list conn_event :=
  UpstreamResponse st ct :: map UpstreamData chunks ++ [UpstreamEnd] ++
  repeat FileFlushed (length chunks) ++ [FileFinished; RenameDone].

(** The request of the scenario: a GET of the proxy route for [target]. *)
Record asks_for (req : IncomingMessage) (target : URL) : Prop := {
  asks_method : String.eqb (method req) "OPTIONS" = false;
  asks_route : fst (request_target (url req)) = "/proxy"%string;
  asks_url : exists c g,
    params_get "url"
      (parse_urlencoded (default EmptyString (snd (request_target (url req)))))
      = Some (String c g) /\
    new_URL (String c g) = Some target
}.

Definition manifest_path `{Platform} (target : URL) : string :=
  urlToCachePath ("json:" +:+ URL_toString (normalized target)).

(** *** Examples *)

(** A platform for the examples; any digest will do. *)
Definition example_platform : Platform :=
  {| sha1_hex := fun s => "sha1-of-" +:+ s; CACHE_DIR := "tile-cache" |}.

Definition glb_request : IncomingMessage :=
  mkReq "GET" "/proxy?url=https://tiles.example/a.glb%3Fkey%3DK%26session%3DS".

Definition glb_path : string :=
  Eval vm_compute in urlToCachePath (H := example_platform) "https://tiles.example/a.glb".

Definition empty_server : Server := mkServer ∅ [].

(** The client leaves after the first chunk. *)
Definition disconnect_events : list conn_event :=
  [UpstreamResponse 200 (Some "model/gltf-binary"%string); UpstreamData "gl";
   ClientDisconnects; FileFlushed; UpstreamData "TF"; UpstreamEnd; FileFlushed;
   FileFinished; RenameDone].

Definition glb_url_1 : string := "https://tiles.example/a.glb?key=K1&session=S1&v=2".
Definition glb_url_2 : string := "https://tiles.example/a.glb?v=2&session=S2".

Definition parsed (s : string) : URL :=
  default (mkURL EmptyString None EmptyString None None []) (new_URL s).

Definition manifest_request : IncomingMessage :=
  mkReq "GET" "/proxy?url=https://tiles.example/root.json".

Definition manifest_target : URL := parsed "https://tiles.example/root.json".

(** *** More notions and examples *)

(** The characters the serializer writes. *)
Definition is_form_output (c : ascii) : bool :=
  form_safe c || is_char "+" c || is_char "%" c.

(** One pair as the serializer writes it. *)
Definition encode_pair (p : string * string) : string :=
  form_encode (fst p) +:+ "=" +:+ form_encode (snd p).

(** *** Requests and their parameters *)



(** How many parameters have the name [name]. *)
Definition params_count (name : string) (l : list (string * string)) : nat :=
  length (filter (fun p => fst p = name) l).




(** *** What the proxy sends *)

(** The two headers of lines 46-47. *)
Definition cors (r : ServerResponse) : Prop :=
  assoc "Access-Control-Allow-Origin" (headers r) = Some "*"%string /\
  assoc "Access-Control-Allow-Methods" (headers r) = Some "GET,OPTIONS"%string.

(** The response as lines 46-47 leave it. *)
Definition cors_res : ServerResponse :=
  setHeader "Access-Control-Allow-Methods" "GET,OPTIONS"
    (setHeader "Access-Control-Allow-Origin" "*" new_res).

(** The chunks the upstream delivers in a list of events. *)
Definition chunk_of (e : conn_event) : list string :=
  match e with
  | UpstreamData chunk => [chunk]
  | _ => []
  end.

Definition upstream_chunks (es : list conn_event) : list string := flat_map chunk_of es.

(** The texts of the 502 answers. *)
Definition is_upstream_error_text (m : string) : Prop :=
  m = "Upstream response error"%string \/ m = "Upstream request error"%string \/
  m = "Upstream request error: cannot reach Google (connection refused)"%string.

(** What holds of the response of a connection that asked upstream, the
    upstream having delivered the chunks [seen]. *)
Definition relay_inv (seen : list string) (c : Conn) : Prop :=
  readStream c = NoRead /\
  match upstream c with
  | NotAsked => False
  | Asked =>
      seen = [] /\ headersSent (res c) = false /\ sent (res c) = EmptyString /\
      ended (res c) = false
  | Responding =>
      (headersSent (res c) = false -> seen = [] /\ sent (res c) = EmptyString) /\
      ended (res c) = false /\
      (client_gone c = false -> sent (res c) = concat_chunks seen)
  | UpEnded =>
      ended (res c) = true /\
      (client_gone c = false -> sent (res c) = concat_chunks seen)
  | UpFailed =>
      client_gone c = false ->
      (destroyed (res c) = true /\ ended (res c) = false /\
       sent (res c) = concat_chunks seen) \/
      (seen = [] /\ statusCode (res c) = 502%Z /\ ended (res c) = true /\
       assoc "Content-Type" (headers (res c)) = Some "text/plain; charset=utf-8"%string /\
       is_upstream_error_text (sent (res c)))
  end.

Definition glb_request_2 : IncomingMessage :=
  mkReq "GET" "/proxy?url=https%3A%2F%2Ftiles.example%2Fa.glb%3Fsession%3DOTHER".

(** Witness for the files: a miss for a.glb on a disk that holds another
    file. *)
Definition other_file_server : Server :=
  mkServer {[ "tile-cache/other"%string := "kept"%string ]} [].



(** *** A client after a failed refresh *)

(** The refresh [p] has failed with [e] and is still the one
    [_tokenRefreshPromise] holds. *)
Definition wedged (p : nat) (e : string) (w : World) : Prop :=
  _tokenRefreshPromise (auth w) = Some p /\ promises w !! p = Some (Rejected e).

(** [w'] has the client, the promises and the refresh requests of [w]. *)
Definition same_refreshes (w w' : World) : Prop :=
  auth w' = auth w /\ promises w' = promises w /\ refresh_calls w' = refresh_calls w.

(** Witness: the refresh asked by the retry of a first call is answered
    500; a second call then fails and no third refresh is sent. *)
Definition wedged_prefix : list event :=
  [Call tile_url no_options; RefreshSettles 0 (session_reply "s1"); Resume 0;
   DataArrives 0 (status_reply 401)].

Definition wedged_world_0 : World :=
  Eval vm_compute in default (fresh map_client) (run wedged_prefix (fresh map_client)).

Definition wedged_world_1 : World :=
  Eval vm_compute in
    default wedged_world_0 (step (RefreshSettles 1 (status_reply 500)) wedged_world_0).

Definition wedged_world : World :=
  Eval vm_compute in
    default wedged_world_1
      (run [Resume 0; Call tile_url no_options; Resume 1] wedged_world_1).



(** ** Without auto-refresh *)

(** [w'] has the data requests of [w]. *)
Definition same_data (w w' : World) : Prop := forall j, data_calls j w' = data_calls j w.

(** What holds of the calls of a client whose [autoRefreshToken] is off. *)
Record single_inv (w : World) : Prop := {
  single_fetch : fetch_inv false w;
  single_calls : forall i, data_calls i w <= 1
}.

(** What holds of a 3D-tiles client with [autoRefreshToken] off. *)
Definition silent_inv (w : World) : Prop :=
  isMapTilesSession (auth w) = false /\ autoRefreshToken (auth w) = false /\
  promises w = [] /\ refresh_calls w = 0.

(** A 3D-tiles client that answers 4xx twice to one call. *)
Definition quiet_events : list event :=
  [Call root_url no_options; Resume 0; DataArrives 0 (status_reply 403); BodyRead 0;
   Call root_url no_options; Resume 1; DataArrives 1 (NetError "offline")].

Definition quiet_world : World :=
  Eval vm_compute in default (fresh tiles3d_client) (run quiet_events (fresh tiles3d_client)).

(** *** Requests that carry the key *)

(** A URL whose one "key" parameter is the API key of [a]. *)
Definition keyed (a : GoogleCloudAuth) (g : URL) : Prop :=
  wf_URL g /\ searchParams_get "key" g = Some (apiToken a) /\
  params_count "key" (searchParams g) = 1.

(** A request for a keyed URL, sent to it or to the proxy. *)
Definition request_keyed (a : GoogleCloudAuth) (r : Request) : Prop :=
  exists target fetchUrl,
    keyed a target /\ through_proxy a target = Ok fetchUrl /\
    req_url r = URL_toString fetchUrl.

Definition stage_keyed (a : GoogleCloudAuth) (s : stage) : Prop :=
  match s with
  | AwaitData _ g | AwaitRetry g _ => keyed a g
  | _ => True
  end.

Record key_inv (a : GoogleCloudAuth) (w : World) : Prop := {
  key_token : apiToken (auth w) = apiToken a;
  key_proxy : proxyURL (auth w) = proxyURL a;
  key_network : Forall (request_keyed a) (network w);
  key_stages : forall i t, tasks w !! i = Some t -> stage_keyed a (t_stage t)
}.


(** *** URLs that are kept as written *)

(** The URLs on which the generic syntax is all there is to [new URL]:
    http(s) URLs that the parser neither rejects nor rewrites.  The
    scheme is in lower case; the host is an IPv4 address of four decimal
    numbers, or a name of labels of lower-case letters, digits and
    hyphens, the last of which begins with a letter (so it is not read as
    a number) and none of which is in Punycode; the port, if any, is a
    number in decimal without a leading zero, at most 65535 and not the
    default of the scheme; the path and the query have no character the
    parser escapes and no dot segment; there is no fragment. *)
Definition is_label_char (c : ascii) : bool :=
  is_lower c || is_digit c || is_char "-" c.

Definition plain_label (l : string) : bool :=
  negb (String.eqb l EmptyString) && string_forall is_label_char l &&
  negb (starts_with "xn--" l).

(** The number a string of decimal digits writes. *)
Definition decimal (s : string) : N :=
  fold_left (fun n c => (10 * n + (N_of_ascii c - 48))%N) (list_ascii_of_string s) 0%N.

(** A number in decimal, without a leading zero, of [digits] digits at
    most and at most [bound]. *)
Definition plain_number (digits : nat) (bound : N) (s : string) : bool :=
  match s with
  | String c r =>
      (negb (is_char "0" c) || String.eqb r EmptyString) && string_forall is_digit s &&
      (String.length s <=? digits)%nat && (decimal s <=? bound)%N
  | EmptyString => false
  end.

Definition plain_ipv4 (h : string) : bool :=
  match split "." h with
  | [a; b; c; d] => forallb (plain_number 3 255) [a; b; c; d]
  | _ => false
  end.

Definition plain_name (h : string) : bool :=
  forallb plain_label (split "." h) &&
  match last (split "." h) with
  | Some (String c _) => is_lower c
  | _ => false
  end.

Definition plain_hostname (h : string) : bool := plain_ipv4 h || plain_name h.

Definition plain_port (proto port : string) : bool :=
  plain_number 5 65535 port && negb (String.eqb port "0") &&
  negb (String.eqb proto "http:" && (decimal port =? 80)%N) &&
  negb (String.eqb proto "https:" && (decimal port =? 443)%N).

Definition plain_authority (proto a : string) : bool :=
  let '(h, r) := break (is_char ":") a in
  plain_hostname h &&
  match r with
  | EmptyString => true
  | String _ port => plain_port proto port
  end.

Definition is_plain_path_char (c : ascii) : bool :=
  is_alnum c || is_char "-" c || is_char "." c || is_char "_" c || is_char "~" c ||
  is_char "/" c.

Definition plain_path (p : string) : bool :=
  starts_with "/" p && string_forall is_plain_path_char p &&
  forallb (fun seg => negb (String.eqb seg ".") && negb (String.eqb seg ".."))
          (split "/" p).

Definition is_plain_query_char (c : ascii) : bool :=
  is_alnum c || is_char "-" c || is_char "." c || is_char "_" c || is_char "~" c ||
  is_char "*" c || is_char "=" c || is_char "&" c || is_char "+" c.

Definition plain_url (u : URL) : bool :=
  is_http (protocol u) &&
  match host u with
  | Some a => plain_authority (protocol u) a
  | None => false
  end &&
  plain_path (pathname u) &&
  match query u with
  | Some q => string_forall is_plain_query_char q
  | None => true
  end &&
  match fragment u with
  | Some _ => false
  | None => true
  end.

(** An upstream status that [res.statusCode] takes as it is and whose
    response has a body. *)
Definition body_status (st : Z) : bool :=
  (200 <=? st)%Z && (st <=? 999)%Z && negb (st =? 204)%Z && negb (st =? 304)%Z.

(** *** The promise a retry awaits *)









(** *** Misses that overlap *)

(** Two requests for one asset miss the cache, one after the other.  The
    upstream answers the first with the whole body, "glTF", which reaches
    the temporary file; then it answers the second, whose stream opens
    the same temporary file anew and writes the first half of the body;
    then the upstream of the first ends and its stream finishes and
    renames the file.  A third request comes. *)
Definition overlap_events : list server_event :=
  [Incoming glb_request; Incoming glb_request;
   On 0 (UpstreamResponse 200 (Some "model/gltf-binary"%string));
   On 0 (UpstreamData "glTF"); On 0 FileFlushed;
   On 1 (UpstreamResponse 200 (Some "model/gltf-binary"%string));
   On 1 (UpstreamData "gl"); On 1 FileFlushed;
   On 0 UpstreamEnd; On 0 FileFinished; On 0 RenameDone;
   Incoming glb_request; On 2 ReadEnds].

(** * Properties *)

(** ** Strings *)

Lemma append_cons (c : ascii) (a b : string) : String c a +:+ b = String c (a +:+ b).
Proof. reflexivity. Qed.

Lemma append_nil_l (s : string) : EmptyString +:+ s = s.
Proof. reflexivity. Qed.

Lemma append_nil_r (s : string) : s +:+ EmptyString = s.
Proof. induction s as [|c s IH]; [done|]. by rewrite append_cons, IH. Qed.

Lemma append_assoc (a b c : string) : (a +:+ b) +:+ c = a +:+ b +:+ c.
Proof. induction a as [|x a IH]; [done|]. by rewrite !append_cons, IH. Qed.

Lemma length_append (a b : string) :
  String.length (a +:+ b) = String.length a + String.length b.
Proof. induction a as [|x a IH]; [done|]. rewrite append_cons. simpl. lia. Qed.

Lemma break_spec (p : ascii -> bool) (s a b : string) :
  break p s = (a, b) -> s = a +:+ b /\ avoids p a = true /\ stops p b = true.
Proof.
  revert a b. induction s as [|c s IH]; intros a b; simpl.
  - intros [= <- <-]. done.
  - destruct (p c) eqn:Hc.
    + intros [= <- <-]. simpl. by rewrite Hc.
    + destruct (break p s) as [a' b'] eqn:Hb. intros [= <- <-].
      destruct (IH a' b' eq_refl) as (-> & Ha & Hs).
      rewrite append_cons. unfold avoids in *. simpl. by rewrite Hc, Ha.
Qed.

Lemma break_append (p : ascii -> bool) (a b : string) :
  avoids p a = true -> stops p b = true -> break p (a +:+ b) = (a, b).
Proof.
  intros Ha Hb. induction a as [|c a IH].
  - rewrite append_nil_l. destruct b as [|c b]; [done|]. simpl in *. by rewrite Hb.
  - unfold avoids in Ha. simpl in Ha. apply andb_true_iff in Ha as [Hc Ha].
    rewrite append_cons. simpl. apply negb_true_iff in Hc. rewrite Hc.
    by rewrite (IH Ha).
Qed.

Lemma avoids_append (p : ascii -> bool) (a b : string) :
  avoids p (a +:+ b) = avoids p a && avoids p b.
Proof.
  unfold avoids. induction a as [|c a IH]; [done|].
  rewrite append_cons. simpl. by rewrite IH, andb_assoc.
Qed.

Lemma avoids_weaken (p q : ascii -> bool) (s : string) :
  (forall c, q c = true -> p c = true) -> avoids p s = true -> avoids q s = true.
Proof.
  intros Hpq. unfold avoids. induction s as [|c s IH]; [done|]. simpl.
  intros [Hc Hs]%andb_true_iff. rewrite (IH Hs), andb_true_r.
  apply negb_true_iff. apply negb_true_iff in Hc.
  destruct (q c) eqn:Hq; [|done]. by rewrite (Hpq c Hq) in Hc.
Qed.

Lemma after_Some (d : ascii) (s r : string) :
  after d s = Some r <-> s = String d r.
Proof.
  destruct s as [|c s]; simpl; [split; done|].
  destruct (Ascii.eqb_spec c d) as [->|Hne]; split; intros [=]; subst; done.
Qed.

Lemma after_cons (d : ascii) (s : string) : after d (String d s) = Some s.
Proof. by apply after_Some. Qed.

Lemma endsWith_unfold (s suffix : string) :
  endsWith s suffix =
  String.eqb s suffix ||
  match s with
  | EmptyString => false
  | String _ s' => endsWith s' suffix
  end.
Proof. by destruct s. Qed.

Lemma endsWith_spec (s suffix : string) :
  endsWith s suffix = true <-> exists a, s = a +:+ suffix.
Proof.
  induction s as [|c s IH]; rewrite endsWith_unfold.
  - rewrite orb_false_r, String.eqb_eq. split.
    + intros <-. by exists EmptyString.
    + intros [[|x a] Ha]; [|done]. by rewrite append_nil_l in Ha.
  - rewrite orb_true_iff, IH, String.eqb_eq. split.
    + intros [<-|[a ->]]; [by exists EmptyString | by exists (String c a)].
    + intros [[|x a] Ha].
      * left. by rewrite append_nil_l in Ha.
      * right. rewrite append_cons in Ha. injection Ha as -> ->. by exists a.
Qed.

Lemma endsWith_append (a s suffix : string) :
  endsWith s suffix = true -> endsWith (a +:+ s) suffix = true.
Proof.
  rewrite !endsWith_spec. intros [b ->]. exists (a +:+ b). by rewrite append_assoc.
Qed.

Lemma last_char_eq (a b : string) (x y : ascii) :
  a +:+ String x EmptyString = b +:+ String y EmptyString -> x = y.
Proof.
  revert b. induction a as [|c a IH]; intros [|d b]; rewrite ?append_cons, ?append_nil_l.
  - by intros [= ->].
  - intros [= _ H]. destruct b; discriminate H.
  - intros [= _ H]. destruct a; discriminate H.
  - intros [= _ H]. by apply (IH b).
Qed.

(** No string ends both in ".glb" and in ".json". *)
Lemma glb_not_json (s : string) :
  endsWith s ".glb" = true -> endsWith s ".json" = true -> False.
Proof.
  rewrite !endsWith_spec. intros [a Ha] [b Hb]. subst s.
  change ".glb"%string with (".gl" +:+ String "b" EmptyString) in Hb.
  change ".json"%string with (".jso" +:+ String "n" EmptyString) in Hb.
  rewrite <- !append_assoc in Hb. by apply last_char_eq in Hb.
Qed.

(** ** Examples *)

Example new_URL_example :
  new_URL "https://tiles.example/root.json?key=K&session=S" =
  Some (mkURL "https:" (Some "tiles.example"%string) "/root.json"
              (Some "key=K&session=S"%string) None
              [("key", "K"); ("session", "S")]%string).
Proof. reflexivity. Qed.

Example new_URL_invalid : new_URL "notaurl" = None.
Proof. reflexivity. Qed.

Example searchParams_delete_example :
  URL_toString <$>
    (searchParams_delete "session" <$>
      (searchParams_delete "key" <$>
        new_URL "https://tiles.example/a.glb?key=K&x=1&session=S"))
  = Some "https://tiles.example/a.glb?x=1"%string.
Proof. reflexivity. Qed.

Example getSessionToken_2d :
  getSessionToken (JObj [("session"%string, JStr "abc")]) = Ok (JStr "abc").
Proof. reflexivity. Qed.

Example getSessionToken_3d :
  getSessionToken
    (JObj [("root"%string,
            plain_tile [plain_tile []; content_tile "mesh.glb?session=xyz&other=1" []])])
  = Ok (JStr "xyz").
Proof. reflexivity. Qed.

Example getSessionToken_none :
  getSessionToken (JObj [("root"%string, plain_tile [plain_tile []])]) = Ok JNull.
Proof. reflexivity. Qed.

(** ** URLs *)

Lemma scheme_char_not_colon (c : ascii) :
  is_scheme_char c = true -> is_char ":" c = false.
Proof. by destruct c as [[] [] [] [] [] [] [] []]. Qed.

Lemma valid_scheme_avoids_colon (s : string) :
  valid_scheme s = true -> avoids (is_char ":") s = true.
Proof.
  destruct s as [|c s]; [done|]. simpl. intros [Hc Hs]%andb_true_iff.
  unfold avoids. simpl. apply andb_true_iff. split.
  - apply negb_true_iff, scheme_char_not_colon.
    unfold is_scheme_char, is_alnum. by rewrite Hc.
  - induction s as [|d s IH]; [done|]. simpl in *.
    apply andb_true_iff in Hs as [Hd Hs].
    by rewrite (scheme_char_not_colon d Hd), (IH Hs).
Qed.

Lemma new_URL_wf (s : string) (u : URL) : new_URL s = Some u -> wf_URL u.
Proof.
  unfold new_URL.
  destruct (break (is_char ":") s) as [scheme r0] eqn:H0.
  destruct (after ":" r0) as [r1|] eqn:H1; [|done].
  destruct (valid_scheme scheme) eqn:Hv; [|done].
  set (ar := match after "/" r1 ≫= after "/" with Some r => _ | None => _ end).
  destruct ar as [auth r2] eqn:Har. subst ar.
  destruct (break is_path_end r2) as [path r3] eqn:H3.
  set (qr := match after "?" r3 with Some r => _ | None => _ end).
  destruct qr as [q r4] eqn:Hqr. subst qr.
  intros [= <-].
  apply break_spec in H3 as (Hr2 & Hpath & Hr3).
  split; simpl.
  - by exists scheme.
  - destruct (after "/" r1 ≫= after "/") as [r|] eqn:Hss.
    + destruct (break is_authority_end r) as [a r'] eqn:Ha.
      injection Har as <- <-.
      apply break_spec in Ha as (-> & Ha & Hr').
      split; [done|].
      destruct (_ && _); [done|]. subst r'.
      destruct path as [|c path]; [done|].
      rewrite append_cons in Hr'. simpl in *.
      unfold avoids in Hpath. simpl in Hpath.
      unfold is_authority_end in Hr'. unfold is_path_end in Hpath.
      destruct (is_char "/" c); [done|]. simpl in *.
      destruct (is_char "?" c || is_char "#" c); done.
    + injection Har as <- <-.
      destruct (_ && _); [done|]. subst r1.
      destruct path as [|c path]; [done|].
      rewrite append_cons in Hss. simpl in *.
      destruct (Ascii.eqb c "/"); [|done]. simpl in *.
      destruct path as [|d path]; [done|].
      rewrite append_cons in Hss. simpl in *.
      by destruct (Ascii.eqb d "/").
  - destruct (is_http (scheme +:+ ":") && String.eqb path EmptyString); [reflexivity|done].
  - intros Hh. rewrite Hh. simpl. by destruct (String.eqb_spec path EmptyString).
  - destruct (after "?" r3) as [r|] eqn:Hq.
    + destruct (break (is_char "#") r) as [q' r'] eqn:Hb. injection Hqr as <- <-.
      by apply break_spec in Hb as (_ & ? & _).
    + by injection Hqr as <- <-.
  - done.
Qed.

Lemma URL_toString_parts (u : URL) :
  URL_toString u =
  origin_part u +:+ pathname u +:+ query_part (query u) +:+ fragment_part (fragment u).
Proof. unfold URL_toString, origin_part. by rewrite append_assoc. Qed.

Lemma tail_stops (q f : option string) :
  stops is_path_end (query_part q +:+ fragment_part f) = true.
Proof. by destruct q, f. Qed.

Lemma stops_authority_end (s : string) :
  stops is_path_end s = true -> stops is_authority_end s = true.
Proof.
  destruct s as [|c s]; [done|]. unfold stops, is_authority_end, is_path_end.
  intros [-> | ->]%orb_true_iff; by rewrite ?orb_true_r.
Qed.

Lemma stops_no_slash (s : string) :
  stops is_path_end s = true -> after "/" s = None.
Proof.
  destruct s as [|c s]; [done|]. unfold stops, is_path_end, is_char, after.
  destruct (Ascii.eqb_spec c "?") as [->|]; [done|].
  destruct (Ascii.eqb_spec c "#") as [->|]; done.
Qed.

Lemma new_URL_toString (u : URL) : wf_URL u -> new_URL (URL_toString u) = Some u.
Proof.
  intros [(scheme & Hp & Hv) Hh Hpath Hhttp Hq Hps].
  destruct u as [proto h path q f ps]. simpl in *. subst proto.
  unfold new_URL, URL_toString. simpl.
  rewrite append_assoc.
  rewrite (break_append _ scheme); [|by apply valid_scheme_avoids_colon|done].
  rewrite append_cons, append_nil_l, after_cons, Hv.
  fold (query_part q) (fragment_part f).
  pose proof (tail_stops q f) as Htail.
  set (tail := query_part q +:+ fragment_part f) in *.
  assert (Hpt : break is_path_end (path +:+ tail) = (path, tail))
    by by apply break_append.
  assert (Hqf :
    match after "?" tail with
    | Some r => let '(q, r') := break (is_char "#") r in (Some q, r')
    | None => (None, tail)
    end = (q, fragment_part f)).
  { subst tail. destruct q as [q|]; unfold query_part.
    - rewrite append_assoc, append_cons, append_nil_l, after_cons.
      rewrite break_append; [done|done|by destruct f].
    - rewrite append_nil_l. by destruct f. }
  assert (Hf : after "#" (fragment_part f) = f) by by destruct f.
  assert (Hn : (if is_http (scheme +:+ ":") && String.eqb path EmptyString then "/"%string else path)
               = path).
  { destruct (is_http (scheme +:+ ":")); [|done]. simpl.
    destruct (String.eqb_spec path EmptyString); [|done]. by destruct Hhttp. }
  destruct h as [a|].
  - destruct Hh as [Ha Hs].
    rewrite append_assoc, !append_cons, append_nil_l, after_cons. simpl.
    rewrite ?after_cons.
    rewrite (break_append _ a); [|done|].
    + by rewrite Hpt, Hqf, Hf, Hn, Hps.
    + destruct path as [|c path].
      * rewrite append_nil_l. by apply stops_authority_end.
      * rewrite append_cons. simpl in *. unfold is_authority_end. by rewrite Hs.
  - rewrite append_nil_l.
    assert (Hno : after "/" (path +:+ tail) ≫= after "/" = None).
    { destruct path as [|c path].
      - rewrite append_nil_l. by rewrite stops_no_slash.
      - rewrite append_cons. simpl in *. destruct (Ascii.eqb c "/"); [|done]. simpl in *.
        destruct path as [|d path].
        + rewrite append_nil_l. by apply stops_no_slash.
        + rewrite append_cons. simpl in *. by destruct (Ascii.eqb d "/"). }
    rewrite Hno. by rewrite Hpt, Hqf, Hf, Hn, Hps.
Qed.

Lemma new_URL_idempotent (s : string) (u : URL) :
  new_URL s = Some u -> new_URL (URL_toString u) = Some u.
Proof. intros H. by apply new_URL_toString, (new_URL_wf s). Qed.

Lemma cache_key_parsed (s : string) (t : URL) :
  new_URL s = Some t -> cache_key t = Ok (URL_toString (normalized t)).
Proof.
  intros Hs. unfold cache_key, parse_URL. by rewrite (new_URL_idempotent s t Hs).
Qed.

Lemma normalized_same_asset (t1 t2 : URL) :
  same_asset t1 t2 -> normalized t1 = normalized t2.
Proof.
  intros (Hp & Hh & Hpa & Hf & Hl).
  unfold normalized, searchParams_delete, update_query. simpl.
  unfold strip_credentials in Hl. by rewrite Hp, Hh, Hpa, Hf, Hl.
Qed.

Lemma scheme_char_not_path_end (c : ascii) :
  is_scheme_char c = true -> is_path_end c = false.
Proof. by destruct c as [[] [] [] [] [] [] [] []]. Qed.

Lemma valid_scheme_avoids_path_end (s : string) :
  valid_scheme s = true -> avoids is_path_end s = true.
Proof.
  destruct s as [|c s]; [done|]. simpl. intros [Hc Hs]%andb_true_iff.
  unfold avoids. simpl. apply andb_true_iff. split.
  - apply negb_true_iff, scheme_char_not_path_end.
    unfold is_scheme_char, is_alnum. by rewrite Hc.
  - induction s as [|d s IH]; [done|]. simpl in *.
    apply andb_true_iff in Hs as [Hd Hs].
    by rewrite (scheme_char_not_path_end d Hd), (IH Hs).
Qed.

Lemma origin_avoids_path_end (u : URL) :
  wf_URL u -> avoids is_path_end (origin_part u +:+ pathname u) = true.
Proof.
  intros [(scheme & Hp & Hv) Hh Hpath _ _ _]. unfold origin_part.
  rewrite Hp, !avoids_append, Hpath, (valid_scheme_avoids_path_end _ Hv).
  destruct (host u) as [h|]; [|done].
  destruct Hh as [Hh _]. rewrite avoids_append.
  rewrite (avoids_weaken is_authority_end is_path_end h); [done| |done].
  intros c. unfold is_authority_end, is_path_end.
  intros [-> | ->]%orb_true_iff; by rewrite ?orb_true_r.
Qed.

(** What [URL_toString] yields in front of the first "?" or "#". *)
Lemma break_URL_toString (u : URL) :
  wf_URL u ->
  fst (break is_path_end (URL_toString u)) = origin_part u +:+ pathname u.
Proof.
  intros Hwf. rewrite URL_toString_parts, <- append_assoc.
  rewrite break_append; [done|by apply origin_avoids_path_end|apply tail_stops].
Qed.

Lemma normalized_wf (u : URL) :
  wf_URL u ->
  avoids is_path_end (origin_part (normalized u) +:+ pathname (normalized u)) = true.
Proof. intros Hwf. by apply (origin_avoids_path_end u). Qed.

Section cache_keys.
Context `{Platform}.

(** C6. Two cacheable upstream URLs that differ at most in the values or
    the presence of their "key" and "session" parameters get the same
    string hashed, hence the same cache file. *)
Theorem cache_key_ignores_credentials (s1 s2 : string) (t1 t2 : URL) :
  new_URL s1 = Some t1 -> new_URL s2 = Some t2 ->
  cacheable t1 = true -> same_asset t1 t2 ->
  exists k, hashed_string t1 = Ok (Some k) /\ hashed_string t2 = Ok (Some k) /\
            cache_path t1 = Ok (Some (urlToCachePath k)) /\
            cache_path t2 = Ok (Some (urlToCachePath k)).
Proof.
  intros H1 H2 Hc Hsame.
  assert (Hk : hashed_string t1 = hashed_string t2).
  { unfold hashed_string.
    rewrite (cache_key_parsed s1 t1 H1), (cache_key_parsed s2 t2 H2).
    rewrite (normalized_same_asset t1 t2 Hsame).
    by destruct Hsame as (_ & _ & -> & _). }
  unfold cache_path. rewrite <- Hk.
  unfold hashed_string in *. rewrite (cache_key_parsed s1 t1 H1) in *.
  unfold cacheable in Hc.
  destruct (endsWith (pathname t1) ".glb"); simpl; [by eexists|].
  destruct (endsWith (pathname t1) ".json"); simpl; [by eexists|done].
Qed.
End cache_keys.

(** Witness of C6: two URLs of one asset under different keys and
    sessions. *)
Lemma cache_key_ignores_credentials_witness :
  exists k,
    hashed_string (parsed glb_url_1) = Ok (Some k) /\
    hashed_string (parsed glb_url_2) = Ok (Some k) /\
    cache_path (H := example_platform) (parsed glb_url_1) =
      Ok (Some (urlToCachePath (H := example_platform) k)) /\
    cache_path (H := example_platform) (parsed glb_url_2) =
      Ok (Some (urlToCachePath (H := example_platform) k)).
Proof.
  apply (cache_key_ignores_credentials (H := example_platform) glb_url_1 glb_url_2).
  - reflexivity.
  - reflexivity.
  - reflexivity.
  - repeat split.
Defined.

(** C7. The string hashed for a manifest (a path in ".json") is "json:"
    followed by its normalized URL, and it is never the string hashed
    for a binary asset (a path in ".glb"), which is its normalized URL:
    the two cache keys are digests of different strings. *)
Theorem glb_and_json_keys_differ (s1 s2 : string) (tg tj : URL) :
  new_URL s1 = Some tg -> new_URL s2 = Some tj ->
  endsWith (pathname tg) ".glb" = true ->
  endsWith (pathname tj) ".json" = true ->
  exists kg kj,
    cache_key tg = Ok kg /\ cache_key tj = Ok kj /\
    hashed_string tg = Ok (Some kg) /\
    hashed_string tj = Ok (Some ("json:" +:+ kj)) /\
    kg <> "json:" +:+ kj.
Proof.
  intros Hg Hj Eg Ej.
  assert (Ej' : endsWith (pathname tj) ".glb" = false).
  { destruct (endsWith (pathname tj) ".glb") eqn:E; [|done].
    destruct (glb_not_json _ E Ej). }
  exists (URL_toString (normalized tg)), (URL_toString (normalized tj)).
  unfold hashed_string.
  rewrite (cache_key_parsed s1 tg Hg), (cache_key_parsed s2 tj Hj), Eg, Ej', Ej.
  do 4 (split; [done|]).
  intros Heq.
  apply new_URL_wf in Hg, Hj.
  assert (Hb : fst (break is_path_end (URL_toString (normalized tg))) =
               fst (break is_path_end ("json:" +:+ URL_toString (normalized tj))))
    by by rewrite Heq.
  rewrite !URL_toString_parts in Hb.
  rewrite <- (append_assoc (origin_part _) (pathname _)) in Hb.
  rewrite <- (append_assoc (origin_part (normalized tj))) in Hb.
  rewrite <- (append_assoc "json:") in Hb.
  rewrite (break_append _ (origin_part (normalized tg) +:+ _)) in Hb;
    [|by apply (normalized_wf tg)|apply tail_stops].
  rewrite (break_append _ ("json:" +:+ _)) in Hb;
    [|by rewrite avoids_append, (normalized_wf tj Hj)|apply tail_stops].
  simpl in Hb.
  apply (glb_not_json (origin_part (normalized tg) +:+ pathname tg)).
  - by apply endsWith_append.
  - rewrite Hb. by do 2 apply endsWith_append.
Qed.

(** Witness of C7: a binary asset and a manifest of the same host. *)
Lemma glb_and_json_keys_differ_witness :
  exists kg kj,
    cache_key (parsed "https://tiles.example/a.glb") = Ok kg /\
    cache_key (parsed "https://tiles.example/a.json") = Ok kj /\
    hashed_string (parsed "https://tiles.example/a.glb") = Ok (Some kg) /\
    hashed_string (parsed "https://tiles.example/a.json") = Ok (Some ("json:" +:+ kj)) /\
    kg <> "json:" +:+ kj.
Proof.
  apply (glb_and_json_keys_differ "https://tiles.example/a.glb"
           "https://tiles.example/a.json"); reflexivity.
Defined.

(** ** Token extraction *)

Section walk.
Context {S : Type}.
Variable beforeCb : option json -> S -> result (bool * S).

Lemma traverse_tile_unfold (tile : json) (s : S) :
  traverse_tile beforeCb tile s =
  match beforeCb (Some tile) s with
  | Throw e => Throw e
  | Ok (true, s') => Ok (true, s')
  | Ok (false, s') => traverse_children beforeCb (tile_children tile) s'
  end.
Proof.
  destruct tile as [| | | |l|fs]; simpl;
    try (by destruct (beforeCb _ s) as [[[] s']|e]).
  destruct (beforeCb _ s) as [[[] s']|e]; [done| |done].
  induction fs as [|[k v] fs IH]; [done|]. simpl.
  destruct (String.eqb k "children"); [|done].
  by destruct v.
Qed.
End walk.

Lemma preorder_unfold (tile : json) :
  preorder tile = tile :: flat_map preorder (tile_children tile).
Proof.
  destruct tile as [| | | |l|fs]; simpl; try done. f_equal.
  induction fs as [|[k v] fs IH]; [done|]. simpl.
  destruct (String.eqb k "children"); [|done].
  by destruct v.
Qed.

Lemma token_callback_cases (tile : json) (s : json) :
  tile_ok tile ->
  token_callback (Some tile) s =
  match content_uri tile with
  | Some u => Ok (true, token_of_uri u)
  | None => Ok (false, s)
  end.
Proof.
  intros [r Hr]. revert Hr. unfold token_callback, content_uri.
  destruct tile as [| | | |l|fs]; try done. cbn [get_prop bind].
  destruct (assoc "content" fs) as [[|[]|n|str|l|cfs]|]; cbn [truthy get_prop bind];
    try done.
  - by destruct (negb (n =? 0)%Z).
  - by destruct (negb (String.eqb str EmptyString)).
  - destruct (assoc "uri" cfs) as [[|[]|n|[|c u]|l|cfs']|]; cbn [truthy]; try done.
    by destruct (negb (n =? 0)%Z).
Qed.

Lemma first_content_uri_app (l1 l2 : list json) :
  first_content_uri (l1 ++ l2) =
  match first_content_uri l1 with
  | Some u => Some u
  | None => first_content_uri l2
  end.
Proof.
  unfold first_content_uri. rewrite omap_app.
  by destruct (omap content_uri l1).
Qed.

Lemma traverse_tile_first (tile : json) :
  forall s, Forall tile_ok (preorder tile) ->
  traverse_tile token_callback tile s =
  Ok (match first_content_uri (preorder tile) with
      | Some u => (true, token_of_uri u)
      | None => (false, s)
      end).
Proof.
  induction tile as [tile IH] using tile_ind. intros s Hok.
  rewrite traverse_tile_unfold. rewrite preorder_unfold in Hok |- *.
  apply Forall_cons in Hok as [Htile Hrest].
  rewrite (token_callback_cases tile s Htile).
  unfold first_content_uri. cbn [omap list_omap].
  destruct (content_uri tile) as [u|]; [done|]. cbn [head].
  fold (first_content_uri (flat_map preorder (tile_children tile))).
  revert s Hrest.
  induction IH as [|c l Hc _ IHl]; intros s Hrest; [done|].
  cbn [flat_map traverse_children] in *.
  apply Forall_app in Hrest as [Hc' Hl'].
  rewrite (Hc s Hc'), first_content_uri_app.
  destruct (first_content_uri (preorder c)); [done|]. by apply IHl.
Qed.

(** C4, as stated, fails: the walk stops at the first tile that has a
    content URI, also when that URI has no "session" parameter.  Here the
    root's URI has none and its child's has one; no token is found. *)
Lemma first_uri_without_session :
  getSessionToken
    (JObj [("root"%string,
            content_tile "a.glb" [content_tile "b.glb?session=xyz" []])])
  = Ok JNull.
Proof. reflexivity. Qed.

(** C4, amended. A JSON object with a "session" field yields that field's
    value ("abc" for the object with session "abc").  Without one, the
    tree under its "root" is walked, a tile before its children, and the
    walk stops at the first tile that has a content URI: the token is the
    "session" parameter of that URI ("xyz" for mesh.glb?session=xyz&other=1),
    or null when the URI has none; a manifest without content URIs yields
    null, and no error. *)
Theorem getSessionToken_first_content_uri :
  (forall fs v, assoc "session" fs = Some v -> getSessionToken (JObj fs) = Ok v) /\
  (forall fs root,
      assoc "session" fs = None -> assoc "root" fs = Some root ->
      Forall tile_ok (preorder root) ->
      getSessionToken (JObj fs) =
      Ok (match first_content_uri (preorder root) with
          | Some uri => token_of_uri uri
          | None => JNull
          end)) /\
  getSessionToken (JObj [("session"%string, JStr "abc")]) = Ok (JStr "abc") /\
  token_of_uri "mesh.glb?session=xyz&other=1" = JStr "xyz" /\
  token_of_uri "a.glb" = JNull.
Proof.
  split; [|split; [|by repeat split]].
  - intros fs v Hv. unfold getSessionToken. cbn [has_prop bind get_prop].
    rewrite Hv. rewrite bool_decide_eq_true_2 by by eexists. done.
  - intros fs root Hn Hr Hok. unfold getSessionToken. cbn [has_prop bind get_prop].
    rewrite Hn, Hr. rewrite bool_decide_eq_false_2 by by intros [? ?].
    unfold traverseSet. rewrite (traverse_tile_first root JNull Hok). cbn [bind].
    by destruct (first_content_uri (preorder root)).
Qed.

(** Witness of C4: the manifest of the spec's example. *)
Lemma getSessionToken_first_content_uri_witness :
  getSessionToken (JObj [("root"%string, example_root)]) = Ok (JStr "xyz").
Proof.
  apply (proj1 (proj2 getSessionToken_first_content_uri)
           [("root"%string, example_root)] example_root).
  - reflexivity.
  - reflexivity.
  - repeat constructor; by eexists.
Defined.

(** ** The session-auth client *)




Lemma refreshToken_in_flight (options : FetchOptions) (w : World) (p : nat) :
  _tokenRefreshPromise (auth w) = Some p -> refreshToken options w = Ok (w, p).
Proof. intros Hp. unfold refreshToken. by rewrite Hp. Qed.

Lemma refresh_calls_app (w : World) (r : Request) (a : GoogleCloudAuth)
    (ps : list promise_state) (ts : list task) :
  refresh_calls (mkWorld a ps ts (network w ++ [r])) =
  refresh_calls w + (if is_refresh r then 1 else 0).
Proof.
  unfold refresh_calls. simpl. rewrite List.filter_app, length_app. simpl.
  by destruct (is_refresh r).
Qed.






Lemma set_stage_updates (i : nat) (s : stage) (t : task) (w : World) :
  tasks w !! i = Some t -> updates i (with_stage s t) 0 w (set_stage i s w).
Proof.
  intros Ht. unfold set_stage. rewrite Ht.
  split; simpl; try done; unfold data_calls; simpl; lia.
Qed.

Lemma add_response_updates (i : nat) (res : Response) (t : task) (w : World) :
  tasks w !! i = Some t -> updates i (with_response res t) 0 w (add_response i res w).
Proof.
  intros Ht. unfold add_response. rewrite Ht.
  split; simpl; try done; unfold data_calls; simpl; lia.
Qed.

Lemma updates_lookup (i : nat) (t t' : task) (k : nat) (w w' : World) :
  tasks w !! i = Some t -> updates i t' k w w' -> tasks w' !! i = Some t'.
Proof.
  intros Ht [-> _ _ _]. apply list_lookup_insert_eq. by apply lookup_lt_Some in Ht.
Qed.

Lemma updates_trans (i : nat) (t1 t2 : task) (k1 k2 : nat) (w w1 w2 : World) :
  updates i t1 k1 w w1 -> updates i t2 k2 w1 w2 -> updates i t2 (k1 + k2) w w2.
Proof.
  intros [Ht1 Ha1 Hc1 Ho1] [Ht2 Ha2 Hc2 Ho2]. split.
  - by rewrite Ht2, Ht1, list_insert_insert_eq.
  - congruence.
  - lia.
  - intros j Hj. by rewrite Ho2, Ho1.
Qed.

Lemma data_calls_send (j : nat) (r : Request) (w : World) :
  data_calls j (send r w) = data_calls j w + (if is_data_of j r then 1 else 0).
Proof.
  unfold data_calls, send. cbn [network]. rewrite List.filter_app, length_app.
  cbn [List.filter]. by destruct (is_data_of j r).
Qed.

Lemma send_updates (i : nat) (t : task) (url : string) (o : FetchOptions) (w : World) :
  tasks w !! i = Some t ->
  updates i t 1 w (send (mkRequest (DataCall i) url o) w).
Proof.
  intros Ht. split.
  - cbn [send tasks]. by rewrite list_insert_id.
  - done.
  - rewrite data_calls_send. unfold is_data_of. cbn [req_site]. by rewrite Nat.eqb_refl.
  - intros j Hj. rewrite data_calls_send. unfold is_data_of. cbn [req_site].
    apply Nat.eqb_neq in Hj. rewrite Hj. lia.
Qed.

Lemma fail_updates (i : nat) (e : string) (t : task) (w : World) :
  tasks w !! i = Some t -> updates i (with_stage (Done (Failed e)) t) 0 w (fail i e w).
Proof. apply set_stage_updates. Qed.

Lemma send_data_updates (i : nat) (retried : bool) (g : URL) (t : task) (w : World) :
  tasks w !! i = Some t ->
  (exists e, send_data i retried (t_options t) g w = fail i e w) \/
  updates i (with_stage (AwaitData retried g) t) 1 w
          (send_data i retried (t_options t) g w).
Proof.
  intros Ht. unfold send_data. destruct (through_proxy (auth w) g) as [u|e].
  - right. eapply (updates_trans _ _ _ 1 0); [by apply send_updates|].
    apply set_stage_updates.
    eapply updates_lookup; [done|by apply send_updates].
  - left. by exists e.
Qed.

Lemma refreshToken_keeps (o : FetchOptions) (w w' : World) (p : nat) :
  refreshToken o w = Ok (w', p) ->
  tasks w' = tasks w /\
  autoRefreshToken (auth w') = autoRefreshToken (auth w) /\
  forall j, data_calls j w' = data_calls j w.
Proof.
  unfold refreshToken. destruct (_tokenRefreshPromise (auth w)) as [q|].
  - by intros [= <- <-].
  - destruct (parse_URL (authURL (auth w))) as [u|e]; [|done]. cbn [bind].
    destruct (through_proxy _ _) as [v|e]; [|done]. cbn [bind].
    intros [= <- <-]. simpl. repeat split.
    intros j. unfold data_calls. simpl. rewrite List.filter_app, length_app. simpl. lia.
Qed.

Lemma refreshToken_updates (i : nat) (o : FetchOptions) (t : task) (w w' : World) (p : nat) :
  tasks w !! i = Some t -> refreshToken o w = Ok (w', p) -> updates i t 0 w w'.
Proof.
  intros Ht (Hts & Ha & Hc)%refreshToken_keeps. split.
  - by rewrite Hts, list_insert_id.
  - done.
  - rewrite Hc. lia.
  - intros j _. apply Hc.
Qed.

Lemma fetch_inv_updates (ar : bool) (i : nat) (t t' : task) (k : nat) (w w' : World) :
  fetch_inv ar w -> tasks w !! i = Some t -> updates i t' k w w' ->
  task_inv ar (data_calls i w + k) t' -> fetch_inv ar w'.
Proof.
  intros [Ha Hts Hf] Ht [Ut Ua Uc Uo] Hinv.
  pose proof (lookup_lt_Some _ _ _ Ht) as Hlt. split.
  - congruence.
  - intros j tj. rewrite Ut. destruct (decide (j = i)) as [->|Hne].
    + rewrite list_lookup_insert_eq by done. intros [= <-]. by rewrite Uc.
    + rewrite list_lookup_insert_ne by done. rewrite (Uo j Hne). apply Hts.
  - intros j. rewrite Ut, length_insert. intros Hj.
    rewrite Uo by lia. by apply Hf.
Qed.

Lemma fetch_inv_fresh (a : GoogleCloudAuth) : fetch_inv (autoRefreshToken a) (fresh a).
Proof. split; [done| |done]. intros i t. simpl. by destruct i. Qed.

Lemma fetch_inv_call (ar : bool) (url : string) (o : FetchOptions) (w : World) :
  fetch_inv ar w -> fetch_inv ar (call_fetch url o w).
Proof.
  intros Hinv.
  assert (Hstart : forall (w1 : World) (s : stage),
    tasks w1 = tasks w -> autoRefreshToken (auth w1) = autoRefreshToken (auth w) ->
    (forall j, data_calls j w1 = data_calls j w) ->
    (forall p, s <> AwaitData false p) -> (forall p, s <> AwaitData true p) ->
    (forall g p, s <> AwaitRetry g p) -> (forall r, s <> ReadBody r) ->
    (forall r, s <> Done (Returned r)) -> (forall j, s <> Done (ReturnedJson j)) ->
    fetch_inv ar (mkWorld (auth w1) (promises w1)
                    (tasks w1 ++ [mkTask url o s []]) (network w1))).
  { intros w1 s Hts Ha Hc N1 N2 N3 N4 N5 N6. destruct Hinv as [Hauto Htasks Hfresh].
    split; simpl.
    - congruence.
    - intros i t Hi. change (data_calls i _) with (data_calls i w1). rewrite Hc.
      rewrite Hts in Hi. apply lookup_app_Some in Hi as [Hi|[Hlen Hi]].
      + by apply Htasks.
      + rewrite (Hfresh i Hlen).
        destruct (i - length (tasks w)) as [|k] eqn:Hk; [|by destruct k].
        injection Hi as <-. unfold task_inv. simpl.
        destruct s as [p|[] g|g p|r|[r|j|e]]; try done; try (by edestruct N1);
          try (by edestruct N2); try (by edestruct N3); try (by edestruct N4);
          try (by edestruct N5); try (by edestruct N6).
        split; [lia|]. intros r1 rest. done.
    - intros i. rewrite length_app. simpl. intros Hi.
      change (data_calls i _) with (data_calls i w1). rewrite Hc.
      apply Hfresh. rewrite Hts in Hi. lia. }
  unfold call_fetch.
  destruct (sessionToken (auth w)); try (by apply Hstart).
  destruct (isMapTilesSession (auth w)); [|by apply Hstart].
  destruct (refreshToken o w) as [[w1 p]|e] eqn:Hr; [|by apply Hstart].
  apply refreshToken_keeps in Hr as (Hts & Ha & Hc). by apply Hstart.
Qed.

Lemma fetch_inv_settles (ar : bool) (p : nat) (r : net_result) (w w' : World) :
  fetch_inv ar w -> refresh_settles p r w = Some w' -> fetch_inv ar w'.
Proof.
  intros [Ha Hts Hf]. unfold refresh_settles.
  destruct (promises w !! p) as [[| |]|]; try done.
  destruct (refresh_then r (auth w)) as [s a] eqn:Hthen. intros [= <-].
  assert (autoRefreshToken a = autoRefreshToken (auth w)) as Hauto.
  { unfold refresh_then in Hthen.
    destruct r as [e|res]; [by injection Hthen as _ <-|].
    destruct (ok res); [|by injection Hthen as _ <-].
    destruct (body res) as [j|]; [|by injection Hthen as _ <-].
    destruct (getSessionToken j); by injection Hthen as _ <-. }
  split; simpl; [congruence|apply Hts|apply Hf].
Qed.

Lemma fetch_inv_resume (ar : bool) (i : nat) (w w' : World) :
  fetch_inv ar w -> resume i w = Some w' -> fetch_inv ar w'.
Proof.
  intros Hinv. unfold resume.
  destruct (tasks w !! i) as [t|] eqn:Ht; [|done]. simpl.
  pose proof (inv_tasks _ _ Hinv i t Ht) as Hti. unfold task_inv in Hti.
  assert (Hfail : forall e, fetch_inv ar (fail i e w)).
  { intros e. eapply fetch_inv_updates; [done|done|by apply fail_updates|].
    unfold task_inv. simpl. rewrite Nat.add_0_r. revert Hti.
    destruct (t_stage t) as [p|[] g|g p|r|[r|j|e']]; intros Hti; try done;
      unfold settled in Hti; destruct_and?; repeat destruct_or?; destruct_and?;
      repeat match goal with H : exists _, _ |- _ => destruct H end; destruct_and?;
      repeat destruct_or?; destruct_and?;
      repeat match goal with H : exists _, _ |- _ => destruct H end; destruct_and?;
      repeat match goal with
             | H : data_calls _ _ = _ |- _ => rewrite H; clear H
             | H : t_responses _ = _ |- _ => rewrite H; clear H
             end;
      (split; [lia|]); intros ?? [= <- <-] ?; try done; congruence. }
  assert (Hsend : forall retried g,
    task_inv ar (data_calls i w + 1) (with_stage (AwaitData retried g) t) ->
    fetch_inv ar (send_data i retried (t_options t) g w)).
  { intros retried g Hnew.
    destruct (send_data_updates i retried g t w Ht) as [[e ->]|Hu]; [apply Hfail|].
    by eapply fetch_inv_updates. }
  revert Hti.
  destruct (t_stage t) as [p|[] g|g p|r|[r|j|e']] eqn:Hs; intros Hti; try done.
  - destruct Hti as [Hn Hrs].
    assert (Hcont : fetch_inv ar
      match parse_URL (t_url t) with
      | Ok googleUrl =>
          send_data i false (t_options t)
            (apply_token (auth w) (searchParams_set "key" (apiToken (auth w)) googleUrl)) w
      | Throw e => fail i e w
      end).
    { destruct (parse_URL (t_url t)); [|apply Hfail].
      apply Hsend. unfold task_inv. simpl. split; [lia|done]. }
    destruct p as [p|]; [|by intros [= <-]].
    destruct (promises w !! p) as [[| |]|]; try done; intros [= <-]; [done|apply Hfail].
  - destruct Hti as (Hn & r1 & Hrs & Hr).
    destruct (promises w !! p) as [[| |]|]; try done; intros [= <-]; [|apply Hfail].
    apply Hsend. unfold task_inv. simpl. split; [lia|]. by exists r1.
Qed.

Lemma finish_updates (i : nat) (res : Response) (t : task) (w : World) :
  tasks w !! i = Some t ->
  exists s, (s = ReadBody res \/ s = Done (Returned res)) /\
            updates i (with_stage s t) 0 w (finish i res w).
Proof.
  intros Ht. unfold finish.
  destruct (sessionToken (auth w)); try destruct (isMapTilesSession (auth w));
    eexists; (split; [|by apply set_stage_updates]); auto.
Qed.

Lemma fetch_inv_data_arrives (ar : bool) (i : nat) (r : net_result) (w w' : World) :
  fetch_inv ar w -> data_arrives i r w = Some w' -> fetch_inv ar w'.
Proof.
  intros Hinv. unfold data_arrives.
  destruct (tasks w !! i) as [t|] eqn:Ht; [|done]. simpl.
  pose proof (inv_tasks _ _ Hinv i t Ht) as Hti. unfold task_inv in Hti.
  pose proof (inv_auto _ _ Hinv) as Hauto.
  revert Hti. destruct (t_stage t) as [p|retried g|g p|r0|o] eqn:Hs; try done.
  intros Hti. destruct r as [e|res].
  { intros [= <-]. eapply fetch_inv_updates; [done|done|by apply fail_updates|].
    unfold task_inv. simpl. rewrite Nat.add_0_r.
    destruct retried.
    - destruct Hti as (-> & r1 & -> & Hr). split; [lia|]. intros ?? [= <- <-]. congruence.
    - destruct Hti as [-> ->]. split; [lia|done]. }
  pose proof (add_response_updates i res t w Ht) as Hadd.
  pose proof (updates_lookup _ _ _ _ _ _ Ht Hadd) as Ht1.
  set (w1 := add_response i res w) in *.
  assert (Hauto1 : autoRefreshToken (auth w1) = ar) by by rewrite (upd_auto _ _ _ _ _ Hadd).
  rewrite Hauto1.
  destruct (negb retried && is_4xx res && ar) eqn:Hdue.
  - apply andb_true_iff in Hdue as [[Hre H4]%andb_true_iff Har].
    apply negb_true_iff in Hre. subst retried. destruct Hti as [Hn Hrs].
    assert (Hd : retry_due ar res = true) by (unfold retry_due; by rewrite H4, Har).
    cbn [t_options with_response].
    destruct (refreshToken (t_options t) w1) as [[w2 p]|e] eqn:Hrt; intros [= <-].
    + pose proof (refreshToken_updates i _ _ _ _ _ Ht1 Hrt) as Hu2.
      pose proof (updates_lookup _ _ _ _ _ _ Ht1 Hu2) as Ht2.
      pose proof (set_stage_updates i (AwaitRetry g p) _ _ Ht2) as Hu3.
      eapply fetch_inv_updates; [done|done| |].
      * eapply (updates_trans _ _ _ 0 0); [exact Hadd|].
        eapply (updates_trans _ _ _ 0 0); [exact Hu2|exact Hu3].
      * unfold task_inv. simpl. rewrite Hn, Hrs. split; [done|]. by exists res.
    + eapply fetch_inv_updates; [done|done| |].
      * eapply (updates_trans _ _ _ 0 0); [exact Hadd|]. by apply fail_updates.
      * unfold task_inv. simpl. rewrite Hn, Hrs. split; [lia|].
        intros ?? [= <- <-]. congruence.
  - intros [= <-].
    destruct (finish_updates i res _ w1 Ht1) as (s & Hs' & Hu).
    eapply fetch_inv_updates; [done|done| |].
    + eapply (updates_trans _ _ _ 0 0); [exact Hadd|exact Hu].
    + assert (settled ar (data_calls i w + (0 + 0)) (t_responses t ++ [res]) res) as Hset.
      { rewrite !Nat.add_0_r. destruct retried.
        - destruct Hti as (-> & r1 & -> & Hr). right. split; [done|]. by exists r1.
        - destruct Hti as [-> ->]. left. repeat split. simpl in Hdue.
          by unfold retry_due. }
      unfold task_inv. by destruct Hs' as [-> | ->].
Qed.

Lemma set_auth_updates (i : nat) (a : GoogleCloudAuth) (t : task) (w : World) :
  tasks w !! i = Some t -> autoRefreshToken a = autoRefreshToken (auth w) ->
  updates i t 0 w (set_auth a w).
Proof.
  intros Ht Ha. split; simpl; [by rewrite list_insert_id|done| |done].
  unfold data_calls. simpl. lia.
Qed.

Lemma settled_bound (ar : bool) (n : nat) (rs : list Response) (res : Response) :
  settled ar n rs res ->
  n <= 2 /\ (forall r1 rest, rs = r1 :: rest -> retry_due ar r1 = false -> n = 1 /\ rest = []).
Proof.
  intros [(-> & -> & Hr)|(-> & r1 & -> & Hr)]; (split; [lia|]).
  - by intros ?? [= <- <-].
  - intros ?? [= <- <-]. congruence.
Qed.

Lemma fetch_inv_body_read (ar : bool) (i : nat) (w w' : World) :
  fetch_inv ar w -> body_read i w = Some w' -> fetch_inv ar w'.
Proof.
  intros Hinv. unfold body_read.
  destruct (tasks w !! i) as [t|] eqn:Ht; [|done]. simpl.
  pose proof (inv_tasks _ _ Hinv i t Ht) as Hti. unfold task_inv in Hti.
  revert Hti. destruct (t_stage t) as [p|retried g|g p|res|o] eqn:Hs; try done.
  intros Hti.
  assert (Hfail : forall e, fetch_inv ar (fail i e w)).
  { intros e. eapply fetch_inv_updates; [done|done|by apply fail_updates|].
    unfold task_inv. simpl. rewrite Nat.add_0_r. by apply (settled_bound ar _ _ res). }
  destruct (body res) as [j|] eqn:Hb; [|by intros [= <-]].
  destruct (getSessionToken j) as [tok|e]; intros [= <-]; [|done].
  pose proof (set_auth_updates i (set_sessionToken tok (auth w)) t w Ht eq_refl) as Hu.
  eapply fetch_inv_updates; [done|done| |].
  - eapply (updates_trans _ _ _ 0 0); [exact Hu|].
    apply set_stage_updates. by eapply updates_lookup.
  - unfold task_inv. simpl. exists res. by rewrite !Nat.add_0_r.
Qed.

Lemma fetch_inv_step (ar : bool) (e : event) (w w' : World) :
  fetch_inv ar w -> step e w = Some w' -> fetch_inv ar w'.
Proof.
  intros Hinv. destruct e as [u o|p r|i|i r|i]; simpl.
  - intros [= <-]. by apply fetch_inv_call.
  - by apply fetch_inv_settles.
  - by apply fetch_inv_resume.
  - by apply fetch_inv_data_arrives.
  - by apply fetch_inv_body_read.
Qed.


Lemma stage_of_set_stage (i : nat) (s : stage) (w : World) :
  is_Some (tasks w !! i) -> stage_of i (set_stage i s w) = Some s.
Proof.
  intros [t Ht]. unfold stage_of, set_stage. rewrite Ht. simpl.
  rewrite list_lookup_insert_eq; [done|]. by apply lookup_lt_Some in Ht.
Qed.

Lemma network_set_stage (i : nat) (s : stage) (w : World) :
  network (set_stage i s w) = network w.
Proof. unfold set_stage. by destruct (tasks w !! i). Qed.

Lemma auth_set_stage (i : nat) (s : stage) (w : World) :
  auth (set_stage i s w) = auth w.
Proof. unfold set_stage. by destruct (tasks w !! i). Qed.


(** C1, at a failing input: the auth endpoint answers 403 to the first
    refresh.  The marker is not cleared: the rejected promise stays in
    [_tokenRefreshPromise], a later [refreshToken] hands it out and sends
    nothing, and a later [fetch] fails on it, with still one refresh
    request sent in all. *)
Theorem failed_refresh_stays_in_flight :
  after_run [Call tile_url no_options; RefreshSettles 0 (status_reply 403)]
    (fresh map_client) (fun w =>
    _tokenRefreshPromise (auth w) = Some 0 /\
    promises w !! 0 =
      Some (Rejected "GoogleCloudAuth: Failed to load data with error code 403") /\
    refreshToken no_options w = Ok (w, 0) /\
    after_run [Call tile_url no_options; Resume 1] w (fun w' =>
      stage_of 1 w' =
        Some (Done (Failed "GoogleCloudAuth: Failed to load data with error code 403")) /\
      refresh_calls w' = 1)).
Proof. vm_compute. repeat split. Qed.

(** The success path does clear the marker; no failure path does. *)
Lemma refresh_then_marker (r : net_result) (a a' : GoogleCloudAuth) (s : promise_state) :
  refresh_then r a = (s, a') ->
  match s with
  | Fulfilled _ => _tokenRefreshPromise a' = None
  | _ => a' = a
  end.
Proof.
  unfold refresh_then. destruct r as [e|res]; [by intros [= <- <-]|].
  destruct (ok res); [|by intros [= <- <-]].
  destruct (body res) as [j|]; [|by intros [= <- <-]].
  destruct (getSessionToken j); by intros [= <- <-].
Qed.


(** C10, as stated, fails: the first call of a 3D-tiles client returns the
    parsed body, not the response. *)
Lemma first_call_returns_json :
  after_run [Call root_url no_options; Resume 0;
             DataArrives 0 (NetResponse (mkResponse 200 (Some manifest))); BodyRead 0]
    (fresh tiles3d_client) (fun w =>
    stage_of 0 w = Some (Done (ReturnedJson manifest)) /\
    stage_of 0 w <> Some (Done (Returned (mkResponse 200 (Some manifest)))) /\
    sessionToken (auth w) = JStr "xyz").
Proof. vm_compute. repeat split. discriminate. Qed.

(** C10, amended. When the response to be returned has arrived (the first
    one when no retry is due, the retried one otherwise) and the client
    is in 3D-tiles mode with no token held, the body of that response,
    whatever its status, is parsed, the token is extracted from it and
    stored, and the call returns the parsed JSON, not the response; the
    call fails when the body is not JSON or the extraction throws.
    Otherwise (a token is held, or map-tiles mode) the response is
    returned as it is, uninspected. *)
Theorem body_inspected_while_no_token (w : World) (i : nat) (t : task) (retried : bool)
    (g : URL) (res : Response) :
  tasks w !! i = Some t -> t_stage t = AwaitData retried g ->
  negb retried && is_4xx res && autoRefreshToken (auth w) = false ->
  exists w',
    step (DataArrives i (NetResponse res)) w = Some w' /\
    network w' = network w /\ auth w' = auth w /\
    if no_token_3d (auth w) then
      stage_of i w' = Some (ReadBody res) /\
      exists w'',
        step (BodyRead i) w' = Some w'' /\ network w'' = network w /\
        match body res with
        | Some j =>
            match getSessionToken j with
            | Ok tok =>
                sessionToken (auth w'') = tok /\
                stage_of i w'' = Some (Done (ReturnedJson j))
            | Throw e =>
                auth w'' = auth w /\ stage_of i w'' = Some (Done (Failed e))
            end
        | None =>
            auth w'' = auth w /\ exists e, stage_of i w'' = Some (Done (Failed e))
        end
    else stage_of i w' = Some (Done (Returned res)).
Proof.
  intros Ht Hs Hdue. cbn [step]. unfold data_arrives. rewrite Ht. cbn [mbind option_bind].
  rewrite Hs.
  pose proof (add_response_updates i res t w Ht) as Hadd.
  pose proof (updates_lookup _ _ _ _ _ _ Ht Hadd) as Ht1.
  set (w1 := add_response i res w) in *.
  assert (Ha1 : auth w1 = auth w).
  { subst w1. unfold add_response. by rewrite Ht. }
  assert (Hn1 : network w1 = network w).
  { subst w1. unfold add_response. by rewrite Ht. }
  rewrite Ha1, Hdue.
  eexists. split; [done|]. unfold finish. rewrite Ha1. unfold no_token_3d.
  assert (Hsome : is_Some (tasks w1 !! i)) by by eexists.
  assert (Hret : network (set_stage i (Done (Returned res)) w1) = network w /\
                 auth (set_stage i (Done (Returned res)) w1) = auth w /\
                 stage_of i (set_stage i (Done (Returned res)) w1) =
                   Some (Done (Returned res))).
  { by rewrite network_set_stage, auth_set_stage, stage_of_set_stage. }
  destruct (sessionToken (auth w)); try (by destruct Hret as (? & ? & ?)).
  destruct (isMapTilesSession (auth w)); cbn [negb]; [by destruct Hret as (? & ? & ?)|].
  rewrite network_set_stage, auth_set_stage, stage_of_set_stage by done.
  do 3 (split; [done|]).
  cbn [step]. unfold body_read.
  pose proof (set_stage_updates i (ReadBody res) _ _ Ht1) as Hu.
  pose proof (updates_lookup _ _ _ _ _ _ Ht1 Hu) as Ht2.
  rewrite Ht2. cbn [mbind option_bind with_stage t_stage].
  set (w2 := set_stage i (ReadBody res) w1) in *.
  assert (Hsome2 : is_Some (tasks w2 !! i)) by by eexists.
  assert (Ha2 : auth w2 = auth w) by (subst w2; by rewrite auth_set_stage).
  assert (Hn2 : network w2 = network w) by (subst w2; by rewrite network_set_stage).
  destruct (body res) as [j|].
  - destruct (getSessionToken j) as [tok|e]; eexists; (split; [done|]).
    + rewrite network_set_stage, auth_set_stage, stage_of_set_stage by done.
      by cbn [set_auth network auth set_sessionToken sessionToken].
    + unfold fail. by rewrite network_set_stage, auth_set_stage, stage_of_set_stage.
  - eexists. split; [done|]. unfold fail.
    rewrite network_set_stage, auth_set_stage, stage_of_set_stage by done.
    repeat split; try done. by eexists.
Qed.

(** Witness of C10: a 404 with a JSON body is inspected too. *)
Lemma body_inspected_while_no_token_witness :
  exists w',
    step (DataArrives 0 (NetResponse (mkResponse 404 (Some manifest)))) first_call_world
      = Some w' /\
    stage_of 0 w' = Some (ReadBody (mkResponse 404 (Some manifest))).
Proof.
  destruct (body_inspected_while_no_token first_call_world 0 first_call_task false
              first_call_url (mkResponse 404 (Some manifest)))
    as (w' & Hstep & _ & _ & Hw'); [reflexivity..|].
  exists w'. split; [exact Hstep|]. exact (proj1 Hw').
Defined.


(** *** One refresh at a time *)

Lemma one_in_flight_refreshToken (o : FetchOptions) (w w' : World) (p : nat) :
  one_in_flight w -> refreshToken o w = Ok (w', p) -> one_in_flight w'.
Proof.
  intros [Hpm Hmp]. unfold refreshToken.
  destruct (_tokenRefreshPromise (auth w)) as [q|] eqn:Hm.
  - intros [= <- _]. split; intros p'; rewrite Hm; auto.
  - destruct (parse_URL (authURL (auth w))) as [u|e]; [|done]. cbn [bind].
    destruct (through_proxy _ _) as [v|e]; [|done]. cbn [bind].
    intros [= <- <-]. split; cbn.
    + intros q Hq. apply lookup_app_Some in Hq as [Hq|[Hlen Hq]].
      * by apply Hpm in Hq.
      * f_equal. apply list_lookup_singleton_Some in Hq as [Hq _]. lia.
    + intros q [= <-]. rewrite length_app. simpl. lia.
Qed.

Lemma one_in_flight_set_stage (i : nat) (s : stage) (w : World) :
  one_in_flight w -> one_in_flight (set_stage i s w).
Proof.
  intros [Hpm Hmp]. unfold set_stage. destruct (tasks w !! i); [|done]. by split.
Qed.

Lemma one_in_flight_send_data (i : nat) (r : bool) (o : FetchOptions) (g : URL) (w : World) :
  one_in_flight w -> one_in_flight (send_data i r o g w).
Proof.
  intros Hw. unfold send_data, fail. destruct (through_proxy (auth w) g).
  - apply one_in_flight_set_stage. by destruct Hw.
  - by apply one_in_flight_set_stage.
Qed.

Lemma one_in_flight_step (e : event) (w w' : World) :
  one_in_flight w -> step e w = Some w' -> one_in_flight w'.
Proof.
  intros Hw. destruct e as [u o|p r|i|i r|i]; cbn [step].
  - intros [= <-]. unfold call_fetch.
    assert (Hstart : forall w1 s, one_in_flight w1 ->
      one_in_flight (mkWorld (auth w1) (promises w1)
                       (tasks w1 ++ [mkTask u o s []]) (network w1))).
    { intros w1 s [? ?]. by split. }
    destruct (sessionToken (auth w)); try (by apply Hstart).
    destruct (isMapTilesSession (auth w)); [|by apply Hstart].
    destruct (refreshToken o w) as [[w1 p]|e] eqn:Hr; [|by apply Hstart].
    apply Hstart. by eapply one_in_flight_refreshToken.
  - unfold refresh_settles. destruct (promises w !! p) as [[| |]|] eqn:Hp; try done.
    destruct (refresh_then r (auth w)) as [s a] eqn:Hthen. intros [= <-].
    destruct Hw as [Hpm Hmp]. pose proof (Hpm p Hp) as Hmark.
    pose proof (lookup_lt_Some _ _ _ Hp) as Hlt.
    assert (Hs : s <> Pending /\
                 (_tokenRefreshPromise a = None \/
                  _tokenRefreshPromise a = _tokenRefreshPromise (auth w))).
    { unfold refresh_then in Hthen.
      destruct r as [e|res]; [injection Hthen as <- <-; by split; [|right]|].
      destruct (ok res); [|injection Hthen as <- <-; by split; [|right]].
      destruct (body res) as [j|]; [|injection Hthen as <- <-; by split; [|right]].
      destruct (getSessionToken j); injection Hthen as <- <-; split; try done;
        [by left|by right]. }
    destruct Hs as [Hs Hma]. split; cbn.
    + intros q Hq. destruct (decide (q = p)) as [->|Hne].
      * rewrite list_lookup_insert_eq in Hq by done. congruence.
      * rewrite list_lookup_insert_ne in Hq by done. apply Hpm in Hq. congruence.
    + intros q Hq. rewrite length_insert. apply Hmp. destruct Hma; congruence.
  - unfold resume. destruct (tasks w !! i) as [t|]; [|done]. cbn.
    destruct (t_stage t) as [p|rt g|g p|res|o]; try done.
    + assert (Hc : one_in_flight
        match parse_URL (t_url t) with
        | Ok googleUrl =>
            send_data i false (t_options t)
              (apply_token (auth w) (searchParams_set "key" (apiToken (auth w)) googleUrl)) w
        | Throw e => fail i e w
        end).
      { destruct (parse_URL (t_url t)); [by apply one_in_flight_send_data|].
        by apply one_in_flight_set_stage. }
      destruct p as [p|]; [|by intros [= <-]].
      destruct (promises w !! p) as [[| |]|]; try done; intros [= <-]; [done|].
      by apply one_in_flight_set_stage.
    + destruct (promises w !! p) as [[| |]|]; try done; intros [= <-].
      * by apply one_in_flight_send_data.
      * by apply one_in_flight_set_stage.
  - unfold data_arrives. destruct (tasks w !! i) as [t|] eqn:Ht; [|done]. cbn.
    destruct (t_stage t) as [p|rt g|g p|res|o]; try done.
    destruct r as [e|res]; [intros [= <-]; by apply one_in_flight_set_stage|].
    assert (Hadd : one_in_flight (add_response i res w)).
    { unfold add_response. rewrite Ht. destruct Hw. by split. }
    destruct (negb rt && is_4xx res && _).
    + destruct (refreshToken _ _) as [[w1 p]|e] eqn:Hr; intros [= <-].
      * apply one_in_flight_set_stage. by eapply one_in_flight_refreshToken.
      * by apply one_in_flight_set_stage.
    + intros [= <-]. unfold finish.
      destruct (sessionToken _); try destruct (isMapTilesSession _);
        by apply one_in_flight_set_stage.
  - unfold body_read. destruct (tasks w !! i) as [t|]; [|done]. cbn.
    destruct (t_stage t) as [p|rt g|g p|res|o]; try done.
    destruct (body res) as [j|]; [|intros [= <-]; by apply one_in_flight_set_stage].
    destruct (getSessionToken j) as [tok|e]; intros [= <-];
      apply one_in_flight_set_stage; [|done].
    destruct Hw. by split.
Qed.

Lemma one_in_flight_run (es : list event) (w w' : World) :
  one_in_flight w -> run es w = Some w' -> one_in_flight w'.
Proof.
  revert w. induction es as [|e es IH]; intros w Hw; simpl.
  - by intros [= <-].
  - destruct (step e w) as [w1|] eqn:Hstep; [|done]. simpl.
    apply IH. by eapply one_in_flight_step.
Qed.

(** In every state a client can reach, at most one refresh is pending. *)
Lemma at_most_one_refresh_pending (a : GoogleCloudAuth) (es : list event) (w : World)
    (p q : nat) :
  _tokenRefreshPromise a = None -> run es (fresh a) = Some w ->
  promises w !! p = Some Pending -> promises w !! q = Some Pending -> p = q.
Proof.
  intros Ha Hrun Hp Hq.
  assert (Hw : one_in_flight w).
  { eapply one_in_flight_run; [|done]. split; cbn; [by intros []|].
    intros r. by rewrite Ha. }
  destruct Hw as [Hpm _]. apply Hpm in Hp, Hq. congruence.
Qed.

(** ** The caching proxy *)

Lemma tmp_of_neq (p : string) : tmp_of p <> p.
Proof.
  unfold tmp_of. intros Heq. apply (f_equal String.length) in Heq.
  rewrite length_append in Heq. simpl in Heq. lia.
Qed.

Lemma received_app (t1 t2 : list effect) :
  received (t1 ++ t2) = received t1 ++ received t2.
Proof.
  induction t1 as [|e t1 IH]; [done|]. simpl. destruct e; simpl; by rewrite ?IH.
Qed.

Lemma concat_chunks_app (l1 l2 : list string) :
  concat_chunks (l1 ++ l2) = concat_chunks l1 +:+ concat_chunks l2.
Proof.
  unfold concat_chunks. induction l1 as [|c l1 IH]; [done|].
  simpl. by rewrite IH, append_assoc.
Qed.

Lemma concat_chunks_single (chunk : string) : concat_chunks [chunk] = chunk.
Proof. unfold concat_chunks. simpl. apply append_nil_r. Qed.

Lemma concat_chunks_cons (chunk : string) (l : list string) :
  concat_chunks (chunk :: l) = chunk +:+ concat_chunks l.
Proof. done. Qed.

Lemma paired_app (l1 l2 : list string) : paired (l1 ++ l2) = paired l1 ++ paired l2.
Proof. unfold paired. apply flat_map_app. Qed.

Lemma filter_app_single {A : Type} (f : A -> bool) (l : list A) (x : A) :
  List.filter f (l ++ [x]) = List.filter f l ++ (if f x then [x] else []).
Proof. rewrite List.filter_app. simpl. by destruct (f x). Qed.

Ltac refute_upstream H :=
  first [ destruct H as ([?|?] & _); congruence | destruct H as (? & _); congruence ].

Lemma miss_inv_step (p : string) (e : conn_event) (sc sc' : Server * Conn) :
  miss_inv p sc -> conn_step e sc = Some sc' -> miss_inv p sc'.
Proof.
  destruct sc as [s c]. intros (Hp & Hr & Hw & Hf).
  pose proof (tmp_of_neq p) as Hne.
  destruct e as [st ct|chunk| | |refused| | | | | |]; cbn [conn_step].
  - (* the upstream answers *)
    destruct (upstream c) eqn:Hu; try done. cbn [set_upstream set_res cachePath].
    rewrite Hp. intros [= <-]. revert Hf.
    destruct (fileStream c) eqn:Hfs; intros Hf; try by refute_upstream Hf.
    destruct Hf as (_ & Htr & Hnone).
    cbn. rewrite Htr. repeat split; try done; try (by left).
    + by rewrite lookup_insert_ne.
    + exists EmptyString. cbn. by rewrite lookup_insert_eq, Htr.
  - (* a chunk *)
    destruct (upstream c) eqn:Hu; try done. intros [= <-]. revert Hf.
    destruct (fileStream c) as [|pending|pending| |err|] eqn:Hfs; intros Hf;
      try by refute_upstream Hf.
    destruct Hf as (_ & Hren & Hnone & written & Hwr & Hall).
    cbn. rewrite <- !app_assoc. cbn [app].
    unfold renames in *.
    rewrite !List.filter_app, !received_app, paired_app, Hw, Hren. cbn.
    repeat split; try done; try (by left).
    exists written. cbn. split; [done|].
    rewrite <- !app_assoc. cbn [app]. rewrite !received_app. cbn.
    rewrite !concat_chunks_app, !concat_chunks_single, <- Hall.
    by rewrite append_assoc.
  - (* the upstream ends *)
    destruct (upstream c) eqn:Hu; try done. intros [= <-]. revert Hf.
    destruct (fileStream c) as [|pending|pending| |err|] eqn:Hfs; intros Hf;
      try by refute_upstream Hf.
    destruct Hf as (_ & Hren & Hnone & written & Hwr & Hall).
    cbn. rewrite <- !app_assoc. cbn [app].
    unfold renames in *.
    rewrite !List.filter_app, !received_app, Hw, Hren. cbn.
    rewrite !app_nil_r.
    repeat split; try done.
    exists written. cbn. split; [done|].
    rewrite <- !app_assoc. cbn [app]. rewrite !received_app. cbn.
    by rewrite app_nil_r.
  - (* the upstream response fails *)
    destruct (upstream c) eqn:Hu; try done. intros [= <-]. revert Hf.
    destruct (fileStream c) as [|pending|pending| |err|] eqn:Hfs; intros Hf;
      try by refute_upstream Hf.
    destruct Hf as (_ & Hren & Hnone & _).
    unfold fail_response.
    unfold renames in *.
    destruct (headersSent _); cbn;
      rewrite !List.filter_app, !received_app, Hw, Hren; cbn;
      rewrite !app_nil_r; done.
  - (* the upstream request fails *)
    assert (Hgoal : forall msg,
      miss_inv p (s, set_upstream UpFailed (fail_response msg c)) \/
      upstream c <> Asked /\ upstream c <> Responding).
    { intros msg. revert Hf.
      destruct (fileStream c) as [|pending|pending| |err|] eqn:Hfs; intros Hf;
        try (right; split; intros Hu; by refute_upstream Hf); left;
        unfold fail_response; destruct (headersSent _); cbn; rewrite ?Hfs; cbn;
        destruct_and?; repeat split; try done; by right. }
    destruct (upstream c) eqn:Hu; try done; intros [= <-];
      (destruct (Hgoal (if refused
           then "Upstream request error: cannot reach Google (connection refused)"%string
           else "Upstream request error"%string)) as [?|[? ?]]; [done|congruence]).
  - (* the client goes away *)
    assert (Hsame : Some (s, set_client_gone c) = Some sc' -> miss_inv p sc').
    { intros [= <-]. cbn. revert Hf. by destruct (fileStream c). }
    by destruct (upstream c).
  - (* a chunk reaches the file *)
    assert (Hgoal :
      match fileStream c, cachePath c with
      | Writing (chunk :: pending), Some p =>
          Some (mkServer (append_file (tmp_of p) chunk (fs s)) (upstream_log s),
                set_fileStream (Writing pending) c)
      | Ending (chunk :: pending), Some p =>
          Some (mkServer (append_file (tmp_of p) chunk (fs s)) (upstream_log s),
                set_fileStream (Ending pending) c)
      | _, _ => None
      end = Some sc' -> miss_inv p sc').
    { rewrite Hp. revert Hf.
      destruct (fileStream c) as [|[|chunk pending]|[|chunk pending]| |err|] eqn:Hfs;
        intros Hf; try done; intros [= <-];
        destruct Hf as (Hup & Hren & Hnone & written & Hwr & Hall);
        cbn; repeat split; try done; unfold append_file;
        try (by rewrite lookup_insert_ne);
        exists (written +:+ chunk); cbn; rewrite lookup_insert_eq, Hwr; cbn;
        (split; [done|]); by rewrite <- Hall, append_assoc, concat_chunks_cons. }
    by destruct (upstream c).
  - (* the stream has finished *)
    assert (Hgoal :
      match fileStream c, cachePath c with
      | Ending [], Some p =>
          Some (s, log [Rename (tmp_of p) p] (set_fileStream Renaming c))
      | _, _ => None
      end = Some sc' -> miss_inv p sc').
    { rewrite Hp. revert Hf.
      destruct (fileStream c) as [|pending|[|chunk pending]| |err|] eqn:Hfs;
        intros Hf; try done; intros [= <-];
        destruct Hf as (Hup & Hren & Hnone & written & Hwr & Hall).
      unfold renames in *.
      cbn. rewrite !List.filter_app, !received_app, Hw, Hren. cbn.
      rewrite !app_nil_r. repeat split; try done.
      rewrite Hwr, <- Hall. f_equal. symmetry. apply append_nil_r. }
    by destruct (upstream c).
  - (* the rename is done *)
    assert (Hgoal :
      match fileStream c, cachePath c with
      | Renaming, Some p =>
          match rename_file (tmp_of p) p (fs s) with
          | Some fs' =>
              Some (mkServer fs' (upstream_log s), set_fileStream (Renamed false) c)
          | None => Some (s, set_fileStream (Renamed true) c)
          end
      | _, _ => None
      end = Some sc' -> miss_inv p sc').
    { rewrite Hp. revert Hf.
      destruct (fileStream c) as [|pending|pending| |err|] eqn:Hfs; intros Hf; try done.
      destruct Hf as (Hup & Hren & Hnone & Htmp).
      unfold rename_file. rewrite Htmp. cbn. intros [= <-].
      cbn. repeat split; try done. by rewrite lookup_insert_eq. }
    by destruct (upstream c).
  - (* no read stream *)
    rewrite Hr. by destruct (upstream c).
  - rewrite Hr. by destruct (upstream c).
Qed.

Lemma miss_inv_run (p : string) (es : list conn_event) (sc sc' : Server * Conn) :
  miss_inv p sc -> conn_run es sc = Some sc' -> miss_inv p sc'.
Proof.
  revert sc. induction es as [|e es IH]; intros sc Hinv; simpl.
  - by intros [= <-].
  - destruct (conn_step e sc) as [sc1|] eqn:Hstep; [|done]. simpl.
    apply IH. by eapply miss_inv_step.
Qed.

Section cache_miss.
Context `{Platform}.

(** A connection that asked upstream found no cache file. *)
Lemma handle_asked (req : IncomingMessage) (s0 s1 : Server) (c1 : Conn) :
  handle req s0 = (s1, c1) -> upstream c1 = Asked ->
  fs s1 = fs s0 /\ fileStream c1 = NoFile /\ readStream c1 = NoRead /\
  trace c1 = [] /\
  match cachePath c1 with
  | Some p => fs s0 !! p = None
  | None => True
  end.
Proof.
  unfold handle.
  destruct (String.eqb (method req) "OPTIONS"); [by intros [= <- <-]|].
  destruct (request_target (url req)) as [path q].
  destruct (negb (String.eqb path "/proxy")); [by intros [= <- <-]|].
  destruct (params_get "url" (parse_urlencoded (default EmptyString q)))
    as [[|a g]|]; [by intros [= <- <-]| |by intros [= <- <-]].
  destruct (parse_URL (String a g)) as [target|e]; cbn [bind]; [|by intros [= <- <-]].
  destruct (cache_path target) as [cp|e]; cbn [bind]; [|by intros [= <- <-]].
  destruct (match cp with Some p => fs s0 !! p | None => None end) as [content|] eqn:Hhit.
  { by intros [= <- <-]. }
  destruct (is_http (protocol target)); [|by intros [= <- <-]].
  intros [= <- <-] _. cbn. repeat split. by destruct cp.
Qed.

Lemma miss_inv_handle (req : IncomingMessage) (s0 s1 : Server) (c1 : Conn) (p : string) :
  handle req s0 = (s1, c1) -> upstream c1 = Asked -> cachePath c1 = Some p ->
  miss_inv p (s1, c1).
Proof.
  intros Hh Hu Hp.
  destruct (handle_asked req s0 s1 c1 Hh Hu) as (Hfs & Hf & Hr & Ht & Hnone).
  rewrite Hp in Hnone. unfold miss_inv.
  rewrite Hf, Ht, Hfs. repeat split; try done. by left.
Qed.

(** A request served from the cache reads the file under its cache path. *)
Lemma handle_reading (req : IncomingMessage) (s s' : Server) (c : Conn) (content : string) :
  handle req s = (s', c) -> readStream c = Reading content ->
  exists p, cachePath c = Some p /\ fs s !! p = Some content.
Proof.
  unfold handle.
  destruct (String.eqb (method req) "OPTIONS"); [by intros [= <- <-]|].
  destruct (request_target (url req)) as [path q].
  destruct (negb (String.eqb path "/proxy")); [by intros [= <- <-]|].
  destruct (params_get "url" (parse_urlencoded (default EmptyString q)))
    as [[|a g]|]; [by intros [= <- <-]| |by intros [= <- <-]].
  destruct (parse_URL (String a g)) as [target|e]; cbn [bind]; [|by intros [= <- <-]].
  destruct (cache_path target) as [cp|e]; cbn [bind]; [|by intros [= <- <-]].
  destruct (match cp with Some p => fs s !! p | None => None end) as [content'|] eqn:Hhit.
  - intros [= <- <-]. cbn. intros [= <-].
    destruct cp as [p|]; [|done]. by exists p.
  - destruct (is_http (protocol target)); by intros [= <- <-].
Qed.

(** The facts of a connection that missed the cache for [p]. *)
Lemma miss_facts (req : IncomingMessage) (s0 s1 : Server) (c1 : Conn)
    (p : string) (es : list conn_event) (s : Server) (c : Conn) :
  handle req s0 = (s1, c1) -> upstream c1 = Asked -> cachePath c1 = Some p ->
  conn_run es (s1, c1) = Some (s, c) ->
  List.filter is_write (trace c) = paired (received (trace c)) /\
  (forall src dst,
      In (Rename src dst) (trace c) ->
      src = tmp_of p /\ dst = p /\ upstream c = UpEnded /\
      (fs s !! tmp_of p = Some (concat_chunks (received (trace c))) \/
       fs s !! p = Some (concat_chunks (received (trace c))))) /\
  (fs s !! p = None \/
   upstream c = UpEnded /\ fs s !! p = Some (concat_chunks (received (trace c)))).
Proof.
  intros Hh Hu Hp Hrun.
  pose proof (miss_inv_run p es _ _ (miss_inv_handle req s0 s1 c1 p Hh Hu Hp) Hrun)
    as (_ & _ & Hw & Hf).
  split; [done|].
  assert (Hin : forall src dst, In (Rename src dst) (trace c) ->
                                In (Rename src dst) (renames (trace c))).
  { intros src dst Hin. unfold renames. apply List.filter_In. by split. }
  destruct (fileStream c) as [|pending|pending| |err|].
  - destruct Hf as (_ & Ht & Hnone). split; [|by left].
    intros src dst Hi. rewrite Ht in Hi. destruct Hi.
  - destruct Hf as (_ & Hren & Hnone & _). split; [|by left].
    intros src dst Hi%Hin. rewrite Hren in Hi. destruct Hi.
  - destruct Hf as (_ & Hren & Hnone & _). split; [|by left].
    intros src dst Hi%Hin. rewrite Hren in Hi. destruct Hi.
  - destruct Hf as (Hup & Hren & Hnone & Htmp). split; [|by left].
    intros src dst Hi%Hin. rewrite Hren in Hi.
    destruct Hi as [[= <- <-]|[]]. repeat split; try done. by left.
  - destruct Hf as (Hup & Hren & -> & Hfull). split; [|by right].
    intros src dst Hi%Hin. rewrite Hren in Hi.
    destruct Hi as [[= <- <-]|[]]. repeat split; try done. by right.
  - destruct Hf as (_ & Hren & Hnone). split; [|by left].
    intros src dst Hi%Hin. rewrite Hren in Hi. destruct Hi.
Qed.

(** C8, at a failing input: the [url] parameter is not a URL.  [new URL]
    throws at line 75, before the [try] of line 134: the handler's promise
    is rejected and nothing is written to the response, neither the 400
    nor its text. *)
Theorem invalid_url_is_not_answered (s : Server) :
  let '(s', c) := handle (mkReq "GET" "/proxy?url=notaurl") s in
  s' = s /\ uncaught c = Some "TypeError: Invalid URL"%string /\
  headersSent (res c) = false /\ ended (res c) = false /\ sent (res c) = EmptyString.
Proof. cbv. repeat split. Qed.

(** The other rejections of the claim are answered. *)
Lemma missing_url_is_400 (s : Server) :
  handle (mkReq "GET" "/proxy") s =
    (s, answered (sendError false 400 "Missing url param"
                    (setHeader "Access-Control-Allow-Methods" "GET,OPTIONS"
                       (setHeader "Access-Control-Allow-Origin" "*" new_res)))).
Proof. reflexivity. Qed.

Lemma other_path_is_404 (s : Server) :
  handle (mkReq "GET" "/tiles?url=https://tiles.example/a.glb") s =
    (s, answered (sendError false 404 "Not Found"
                    (setHeader "Access-Control-Allow-Methods" "GET,OPTIONS"
                       (setHeader "Access-Control-Allow-Origin" "*" new_res)))).
Proof. reflexivity. Qed.

(** What the [catch] of line 214 does answer: a URL [http.request] refuses. *)
Lemma refused_protocol_is_400 (s : Server) :
  let '(s', c) := handle (mkReq "GET" "/proxy?url=ftp://tiles.example/a.bin") s in
  s' = s /\ uncaught c = None /\ statusCode (res c) = 400%Z /\
  sent (res c) = "Invalid url param"%string /\ ended (res c) = true.
Proof. cbv. repeat split. Qed.
(** Every request of the proxy route whose [url] is not a URL ends this
    way. *)
Lemma unparsable_url_uncaught (req : IncomingMessage) (s : Server) (c : ascii) (g : string) :
  String.eqb (method req) "OPTIONS" = false ->
  fst (request_target (url req)) = "/proxy"%string ->
  params_get "url"
    (parse_urlencoded (default EmptyString (snd (request_target (url req)))))
    = Some (String c g) ->
  new_URL (String c g) = None ->
  exists r,
    handle req s = (s, mkConn r false None NotAsked NoFile NoRead
                              (Some "TypeError: Invalid URL"%string) []) /\
    headersSent r = false /\ ended r = false /\ sent r = EmptyString.
Proof.
  intros Hm Hr Hg Hnew. unfold handle. rewrite Hm.
  destruct (request_target (url req)) as [path q]. simpl in Hr, Hg. subst path.
  change (negb (String.eqb "/proxy" "/proxy")) with false. cbv iota.
  rewrite Hg. unfold parse_URL. rewrite Hnew. cbn [bind].
  eexists. split; [done|]. by repeat split.
Qed.

End cache_miss.

(** C3, at a failing input: two misses for one asset overlap.  Both write
    to the one temporary file of the asset, and the rename of the first
    publishes what the second has written so far.  The first client was
    sent the whole body, "glTF"; the second is still being sent it; the
    file under the final name holds "gl", and the third request is served
    these two bytes from the cache, as a hit of length 2.  (In this run
    no stream writes after another has opened or renamed its file: every
    write lands at the end of the file its path names.) *)
Theorem overlapping_misses_publish_partial_file :
  match server_run (H := example_platform) overlap_events (empty_server, []) with
  | Some (s, [c0; c1; c2]) =>
      length (upstream_log s) = 2 /\
      cachePath c0 = Some glb_path /\ cachePath c1 = Some glb_path /\
      sent (res c0) = "glTF"%string /\ ended (res c0) = true /\
      fileStream c0 = Renamed false /\
      upstream c1 = Responding /\ sent (res c1) = "gl"%string /\
      ended (res c1) = false /\
      fs s !! glb_path = Some "gl"%string /\
      upstream c2 = NotAsked /\ statusCode (res c2) = 200%Z /\
      assoc "X-Cache" (headers (res c2)) = Some "HIT"%string /\
      assoc "Content-Length" (headers (res c2)) = Some "2"%string /\
      sent (res c2) = "gl"%string /\ ended (res c2) = true
  | _ => False
  end.
Proof. vm_compute. repeat split. Qed.

Lemma conn_run_app (es1 es2 : list conn_event) (sc : Server * Conn) :
  conn_run (es1 ++ es2) sc = conn_run es1 sc ≫= conn_run es2.
Proof.
  revert sc. induction es1 as [|e es1 IH]; intros sc; [done|].
  simpl. destruct (conn_step e sc) as [sc1|]; [|done]. simpl. apply IH.
Qed.

Lemma received_paired (chunks : list string) : received (paired chunks) = chunks.
Proof. induction chunks as [|c l IH]; [done|]. simpl. by rewrite IH. Qed.

(** The chunks go through while the upstream responds. *)
Lemma data_phase (chunks pending : list string) (s : Server) (r : ServerResponse)
    (cp : option string) (t : list effect) :
  conn_run (map UpstreamData chunks)
    (s, mkConn r false cp Responding (Writing pending) NoRead None t) =
  Some (s, mkConn (mkRes (statusCode r) (headers r)
                     (match chunks with [] => headersSent r | _ => true end)
                     (sent r +:+ concat_chunks chunks) (ended r) (destroyed r))
                  false cp Responding (Writing (pending ++ chunks)) NoRead None
                  (t ++ paired chunks)).
Proof.
  revert pending r t. induction chunks as [|c l IH]; intros pending r t.
  - simpl. rewrite !app_nil_r. unfold concat_chunks. simpl. rewrite append_nil_r.
    by destruct r.
  - cbn [map conn_run conn_step]. cbn.
    unfold log, set_res, set_fileStream, res_write. cbn. rewrite IH. cbn.
    rewrite <- !app_assoc. cbn [app]. rewrite concat_chunks_cons, append_assoc.
    by destruct l.
Qed.

(** The pending chunks reach the file one by one. *)
Lemma flush_phase (pending : list string) (s : Server) (r : ServerResponse)
    (p : string) (t : list effect) :
  exists fs',
    conn_run (repeat FileFlushed (length pending))
      (s, mkConn r false (Some p) UpEnded (Ending pending) NoRead None t) =
    Some (mkServer fs' (upstream_log s),
          mkConn r false (Some p) UpEnded (Ending []) NoRead None t).
Proof.
  revert s. induction pending as [|c l IH]; intros s.
  - exists (fs s). by destruct s.
  - cbn [length repeat conn_run conn_step]. cbn.
    unfold set_fileStream. cbn.
    destruct (IH (mkServer (append_file (tmp_of p) c (fs s)) (upstream_log s))) as [fs' Hfs'].
    exists fs'. exact Hfs'.
Qed.

Lemma response_step (st : Z) (ct : option string) (s : Server) (r : ServerResponse)
    (p : string) (t : list effect) :
  conn_step (UpstreamResponse st ct)
    (s, mkConn r false (Some p) Asked NoFile NoRead None t) =
  Some (mkServer (<[tmp_of p := EmptyString]> (fs s)) (upstream_log s),
        mkConn (pass_on st ct r) false (Some p) Responding (Writing []) NoRead None t).
Proof. reflexivity. Qed.

Lemma end_step (s : Server) (r : ServerResponse) (cp : option string)
    (pending : list string) (t : list effect) :
  conn_step UpstreamEnd
    (s, mkConn r false cp Responding (Writing pending) NoRead None t) =
  Some (s, mkConn (res_end false EmptyString r) false cp UpEnded (Ending pending)
                  NoRead None ((t ++ [FileEnd]) ++ [ClientEnd])).
Proof. reflexivity. Qed.

Lemma finished_step (s : Server) (r : ServerResponse) (p : string) (t : list effect) :
  conn_step FileFinished
    (s, mkConn r false (Some p) UpEnded (Ending []) NoRead None t) =
  Some (s, mkConn r false (Some p) UpEnded Renaming NoRead None
                  (t ++ [Rename (tmp_of p) p])).
Proof. reflexivity. Qed.

Lemma rename_step (s : Server) (r : ServerResponse) (p content : string)
    (t : list effect) :
  fs s !! tmp_of p = Some content ->
  conn_step RenameDone
    (s, mkConn r false (Some p) UpEnded Renaming NoRead None t) =
  Some (mkServer (<[p := content]> (delete (tmp_of p) (fs s))) (upstream_log s),
        mkConn r false (Some p) UpEnded (Renamed false) NoRead None t).
Proof. intros Htmp. cbn. unfold rename_file. by rewrite Htmp. Qed.

Lemma plain_url_http (u : URL) : plain_url u = true -> is_http (protocol u) = true.
Proof. unfold plain_url. rewrite !andb_true_iff. tauto. Qed.

Lemma body_status_not_0 (st : Z) : body_status st = true -> (st =? 0)%Z = false.
Proof. unfold body_status. rewrite !andb_true_iff. lia. Qed.

Section cache_scenario.
Context `{Platform}.

Lemma handle_manifest (req : IncomingMessage) (target : URL) (s : Server) :
  asks_for req target -> endsWith (pathname target) ".json" = true ->
  handle req s =
    let r := setHeader "Access-Control-Allow-Methods" "GET,OPTIONS"
               (setHeader "Access-Control-Allow-Origin" "*" new_res) in
    match fs s !! manifest_path target with
    | Some content =>
        (s, mkConn (setHeader "Content-Type" "application/json; charset=utf-8"
                      (setHeader "Content-Length" (pretty (String.length content))
                         (setHeader "X-Cache" "HIT" (set_statusCode 200 r))))
                   false (Some (manifest_path target)) NotAsked NoFile
                   (Reading content) None [])
    | None =>
        if is_http (protocol target) then
          (mkServer (fs s)
             (upstream_log s ++
                [mkUpstream (protocol target) (host target)
                   (pathname target +:+ search target)
                   (String.eqb (protocol target) "https:")]),
           mkConn r false (Some (manifest_path target)) Asked NoFile NoRead None [])
        else
          (s, mkConn (sendError false 400 "Invalid url param" r)
                     false (Some (manifest_path target)) NotAsked NoFile NoRead None [])
    end.
Proof.
  intros [Hm Hr (c & g & Hg & Hnew)] Hjson. unfold handle. rewrite Hm.
  destruct (request_target (url req)) as [path q]. simpl in Hr, Hg. subst path.
  change (negb (String.eqb "/proxy" "/proxy")) with false. cbv iota.
  rewrite Hg. unfold parse_URL at 1. rewrite Hnew. cbn [bind].
  assert (Hcp : cache_path target = Ok (Some (manifest_path target))).
  { unfold cache_path, hashed_string.
    rewrite (cache_key_parsed _ _ Hnew), Hjson.
    destruct (endsWith (pathname target) ".glb") eqn:Hglb; [|done].
    destruct (glb_not_json _ Hglb Hjson). }
  rewrite Hcp. cbn [bind]. rewrite Hjson. done.
Qed.

(** C9. The request is one of the proxy route, not a HEAD, for an
    http(s) manifest URL that is kept as written; its file is the one the
    cache directory has under the SHA-1 digest of "json:" followed by the
    URL without its "key" and "session" parameters.  With that file
    there, the answer is 200 with X-Cache: HIT, the JSON content type and
    the length of the file, the file is the body, and no upstream request
    is made.  Without it, the upstream is asked once, for the host, the
    path and the whole query of the URL, and, once it has answered and
    ended and the file is flushed and renamed, the file holds the body,
    which was also sent to the client with the upstream status; the same
    request, made again, is then answered from the file, with that body
    and no upstream request. *)
Theorem manifest_cached_then_served (req : IncomingMessage) (target : URL) :
  asks_for req target -> String.eqb (method req) "HEAD" = false ->
  plain_url target = true -> endsWith (pathname target) ".json" = true ->
  let normalizedURL :=
    URL_toString (searchParams_delete "session" (searchParams_delete "key" target)) in
  let file := path_join CACHE_DIR (sha1_hex ("json:" +:+ normalizedURL)) in
  (forall s content,
      fs s !! file = Some content ->
      exists c c',
        handle req s = (s, c) /\ upstream c = NotAsked /\
        statusCode (res c) = 200%Z /\
        assoc "X-Cache" (headers (res c)) = Some "HIT"%string /\
        assoc "Content-Type" (headers (res c)) =
          Some "application/json; charset=utf-8"%string /\
        assoc "Content-Length" (headers (res c)) = Some (pretty (String.length content)) /\
        conn_step ReadEnds (s, c) = Some (s, c') /\
        sent (res c') = content /\ ended (res c') = true) /\
  (forall s0 st ct chunks,
      fs s0 !! file = None -> body_status st = true ->
      exists s1 c1 s2 c2 c3 c4,
        handle req s0 = (s1, c1) /\ fs s1 = fs s0 /\
        upstream_log s1 =
          upstream_log s0 ++
            [mkUpstream (protocol target) (host target) (pathname target +:+ search target)
               (String.eqb (protocol target) "https:")] /\
        conn_run (miss_events st ct chunks) (s1, c1) = Some (s2, c2) /\
        fs s2 !! file = Some (concat_chunks chunks) /\
        upstream_log s2 = upstream_log s1 /\
        statusCode (res c2) = st /\ sent (res c2) = concat_chunks chunks /\
        ended (res c2) = true /\
        handle req s2 = (s2, c3) /\ upstream c3 = NotAsked /\
        assoc "X-Cache" (headers (res c3)) = Some "HIT"%string /\
        conn_step ReadEnds (s2, c3) = Some (s2, c4) /\
        sent (res c4) = concat_chunks chunks /\ ended (res c4) = true).
Proof.
  intros Hreq _ Hplain Hjson normalizedURL file.
  pose proof (plain_url_http target Hplain) as Hhttp.
  change file with (manifest_path target). clear file normalizedURL.
  assert (Hhit : forall s content,
      fs s !! manifest_path target = Some content ->
      exists c c',
        handle req s = (s, c) /\ upstream c = NotAsked /\
        statusCode (res c) = 200%Z /\
        assoc "X-Cache" (headers (res c)) = Some "HIT"%string /\
        assoc "Content-Type" (headers (res c)) =
          Some "application/json; charset=utf-8"%string /\
        assoc "Content-Length" (headers (res c)) = Some (pretty (String.length content)) /\
        conn_step ReadEnds (s, c) = Some (s, c') /\
        sent (res c') = content /\ ended (res c') = true).
  { intros s content Hsome.
    pose proof (handle_manifest req target s Hreq Hjson) as Hh.
    rewrite Hsome in Hh. cbn zeta in Hh.
    eexists _, _. split; [exact Hh|]. cbn. repeat split. }
  split; [exact Hhit|].
  intros s0 st ct chunks Hnone Hbody.
  pose proof (body_status_not_0 st Hbody) as Hst.
  pose proof (handle_manifest req target s0 Hreq Hjson) as Hh.
  rewrite Hnone, Hhttp in Hh. cbn zeta in Hh.
  set (p := manifest_path target) in *.
  set (r := setHeader "Access-Control-Allow-Methods" "GET,OPTIONS"
              (setHeader "Access-Control-Allow-Origin" "*" new_res)) in *.
  set (s1 := mkServer (fs s0) _) in Hh.
  set (c1 := mkConn r false (Some p) Asked NoFile NoRead None []) in Hh.
  set (r2 := res_end false EmptyString
               (mkRes (statusCode (pass_on st ct r)) (headers (pass_on st ct r))
                  (match chunks with [] => headersSent (pass_on st ct r) | _ => true end)
                  (sent (pass_on st ct r) +:+ concat_chunks chunks)
                  (ended (pass_on st ct r)) (destroyed (pass_on st ct r)))).
  set (t2 := (paired chunks ++ [FileEnd]) ++ [ClientEnd]).
  destruct (flush_phase chunks
              (mkServer (<[tmp_of p := EmptyString]> (fs s1)) (upstream_log s1))
              r2 p t2) as [fs' Hflush].
  cbn [upstream_log] in Hflush.
  assert (Hprefix :
    conn_run (UpstreamResponse st ct :: map UpstreamData chunks ++ [UpstreamEnd] ++
              repeat FileFlushed (length chunks) ++ [FileFinished]) (s1, c1) =
    Some (mkServer fs' (upstream_log s1),
          mkConn r2 false (Some p) UpEnded Renaming NoRead None
                 (t2 ++ [Rename (tmp_of p) p]))).
  { cbn [conn_run]. subst c1. rewrite response_step. cbn [mbind option_bind].
    rewrite conn_run_app, data_phase. cbn [mbind option_bind].
    cbn [app conn_run]. rewrite end_step. cbn [mbind option_bind].
    rewrite conn_run_app. fold r2. fold t2. rewrite Hflush.
    cbn [mbind option_bind conn_run]. by rewrite finished_step. }
  pose proof (miss_inv_run p _ _ _ (miss_inv_handle req s0 s1 c1 p Hh eq_refl eq_refl)
                Hprefix) as (_ & _ & _ & Hf).
  cbn [fileStream] in Hf. destruct Hf as (_ & _ & _ & Htmp).
  cbn [fs trace] in Htmp. subst t2.
  rewrite !received_app, received_paired in Htmp. cbn in Htmp.
  rewrite !app_nil_r in Htmp.
  set (s2 := mkServer (<[p := concat_chunks chunks]> (delete (tmp_of p) fs'))
               (upstream_log s1)).
  assert (Hfile : fs s2 !! p = Some (concat_chunks chunks))
    by (subst s2; cbn [fs]; by rewrite lookup_insert_eq).
  destruct (Hhit s2 _ Hfile) as (c3 & c4 & Hh3 & Hup3 & _ & Hx3 & _ & _ & Hstep3 & Hsent3 & Hend3).
  eexists s1, c1, s2, _, c3, c4. split; [exact Hh|]. split; [done|]. split; [done|].
  split.
  { unfold miss_events.
    replace (UpstreamResponse st ct :: map UpstreamData chunks ++ [UpstreamEnd] ++
             repeat FileFlushed (length chunks) ++ [FileFinished; RenameDone])
      with ((UpstreamResponse st ct :: map UpstreamData chunks ++ [UpstreamEnd] ++
             repeat FileFlushed (length chunks) ++ [FileFinished]) ++ [RenameDone]).
    2:{ cbn [app]. f_equal. rewrite <- app_assoc. cbn [app]. f_equal. f_equal.
        by rewrite <- app_assoc. }
    rewrite conn_run_app, Hprefix. cbn [mbind option_bind conn_run].
    rewrite (rename_step (mkServer fs' (upstream_log s1)) _ _ _ _ Htmp).
    reflexivity. }
  split; [exact Hfile|]. cbn [upstream_log res]. split; [done|].
  assert (Hr2 : statusCode r2 = st /\ sent r2 = concat_chunks chunks /\ ended r2 = true).
  { subst r2. unfold pass_on. rewrite Hst.
    destruct ct as [[|a t]|]; cbn; by rewrite append_nil_r. }
  destruct Hr2 as (? & ? & ?). by repeat split.
Qed.
End cache_scenario.

Lemma manifest_request_asks : asks_for manifest_request manifest_target.
Proof.
  split; [reflexivity|reflexivity|].
  exists "h", "ttps://tiles.example/root.json"%string. split; reflexivity.
Defined.

(** Witness of C9: the first request for root.json, its body in two
    chunks, and the same request again. *)
Lemma manifest_cached_then_served_witness :
  exists s1 c1 s2 c2 c3,
    handle (H := example_platform) manifest_request empty_server = (s1, c1) /\
    upstream_log s1 =
      [mkUpstream "https:" (Some "tiles.example"%string) "/root.json" true] /\
    conn_run (miss_events 200 (Some "application/json"%string) ["[1,"%string; "2]"%string])
      (s1, c1) = Some (s2, c2) /\
    fs s2 !! "tile-cache/sha1-of-json:https://tiles.example/root.json"%string =
      Some "[1,2]"%string /\
    sent (res c2) = "[1,2]"%string /\
    handle (H := example_platform) manifest_request s2 = (s2, c3) /\
    assoc "X-Cache" (headers (res c3)) = Some "HIT"%string /\
    upstream_log s2 = upstream_log s1.
Proof.
  destruct (manifest_cached_then_served (H := example_platform) manifest_request
              manifest_target manifest_request_asks eq_refl eq_refl eq_refl)
    as [_ Hmiss].
  destruct (Hmiss empty_server 200%Z (Some "application/json"%string)
              ["[1,"%string; "2]"%string] eq_refl eq_refl)
    as (s1 & c1 & s2 & c2 & c3 & c4 & Hh & _ & Hlog & Hrun & Hfile & Hlog2 & _ & Hsent & _ &
        Hh3 & _ & Hx & _).
  exists s1, c1, s2, c2, c3. repeat split; assumption.
Defined.

(** * More of the code *)

(** ** The form encoding, there and back *)

Lemma form_round_trip_char (c : ascii) (s : string) :
  form_decode (form_encode (String c s)) = String c (form_decode (form_encode s)).
Proof. destruct c as [[] [] [] [] [] [] [] []]; reflexivity. Qed.

Lemma form_decode_encode (s : string) : form_decode (form_encode s) = s.
Proof.
  induction s as [|c s IH]; [done|]. by rewrite form_round_trip_char, IH.
Qed.

Lemma form_encode_char_output (c : ascii) (s : string) :
  exists a, form_encode (String c s) = a +:+ form_encode s /\
            string_forall is_form_output a = true.
Proof.
  destruct c as [[] [] [] [] [] [] [] []];
    (eexists (String _ EmptyString); split; [reflexivity|reflexivity]) ||
    (eexists (String _ (String _ (String _ EmptyString))); split; [reflexivity|reflexivity]).
Qed.

Lemma string_forall_append (p : ascii -> bool) (a b : string) :
  string_forall p (a +:+ b) = string_forall p a && string_forall p b.
Proof.
  induction a as [|c a IH]; [done|]. rewrite append_cons. simpl.
  by rewrite IH, andb_assoc.
Qed.

Lemma form_encode_output (s : string) : string_forall is_form_output (form_encode s) = true.
Proof.
  induction s as [|c s IH]; [done|].
  destruct (form_encode_char_output c s) as (a & -> & Ha).
  by rewrite string_forall_append, Ha, IH.
Qed.

Lemma split_avoids (d : ascii) (a : string) :
  avoids (is_char d) a = true -> split d a = [a].
Proof.
  unfold avoids. induction a as [|c a IH]; [done|]. simpl.
  intros [Hc Ha]%andb_true_iff. unfold is_char in Hc. apply negb_true_iff in Hc.
  by rewrite Hc, (IH Ha).
Qed.

Lemma split_append (d : ascii) (a b : string) :
  avoids (is_char d) a = true -> split d (a +:+ String d b) = a :: split d b.
Proof.
  unfold avoids. induction a as [|c a IH].
  - intros _. rewrite append_nil_l. simpl. by rewrite Ascii.eqb_refl.
  - simpl. intros [Hc Ha]%andb_true_iff. unfold is_char in Hc. apply negb_true_iff in Hc.
    rewrite ?append_cons. simpl. by rewrite Hc, (IH Ha).
Qed.

Lemma split_join (d : ascii) (ws : list string) :
  ws <> [] -> Forall (fun w => avoids (is_char d) w = true) ws ->
  split d (join (String d EmptyString) ws) = ws.
Proof.
  induction ws as [|w ws IH]; [done|]. intros _ Hall.
  apply Forall_cons in Hall as [Hw Hws].
  destruct ws as [|w' ws]; [by apply split_avoids|].
  change (join (String d EmptyString) (w :: w' :: ws))
    with (w +:+ String d EmptyString +:+ join (String d EmptyString) (w' :: ws)).
  rewrite append_cons, append_nil_l, split_append by done.
  by rewrite IH.
Qed.

Lemma form_encode_avoids (d : ascii) (s : string) :
  is_form_output d = false -> avoids (is_char d) (form_encode s) = true.
Proof.
  intros Hd. pose proof (form_encode_output s) as Ho. revert Ho.
  unfold avoids. induction (form_encode s) as [|c e IH]; [done|]. simpl.
  intros [Hc He]%andb_true_iff. rewrite (IH He), andb_true_r.
  apply negb_true_iff. unfold is_char. destruct (Ascii.eqb_spec c d) as [->|]; [|done].
  congruence.
Qed.

Lemma avoids_single (d c : ascii) :
  c <> d -> avoids (is_char d) (String c EmptyString) = true.
Proof.
  intros Hne. unfold avoids, is_char. cbn [string_forall].
  by destruct (Ascii.eqb_spec c d).
Qed.

Lemma serialize_urlencoded_pairs (l : list (string * string)) :
  serialize_urlencoded l = join "&" (map encode_pair l).
Proof. reflexivity. Qed.

Lemma parse_encode_pair (p : string * string) : parse_pair (encode_pair p) = p.
Proof.
  destruct p as [n v]. unfold parse_pair, encode_pair. cbn [fst snd].
  change ("="%string +:+ form_encode v) with (String "=" (form_encode v)).
  rewrite break_append; [|by apply form_encode_avoids|reflexivity].
  by rewrite !form_decode_encode.
Qed.

Lemma encode_pair_not_empty (p : string * string) : encode_pair p <> EmptyString.
Proof.
  unfold encode_pair. intros Heq. apply (f_equal String.length) in Heq.
  rewrite length_append in Heq. simpl in Heq. lia.
Qed.

Lemma encode_pair_avoids (d : ascii) (p : string * string) :
  is_form_output d = false -> d <> "=" ->
  avoids (is_char d) (encode_pair p) = true.
Proof.
  intros Hd He. unfold encode_pair.
  rewrite !avoids_append, !form_encode_avoids by done.
  by rewrite avoids_single.
Qed.

Lemma avoids_join (d : ascii) (sep : string) (ws : list string) :
  avoids (is_char d) sep = true ->
  Forall (fun w => avoids (is_char d) w = true) ws ->
  avoids (is_char d) (join sep ws) = true.
Proof.
  intros Hsep. induction ws as [|w ws IH]; [done|]. intros Hall.
  apply Forall_cons in Hall as [Hw Hws].
  destruct ws as [|w' ws]; [done|].
  change (join sep (w :: w' :: ws)) with (w +:+ sep +:+ join sep (w' :: ws)).
  by rewrite !avoids_append, Hw, Hsep, IH.
Qed.

(** What the serializer writes holds no "#": it can stand as a query. *)
Lemma serialize_urlencoded_avoids (d : ascii) (l : list (string * string)) :
  is_form_output d = false -> d <> "=" -> d <> "&" ->
  avoids (is_char d) (serialize_urlencoded l) = true.
Proof.
  intros Hd He Ha. rewrite serialize_urlencoded_pairs. apply avoids_join.
  - by apply avoids_single.
  - apply Forall_map, Forall_forall. intros p _. by apply encode_pair_avoids.
Qed.


Lemma filter_all {A : Type} (P : A -> Prop) `{forall x, Decision (P x)} (l : list A) :
  Forall P l -> filter P l = l.
Proof.
  induction 1 as [|x l Hx _ IH]; [done|]. by rewrite filter_cons_True, IH.
Qed.

(** The parser reads back the list the serializer wrote. *)
Lemma parse_serialize_urlencoded (l : list (string * string)) :
  parse_urlencoded (serialize_urlencoded l) = l.
Proof.
  unfold parse_urlencoded. rewrite serialize_urlencoded_pairs.
  destruct l as [|p l]; [done|].
  rewrite split_join.
  - rewrite filter_all.
    + rewrite <- list_fmap_compose. rewrite <- (list_fmap_id (p :: l)) at 2.
      apply list_fmap_ext. intros i x _. apply parse_encode_pair.
    + apply Forall_map, Forall_forall. intros x _. apply encode_pair_not_empty.
  - done.
  - apply Forall_map, Forall_forall. intros x _. by apply encode_pair_avoids.
Qed.

(** ** URLSearchParams *)

Lemma params_get_delete_ne (m n : string) (l : list (string * string)) :
  m <> n -> params_get m (params_delete n l) = params_get m l.
Proof.
  intros Hne. unfold params_delete. induction l as [|[k v] l IH]; [done|].
  destruct (decide (k = n)) as [->|Hk].
  - rewrite filter_cons_False by (simpl; auto). simpl.
    destruct (String.eqb_spec n m); [congruence|done].
  - rewrite filter_cons_True by done. simpl. by rewrite IH.
Qed.

Lemma params_get_set_eq (n v : string) (l : list (string * string)) :
  params_get n (params_set n v l) = Some v.
Proof.
  induction l as [|[k x] l IH]; simpl.
  - by rewrite String.eqb_refl.
  - destruct (String.eqb k n) eqn:Hk; simpl; by rewrite Hk.
Qed.

Lemma params_get_set_ne (m n v : string) (l : list (string * string)) :
  m <> n -> params_get m (params_set n v l) = params_get m l.
Proof.
  intros Hne. induction l as [|[k x] l IH]; simpl.
  - destruct (String.eqb_spec n m); [congruence|done].
  - destruct (String.eqb_spec k n) as [->|Hk]; simpl.
    + destruct (String.eqb_spec n m); [congruence|]. by apply params_get_delete_ne.
    + by rewrite IH.
Qed.

Lemma params_count_delete (n : string) (l : list (string * string)) :
  params_count n (params_delete n l) = 0.
Proof.
  unfold params_count, params_delete. induction l as [|[k v] l IH]; [done|].
  destruct (decide (k = n)) as [->|Hk].
  - by rewrite filter_cons_False by (simpl; auto).
  - rewrite filter_cons_True by done. by rewrite filter_cons_False by done.
Qed.

Lemma params_count_delete_ne (m n : string) (l : list (string * string)) :
  m <> n -> params_count m (params_delete n l) = params_count m l.
Proof.
  intros Hne. unfold params_count, params_delete. induction l as [|[k v] l IH]; [done|].
  destruct (decide (k = n)) as [->|Hk].
  - rewrite filter_cons_False by (simpl; auto).
    by rewrite (filter_cons_False _ (n, v)) by (simpl; congruence).
  - rewrite filter_cons_True by done.
    destruct (decide (k = m)) as [->|Hm].
    + rewrite !filter_cons_True by done. simpl. by rewrite IH.
    + by rewrite !filter_cons_False by done.
Qed.

Lemma params_count_set_eq (n v : string) (l : list (string * string)) :
  params_count n (params_set n v l) = 1.
Proof.
  induction l as [|[k x] l IH]; simpl.
  - unfold params_count. by rewrite filter_cons_True.
  - destruct (String.eqb_spec k n) as [->|Hk].
    + unfold params_count. rewrite filter_cons_True by done. simpl.
      f_equal. apply params_count_delete.
    + unfold params_count in *. by rewrite filter_cons_False by done.
Qed.

Lemma params_count_set_ne (m n v : string) (l : list (string * string)) :
  m <> n -> params_count m (params_set n v l) = params_count m l.
Proof.
  intros Hne. induction l as [|[k x] l IH]; simpl.
  - unfold params_count. by rewrite filter_cons_False by (simpl; congruence).
  - destruct (String.eqb_spec k n) as [->|Hk].
    + unfold params_count. rewrite !(filter_cons_False _ (n, _)) by (simpl; congruence).
      by apply params_count_delete_ne.
    + unfold params_count in *. destruct (decide (k = m)) as [->|Hm].
      * rewrite !filter_cons_True by done. simpl. by rewrite IH.
      * by rewrite !filter_cons_False by done.
Qed.





(** ** URLs written through their parameters *)

Lemma update_query_wf (u : URL) (l : list (string * string)) :
  wf_URL u -> wf_URL (update_query u l).
Proof.
  intros [Hs Hh Hp Hhttp _ _]. split; simpl; try done.
  - destruct l as [|p l]; [done|]. by apply serialize_urlencoded_avoids.
  - destruct l as [|p l]; [done|]. by rewrite parse_serialize_urlencoded.
Qed.

Lemma searchParams_set_wf (n v : string) (u : URL) :
  wf_URL u -> wf_URL (searchParams_set n v u).
Proof. apply update_query_wf. Qed.





(** ** What [fetch] asks for *)




(** ** The proxy, step by step *)

Lemma assoc_set_eq {A : Type} (k : string) (v : A) (l : list (string * A)) :
  assoc k (assoc_set k v l) = Some v.
Proof.
  induction l as [|[k' x] l IH]; simpl.
  - by rewrite String.eqb_refl.
  - destruct (String.eqb k' k) eqn:Hk; simpl; by rewrite Hk.
Qed.

Lemma assoc_set_ne {A : Type} (k k' : string) (v : A) (l : list (string * A)) :
  k <> k' -> assoc k (assoc_set k' v l) = assoc k l.
Proof.
  intros Hne. induction l as [|[j x] l IH]; simpl.
  - destruct (String.eqb_spec k' k); [congruence|done].
  - destruct (String.eqb_spec j k') as [->|Hj]; simpl.
    + destruct (String.eqb_spec k' k); [congruence|done].
    + by rewrite IH.
Qed.

(** *** The steps, event by event *)

Lemma conn_step_disconnect (s : Server) (c : Conn) :
  conn_step ClientDisconnects (s, c) = Some (s, set_client_gone c).
Proof. cbn. by destruct (upstream c). Qed.

Lemma conn_step_flushed (s : Server) (c : Conn) :
  conn_step FileFlushed (s, c) =
  match fileStream c, cachePath c with
  | Writing (chunk :: pending), Some p =>
      Some (mkServer (append_file (tmp_of p) chunk (fs s)) (upstream_log s),
            set_fileStream (Writing pending) c)
  | Ending (chunk :: pending), Some p =>
      Some (mkServer (append_file (tmp_of p) chunk (fs s)) (upstream_log s),
            set_fileStream (Ending pending) c)
  | _, _ => None
  end.
Proof. cbn. by destruct (upstream c). Qed.

Lemma conn_step_finished (s : Server) (c : Conn) :
  conn_step FileFinished (s, c) =
  match fileStream c, cachePath c with
  | Ending [], Some p => Some (s, log [Rename (tmp_of p) p] (set_fileStream Renaming c))
  | _, _ => None
  end.
Proof. cbn. by destruct (upstream c). Qed.

Lemma conn_step_renamed (s : Server) (c : Conn) :
  conn_step RenameDone (s, c) =
  match fileStream c, cachePath c with
  | Renaming, Some p =>
      match rename_file (tmp_of p) p (fs s) with
      | Some fs' => Some (mkServer fs' (upstream_log s), set_fileStream (Renamed false) c)
      | None => Some (s, set_fileStream (Renamed true) c)
      end
  | _, _ => None
  end.
Proof. cbn. by destruct (upstream c). Qed.

Lemma conn_step_read_ends (s : Server) (c : Conn) :
  conn_step ReadEnds (s, c) =
  match readStream c with
  | Reading content =>
      Some (s, set_readStream ReadDone
                 (set_res (res_end (client_gone c) content (res c)) c))
  | _ => None
  end.
Proof. cbn. by destruct (upstream c). Qed.

Lemma conn_step_read_error (s : Server) (c : Conn) :
  conn_step ReadError (s, c) =
  match readStream c with
  | Reading _ =>
      Some (s, set_readStream ReadDone
                 (if headersSent (res c) then set_res (res_destroy (res c)) c
                  else set_res (sendError (client_gone c) 500 "Read cache error" (res c)) c))
  | _ => None
  end.
Proof. cbn. by destruct (upstream c). Qed.

Lemma conn_step_request_error (refused : bool) (s : Server) (c : Conn) :
  conn_step (RequestError refused) (s, c) =
  match upstream c with
  | Asked | Responding =>
      Some (s, set_upstream UpFailed
                 (fail_response
                    (if refused
                     then "Upstream request error: cannot reach Google (connection refused)"
                     else "Upstream request error") c))
  | _ => None
  end.
Proof. cbn. by destruct (upstream c). Qed.

(** *** What the handler returns *)

Section handler.
Context `{Platform}.

(** The connection as [handle] returns it. *)
Lemma handle_shape (req : IncomingMessage) (s0 s1 : Server) (c1 : Conn) :
  handle req s0 = (s1, c1) ->
  fs s1 = fs s0 /\ fileStream c1 = NoFile /\ trace c1 = [] /\ client_gone c1 = false /\
  cors (res c1) /\ destroyed (res c1) = false /\
  match upstream c1 with
  | Asked =>
      readStream c1 = NoRead /\ uncaught c1 = None /\
      headersSent (res c1) = false /\ sent (res c1) = EmptyString /\
      ended (res c1) = false /\
      match cachePath c1 with
      | Some p => fs s0 !! p = None
      | None => True
      end
  | NotAsked =>
      s1 = s0 /\
      match readStream c1 with
      | Reading content =>
          exists p, cachePath c1 = Some p /\ fs s0 !! p = Some content
      | _ => True
      end
  | _ => False
  end.
Proof.
  unfold handle.
  destruct (String.eqb (method req) "OPTIONS"); [intros [= <- <-]; by repeat split|].
  destruct (request_target (url req)) as [path q].
  destruct (negb (String.eqb path "/proxy")); [intros [= <- <-]; by repeat split|].
  destruct (params_get "url" (parse_urlencoded (default EmptyString q)))
    as [[|a g]|]; [intros [= <- <-]; by repeat split| |intros [= <- <-]; by repeat split].
  destruct (parse_URL (String a g)) as [target|e]; cbn [bind];
    [|intros [= <- <-]; by repeat split].
  destruct (cache_path target) as [cp|e]; cbn [bind]; [|intros [= <- <-]; by repeat split].
  destruct (match cp with Some p => fs s0 !! p | None => None end) as [content|] eqn:Hhit.
  - intros [= <- <-]. cbn. repeat split; try done.
    + by destruct (endsWith (pathname target) ".json").
    + by destruct (endsWith (pathname target) ".json").
    + by destruct (endsWith (pathname target) ".json").
    + destruct cp as [p|]; [|done]. by exists p.
  - destruct (is_http (protocol target)); intros [= <- <-]; cbn; repeat split; try done.
    by destruct cp.
Qed.

(** The handler on a request of the proxy route for [target]. *)
Lemma handle_asks_for (req : IncomingMessage) (target : URL) (cp : option string)
    (s : Server) :
  asks_for req target -> cache_path target = Ok cp ->
  handle req s =
    match cp ≫= (fs s !!.) with
    | Some content =>
        let r := setHeader "Content-Length" (pretty (String.length content))
                   (setHeader "X-Cache" "HIT" (set_statusCode 200 cors_res)) in
        (s, mkConn (if endsWith (pathname target) ".json"
                    then setHeader "Content-Type" "application/json; charset=utf-8" r
                    else r)
                   false cp NotAsked NoFile (Reading content) None [])
    | None =>
        if is_http (protocol target) then
          (mkServer (fs s)
             (upstream_log s ++
                [mkUpstream (protocol target) (host target)
                   (pathname target +:+ search target)
                   (String.eqb (protocol target) "https:")]),
           mkConn cors_res false cp Asked NoFile NoRead None [])
        else
          (s, mkConn (sendError false 400 "Invalid url param" cors_res)
                     false cp NotAsked NoFile NoRead None [])
    end.
Proof.
  intros [Hm Hr (c & g & Hg & Hnew)] Hcp. unfold handle. rewrite Hm.
  destruct (request_target (url req)) as [path q]. simpl in Hr, Hg. subst path.
  change (negb (String.eqb "/proxy" "/proxy")) with false. cbv iota.
  rewrite Hg. unfold parse_URL at 1. rewrite Hnew. cbn [bind].
  rewrite Hcp. cbn [bind]. by destruct cp.
Qed.

(** The cache path of a parsed target. *)
Lemma cache_path_parsed (s : string) (t : URL) :
  new_URL s = Some t ->
  cache_path t =
    Ok (if endsWith (pathname t) ".glb"
        then Some (urlToCachePath (URL_toString (normalized t)))
        else if endsWith (pathname t) ".json"
        then Some (urlToCachePath ("json:" +:+ URL_toString (normalized t)))
        else None).
Proof.
  intros Hs. unfold cache_path, hashed_string. rewrite (cache_key_parsed s t Hs).
  destruct (endsWith (pathname t) ".glb"); [done|].
  by destruct (endsWith (pathname t) ".json").
Qed.

End handler.

(** *** The files a connection touches *)

Lemma conn_step_frame (e : conn_event) (s s' : Server) (c c' : Conn) :
  conn_step e (s, c) = Some (s', c') ->
  cachePath c' = cachePath c /\ upstream_log s' = upstream_log s /\
  (cachePath c = None -> fs s' = fs s) /\
  (forall p q, cachePath c = Some p -> q <> p -> q <> tmp_of p -> fs s' !! q = fs s !! q) /\
  (upstream c = NotAsked -> fileStream c = NoFile ->
   upstream c' = NotAsked /\ fileStream c' = NoFile /\ fs s' = fs s).
Proof.
  destruct e as [st ct|chunk| | |refused| | | | | |].
  - cbn [conn_step]. destruct (upstream c) eqn:Hu; try done.
    cbn [set_upstream set_res cachePath].
    destruct (cachePath c) as [p|] eqn:Hp; intros [= <- <-]; cbn; rewrite ?Hp;
      repeat split; try done.
    intros p' q [= <-] Hq Hq'. by rewrite lookup_insert_ne.
  - cbn [conn_step]. destruct (upstream c) eqn:Hu; try done. intros [= <- <-].
    destruct (fileStream c); cbn; repeat split; done.
  - cbn [conn_step]. destruct (upstream c) eqn:Hu; try done. intros [= <- <-].
    destruct (fileStream c); cbn; repeat split; done.
  - cbn [conn_step]. destruct (upstream c) eqn:Hu; try done. intros [= <- <-].
    unfold fail_response.
    destruct (fileStream c); destruct (headersSent _); cbn; repeat split; done.
  - rewrite conn_step_request_error.
    destruct (upstream c) eqn:Hu; try done; intros [= <- <-];
      unfold fail_response; destruct (headersSent _); cbn; repeat split; done.
  - rewrite conn_step_disconnect. intros [= <- <-]. cbn. repeat split; done.
  - rewrite conn_step_flushed.
    destruct (fileStream c) as [|[|chunk pending]|[|chunk pending]| | |] eqn:Hf; try done;
      destruct (cachePath c) as [p|] eqn:Hp; try done; intros [= <- <-]; cbn;
      (repeat split; try done;
       intros p' q [= <-] Hq Hq'; unfold append_file; by rewrite lookup_insert_ne).
  - rewrite conn_step_finished.
    destruct (fileStream c) as [|pending|[|chunk pending]| | |] eqn:Hf; try done;
      destruct (cachePath c) as [p|] eqn:Hp; try done; intros [= <- <-]; cbn;
      repeat split; done.
  - rewrite conn_step_renamed.
    destruct (fileStream c) eqn:Hf; try done.
    destruct (cachePath c) as [p|] eqn:Hp; try done.
    unfold rename_file. destruct (fs s !! tmp_of p) as [content|] eqn:Htmp; cbn;
      intros [= <- <-]; cbn; repeat split; try done.
    intros p' q [= <-] Hq Hq'. rewrite lookup_insert_ne by done.
    by rewrite lookup_delete_ne.
  - rewrite conn_step_read_ends. destruct (readStream c); try done.
    intros [= <- <-]. cbn. repeat split; done.
  - rewrite conn_step_read_error. destruct (readStream c); try done.
    intros [= <- <-]. destruct (headersSent _); cbn; repeat split; done.
Qed.

Lemma conn_run_frame (es : list conn_event) (s s' : Server) (c c' : Conn) :
  conn_run es (s, c) = Some (s', c') ->
  cachePath c' = cachePath c /\ upstream_log s' = upstream_log s /\
  (cachePath c = None -> fs s' = fs s) /\
  (forall p q, cachePath c = Some p -> q <> p -> q <> tmp_of p -> fs s' !! q = fs s !! q) /\
  (upstream c = NotAsked -> fileStream c = NoFile ->
   upstream c' = NotAsked /\ fileStream c' = NoFile /\ fs s' = fs s).
Proof.
  revert s c. induction es as [|e es IH]; intros s c; cbn [conn_run].
  - intros [= <- <-]. repeat split; done.
  - destruct (conn_step e (s, c)) as [[s1 c1]|] eqn:Hstep; [|done].
    cbn [mbind option_bind]. intros Hrun.
    destruct (conn_step_frame e s s1 c c1 Hstep) as (Hcp & Hlog & Hnone & Hother & Hhit).
    destruct (IH s1 c1 Hrun) as (Hcp' & Hlog' & Hnone' & Hother' & Hhit').
    split; [congruence|]. split; [congruence|]. split; [|split].
    + intros Hc. rewrite Hnone' by congruence. by apply Hnone.
    + intros p q Hc Hq Hq'. rewrite (Hother' p q) by congruence. by apply (Hother p).
    + intros Hu Hf. destruct (Hhit Hu Hf) as (Hu1 & Hf1 & Hfs1).
      destruct (Hhit' Hu1 Hf1) as (? & ? & ?). repeat split; congruence.
Qed.

Section files.
Context `{Platform}.

(** X13. A connection writes under its cache path and its temporary path
    only.  Whatever the request and the events that follow: a request
    with no cache path (a URL that ends neither in ".glb" nor in
    ".json") and a request that asked nothing upstream (a hit, a
    rejection) leave the disk as it was; a file that exists keeps its
    content, unless it stands under the temporary path of the connection;
    and every path other than the two has what it had.  No event makes an
    upstream request. *)
Theorem connection_keeps_other_files (req : IncomingMessage) (s0 s1 : Server) (c1 : Conn)
    (es : list conn_event) (s : Server) (c : Conn) :
  handle req s0 = (s1, c1) -> conn_run es (s1, c1) = Some (s, c) ->
  (cachePath c1 = None -> fs s = fs s0) /\
  (upstream c1 = NotAsked -> fs s = fs s0 /\ upstream_log s = upstream_log s0) /\
  (forall q content,
      fs s0 !! q = Some content -> (forall p, cachePath c1 = Some p -> q <> tmp_of p) ->
      fs s !! q = Some content) /\
  (forall p q, cachePath c1 = Some p -> q <> p -> q <> tmp_of p -> fs s !! q = fs s0 !! q) /\
  upstream_log s = upstream_log s1.
Proof.
  intros Hh Hrun.
  destruct (handle_shape req s0 s1 c1 Hh) as (Hfs & Hf & _ & _ & _ & _ & Hup).
  destruct (conn_run_frame es s1 s c1 c Hrun) as (Hcp & Hlog & Hnone & Hother & Hhit).
  assert (Hquiet : upstream c1 = NotAsked -> fs s = fs s0 /\ upstream_log s = upstream_log s0).
  { intros Hu. destruct (Hhit Hu Hf) as (_ & _ & ->). rewrite Hu in Hup.
    destruct Hup as [-> _]. by split. }
  split; [intros Hc; rewrite Hnone by done; done|]. split; [done|].
  split; [|split; [|done]].
  - intros q content Hq Htmp.
    destruct (cachePath c1) as [p|] eqn:Hc; [|by rewrite Hnone, Hfs].
    destruct (decide (q = p)) as [->|Hne].
    + destruct (upstream c1) eqn:Hu; try done.
      * destruct (Hquiet eq_refl) as [-> _]. done.
      * destruct Hup as (_ & _ & _ & _ & _ & Hmiss). congruence.
    + rewrite (Hother p q) by (try done; by apply Htmp). by rewrite Hfs.
  - intros p q Hc Hq Hq'. rewrite (Hother p q) by done. by rewrite Hfs.
Qed.

End files.

(** *** The headers of lines 46-47 *)

Lemma cors_setHeader (n v : string) (r : ServerResponse) :
  n <> "Access-Control-Allow-Origin"%string -> n <> "Access-Control-Allow-Methods"%string ->
  cors r -> cors (setHeader n v r).
Proof.
  intros H1 H2 [Ho Hm]. unfold cors, setHeader. cbn [headers].
  by rewrite !assoc_set_ne by done.
Qed.

Lemma cors_sendError (g : bool) (st : Z) (m : string) (r : ServerResponse) :
  cors r -> cors (sendError g st m r).
Proof. intros [Ho Hm]. unfold cors, sendError. cbn. by rewrite !assoc_set_ne by done. Qed.

Lemma cors_pass_on (st : Z) (ct : option string) (r : ServerResponse) :
  cors r -> cors (pass_on st ct r).
Proof.
  intros Hr. unfold pass_on. destruct ct as [[|a t]|]; try done.
  by apply cors_setHeader.
Qed.

Lemma cors_step (e : conn_event) (s s' : Server) (c c' : Conn) :
  cors (res c) -> conn_step e (s, c) = Some (s', c') -> cors (res c').
Proof.
  intros Hc. destruct e as [st ct|chunk| | |refused| | | | | |].
  - cbn [conn_step]. destruct (upstream c) eqn:Hu; try done.
    cbn [set_upstream set_res cachePath].
    destruct (cachePath c) as [p|] eqn:Hp; intros [= <- <-]; cbn; by apply cors_pass_on.
  - cbn [conn_step]. destruct (upstream c) eqn:Hu; try done. intros [= <- <-].
    by destruct (fileStream c).
  - cbn [conn_step]. destruct (upstream c) eqn:Hu; try done. intros [= <- <-].
    by destruct (fileStream c).
  - cbn [conn_step]. destruct (upstream c) eqn:Hu; try done. intros [= <- <-].
    unfold fail_response.
    destruct (fileStream c); destruct (headersSent _) eqn:Hs; cbn; rewrite ?Hs; cbn;
      try done; by apply cors_sendError.
  - rewrite conn_step_request_error.
    destruct (upstream c) eqn:Hu; try done; intros [= <- <-];
      unfold fail_response; destruct (headersSent _); cbn; try done;
      by apply cors_sendError.
  - rewrite conn_step_disconnect. by intros [= <- <-].
  - rewrite conn_step_flushed.
    destruct (fileStream c) as [|[|chunk pending]|[|chunk pending]| | |]; try done;
      destruct (cachePath c); try done; by intros [= <- <-].
  - rewrite conn_step_finished.
    destruct (fileStream c) as [|pending|[|chunk pending]| | |]; try done;
      destruct (cachePath c); try done; by intros [= <- <-].
  - rewrite conn_step_renamed.
    destruct (fileStream c); try done. destruct (cachePath c); try done.
    destruct (rename_file _ _ _); by intros [= <- <-].
  - rewrite conn_step_read_ends. destruct (readStream c); try done. by intros [= <- <-].
  - rewrite conn_step_read_error. destruct (readStream c); try done.
    intros [= <- <-]. destruct (headersSent _); cbn; try done. by apply cors_sendError.
Qed.

Section headers.
Context `{Platform}.

(** X14. Every response carries the two headers of lines 46-47, with the
    values set there: the answer to OPTIONS, the rejections, a hit, what
    is passed on from the upstream and the 502 and 500 answers, whatever
    content type the upstream names. *)
Theorem every_response_has_cors_headers (req : IncomingMessage) (s0 : Server)
    (es : list conn_event) (s : Server) (c : Conn) :
  conn_run es (handle req s0) = Some (s, c) ->
  assoc "Access-Control-Allow-Origin" (headers (res c)) = Some "*"%string /\
  assoc "Access-Control-Allow-Methods" (headers (res c)) = Some "GET,OPTIONS"%string.
Proof.
  destruct (handle req s0) as [s1 c1] eqn:Hh.
  destruct (handle_shape req s0 s1 c1 Hh) as (_ & _ & _ & _ & Hc & _).
  clear Hh. revert s1 c1 Hc. induction es as [|e es IH]; intros s1 c1 Hc; cbn [conn_run].
  - by intros [= <- <-].
  - destruct (conn_step e (s1, c1)) as [[s2 c2]|] eqn:Hstep; [|done].
    cbn [mbind option_bind]. apply IH. by eapply cors_step.
Qed.

End headers.

(** Witness: an upstream that names the headers' own content type. *)
Lemma every_response_has_cors_headers_witness :
  exists s c,
    conn_run [UpstreamResponse 403 (Some "text/html"%string); UpstreamData "no";
              UpstreamError]
      (handle (H := example_platform) glb_request empty_server) = Some (s, c) /\
    assoc "Access-Control-Allow-Origin" (headers (res c)) = Some "*"%string.
Proof.
  set (sc0 := handle (H := example_platform) glb_request empty_server).
  set (es := [UpstreamResponse 403 (Some "text/html"%string); UpstreamData "no";
              UpstreamError]).
  set (sc := default sc0 (conn_run es sc0)).
  assert (Hrun : conn_run es sc0 = Some (fst sc, snd sc)) by (vm_compute; reflexivity).
  exists (fst sc), (snd sc). split; [exact Hrun|].
  exact (proj1 (every_response_has_cors_headers (H := example_platform) glb_request
                  empty_server es (fst sc) (snd sc) Hrun)).
Defined.

(** *** What the client is sent *)

Lemma concat_chunks_snoc (l : list string) (chunk : string) :
  concat_chunks (l ++ [chunk]) = concat_chunks l +:+ chunk.
Proof. by rewrite concat_chunks_app, concat_chunks_single. Qed.

Lemma relay_inv_fail (seen : list string) (msg : string) (c : Conn) :
  readStream c = NoRead -> is_upstream_error_text msg ->
  ended (res c) = false ->
  (headersSent (res c) = false -> seen = [] /\ sent (res c) = EmptyString) ->
  (client_gone c = false -> sent (res c) = concat_chunks seen) ->
  relay_inv seen (set_upstream UpFailed (fail_response msg c)).
Proof.
  intros Hr Hmsg He Hh Hs. unfold relay_inv, fail_response.
  destruct (headersSent (res c)) eqn:Hsent; cbn; (split; [done|]); intros Hg.
  - left. by rewrite He, Hs.
  - right. destruct (Hh eq_refl) as [-> Hempty]. rewrite Hg, Hempty.
    rewrite assoc_set_eq. by repeat split.
Qed.

Lemma relay_inv_step (seen : list string) (e : conn_event) (s s' : Server) (c c' : Conn) :
  relay_inv seen c -> conn_step e (s, c) = Some (s', c') ->
  relay_inv (seen ++ chunk_of e) c'.
Proof.
  intros [Hr Hinv].
  destruct e as [st ct|chunk| | |refused| | | | | |]; cbn [chunk_of]; rewrite ?app_nil_r.
  - cbn [conn_step]. destruct (upstream c) eqn:Hu; try done.
    destruct Hinv as (-> & Hh & Hs & He).
    cbn [set_upstream set_res cachePath].
    assert (Hp : headersSent (pass_on st ct (res c)) = false /\
                 sent (pass_on st ct (res c)) = EmptyString /\
                 ended (pass_on st ct (res c)) = false).
    { unfold pass_on. by destruct ct as [[|a t]|]. }
    destruct Hp as (Hh' & Hs' & He').
    destruct (cachePath c); intros [= <- <-]; unfold relay_inv; cbn; rewrite Hs';
      repeat split; done.
  - cbn [conn_step]. destruct (upstream c) eqn:Hu; try done. intros [= <- <-].
    destruct Hinv as (Hh & He & Hs).
    assert (Hgoal : forall c0, readStream c0 = NoRead -> upstream c0 = Responding ->
              res c0 = res c -> client_gone c0 = client_gone c ->
              relay_inv (seen ++ [chunk])
                (log [ClientWrite chunk]
                   (set_res (res_write (client_gone c0) chunk (res c0)) c0))).
    { intros c0 Hr0 Hu0 Hres Hg. unfold relay_inv. cbn. rewrite Hu0, Hres, Hg.
      repeat split; try done.
      intros Hgone. rewrite Hgone. rewrite concat_chunks_snoc. by rewrite Hs. }
    destruct (fileStream c); by apply Hgoal.
  - cbn [conn_step]. destruct (upstream c) eqn:Hu; try done. intros [= <- <-].
    destruct Hinv as (Hh & He & Hs).
    assert (Hgoal : forall c0, readStream c0 = NoRead ->
              res c0 = res c -> client_gone c0 = client_gone c ->
              relay_inv seen
                (set_upstream UpEnded
                   (log [ClientEnd]
                      (set_res (res_end (client_gone c0) EmptyString (res c0)) c0)))).
    { intros c0 Hr0 Hres Hg. unfold relay_inv. cbn. rewrite Hres, Hg.
      repeat split; try done.
      intros Hgone. rewrite Hgone, append_nil_r. by apply Hs. }
    destruct (fileStream c); by apply Hgoal.
  - cbn [conn_step]. destruct (upstream c) eqn:Hu; try done. intros [= <- <-].
    destruct Hinv as (Hh & He & Hs).
    destruct (fileStream c); apply relay_inv_fail; cbn; try done; by left.
  - rewrite conn_step_request_error.
    assert (Hmsg : is_upstream_error_text
              (if refused
               then "Upstream request error: cannot reach Google (connection refused)"
               else "Upstream request error")).
    { destruct refused; [by right; right|by right; left]. }
    destruct (upstream c) eqn:Hu; try done; intros [= <- <-].
    + destruct Hinv as (-> & Hh & Hs & He). apply relay_inv_fail; try done.
    + destruct Hinv as (Hh & He & Hs). by apply relay_inv_fail.
  - rewrite conn_step_disconnect. intros [= <- <-]. unfold relay_inv. cbn.
    split; [done|]. destruct (upstream c); try done.
    + destruct Hinv as (Hh & He & Hs). split; [exact Hh|]. split; [exact He|done].
    + destruct Hinv as [He Hs]. split; [exact He|done].
  - rewrite conn_step_flushed.
    destruct (fileStream c) as [|[|chunk pending]|[|chunk pending]| | |]; try done;
      destruct (cachePath c); try done; by intros [= <- <-].
  - rewrite conn_step_finished.
    destruct (fileStream c) as [|pending|[|chunk pending]| | |]; try done;
      destruct (cachePath c); try done; by intros [= <- <-].
  - rewrite conn_step_renamed.
    destruct (fileStream c); try done. destruct (cachePath c); try done.
    destruct (rename_file _ _ _); by intros [= <- <-].
  - rewrite conn_step_read_ends. by rewrite Hr.
  - rewrite conn_step_read_error. by rewrite Hr.
Qed.

Lemma relay_inv_run (seen : list string) (es : list conn_event) (s s' : Server)
    (c c' : Conn) :
  relay_inv seen c -> conn_run es (s, c) = Some (s', c') ->
  relay_inv (seen ++ upstream_chunks es) c'.
Proof.
  revert seen s c. induction es as [|e es IH]; intros seen s c Hinv; cbn [conn_run].
  - intros [= <- <-]. unfold upstream_chunks. cbn. by rewrite app_nil_r.
  - destruct (conn_step e (s, c)) as [[s1 c1]|] eqn:Hstep; [|done].
    cbn [mbind option_bind]. intros Hrun.
    unfold upstream_chunks. cbn [flat_map]. rewrite app_assoc.
    apply (IH _ s1 c1); [|done]. by eapply relay_inv_step.
Qed.

Section relay.
Context `{Platform}.

(** X12. What a connected client is sent on a cache miss, and on any
    request other than a HEAD that is passed on upstream, whatever the
    order of the events: the chunks the upstream delivered, in their
    order and nothing else; or, when the upstream failed before its first
    chunk, the 502 answer with its plain text.  An error text is never
    added to a body that has begun, and no chunk is dropped, repeated or
    altered. *)
Theorem upstream_body_relayed_unaltered (req : IncomingMessage) (s0 s1 : Server)
    (c1 : Conn) (es : list conn_event) (s : Server) (c : Conn) :
  String.eqb (method req) "HEAD" = false ->
  handle req s0 = (s1, c1) -> upstream c1 = Asked ->
  conn_run es (s1, c1) = Some (s, c) -> client_gone c = false ->
  sent (res c) = concat_chunks (upstream_chunks es) \/
  (upstream_chunks es = [] /\ upstream c = UpFailed /\
   statusCode (res c) = 502%Z /\ ended (res c) = true /\
   assoc "Content-Type" (headers (res c)) = Some "text/plain; charset=utf-8"%string /\
   is_upstream_error_text (sent (res c))).
Proof.
  intros _ Hh Hu Hrun Hg.
  destruct (handle_shape req s0 s1 c1 Hh) as (_ & _ & _ & _ & _ & _ & Hup).
  rewrite Hu in Hup. destruct Hup as (Hr & _ & Hsent & Hempty & He & _).
  assert (Hinv : relay_inv [] c1) by (unfold relay_inv; rewrite Hu; by repeat split).
  pose proof (relay_inv_run [] es s1 s c1 c Hinv Hrun) as [_ Hfin].
  cbn [app] in Hfin.
  destruct (upstream c) eqn:Huc; try done.
  - destruct Hfin as (-> & _ & -> & _). by left.
  - destruct Hfin as (_ & _ & Hs). left. by apply Hs.
  - destruct Hfin as (_ & Hs). left. by apply Hs.
  - destruct (Hfin Hg) as [(_ & _ & Hs)|(Hn & Hst & Hend & Hct & Hmsg)]; [by left|].
    right. by repeat split.
Qed.

End relay.

(** Witness: the upstream fails after its second chunk; the client has
    the two chunks and no error text. *)
Lemma upstream_body_relayed_unaltered_witness :
  exists s c,
    conn_run [UpstreamResponse 200 None; UpstreamData "gl"; FileFlushed; UpstreamData "TF";
              UpstreamError]
      (handle (H := example_platform) glb_request empty_server) = Some (s, c) /\
    sent (res c) = "glTF"%string /\ destroyed (res c) = true.
Proof.
  set (sc0 := handle (H := example_platform) glb_request empty_server).
  set (es := [UpstreamResponse 200 None; UpstreamData "gl"; FileFlushed; UpstreamData "TF";
              UpstreamError]).
  set (sc := default sc0 (conn_run es sc0)).
  assert (Hrun : conn_run es (fst sc0, snd sc0) = Some (fst sc, snd sc))
    by (vm_compute; reflexivity).
  exists (fst sc), (snd sc). split; [exact Hrun|]. split; [|reflexivity].
  destruct (upstream_body_relayed_unaltered (H := example_platform) glb_request empty_server
              (fst sc0) (snd sc0) es (fst sc) (snd sc) eq_refl eq_refl eq_refl Hrun eq_refl)
    as [Hsent|(Hnone & _)].
  - exact Hsent.
  - vm_compute in Hnone. discriminate Hnone.
Defined.

(** *** A miss that goes well, and the hit after it *)

(** The run of a cache miss for [p] that goes well. *)
Lemma miss_completes (s1 : Server) (p : string) (st : Z) (ct : option string)
    (chunks : list string) :
  fs s1 !! p = None ->
  exists fs' r2 t2,
    conn_run (miss_events st ct chunks)
      (s1, mkConn cors_res false (Some p) Asked NoFile NoRead None []) =
    Some (mkServer (<[p := concat_chunks chunks]> (delete (tmp_of p) fs')) (upstream_log s1),
          mkConn r2 false (Some p) UpEnded (Renamed false) NoRead None t2) /\
    statusCode r2 = (if (st =? 0)%Z then 502%Z else st) /\
    sent r2 = concat_chunks chunks /\ ended r2 = true /\ destroyed r2 = false.
Proof.
  intros Hnone.
  set (c1 := mkConn cors_res false (Some p) Asked NoFile NoRead None []).
  set (r2 := res_end false EmptyString
               (mkRes (statusCode (pass_on st ct cors_res)) (headers (pass_on st ct cors_res))
                  (match chunks with [] => headersSent (pass_on st ct cors_res) | _ => true end)
                  (sent (pass_on st ct cors_res) +:+ concat_chunks chunks)
                  (ended (pass_on st ct cors_res)) (destroyed (pass_on st ct cors_res)))).
  set (t2 := (paired chunks ++ [FileEnd]) ++ [ClientEnd]).
  destruct (flush_phase chunks
              (mkServer (<[tmp_of p := EmptyString]> (fs s1)) (upstream_log s1))
              r2 p t2) as [fs' Hflush].
  cbn [upstream_log] in Hflush.
  assert (Hprefix :
    conn_run (UpstreamResponse st ct :: map UpstreamData chunks ++ [UpstreamEnd] ++
              repeat FileFlushed (length chunks) ++ [FileFinished]) (s1, c1) =
    Some (mkServer fs' (upstream_log s1),
          mkConn r2 false (Some p) UpEnded Renaming NoRead None
                 (t2 ++ [Rename (tmp_of p) p]))).
  { cbn [conn_run]. subst c1. rewrite response_step. cbn [mbind option_bind].
    rewrite conn_run_app, data_phase. cbn [mbind option_bind].
    cbn [app conn_run]. rewrite end_step. cbn [mbind option_bind].
    rewrite conn_run_app. fold r2. fold t2. rewrite Hflush.
    cbn [mbind option_bind conn_run]. by rewrite finished_step. }
  assert (Hinv : miss_inv p (s1, c1)).
  { unfold miss_inv. cbn. repeat split; try done. by left. }
  pose proof (miss_inv_run p _ _ _ Hinv Hprefix) as (_ & _ & _ & Hf).
  cbn [fileStream] in Hf. destruct Hf as (_ & _ & _ & Htmp).
  cbn [fs trace] in Htmp. subst t2.
  rewrite !received_app, received_paired in Htmp. cbn in Htmp.
  rewrite !app_nil_r in Htmp.
  exists fs', r2, (((paired chunks ++ [FileEnd]) ++ [ClientEnd]) ++ [Rename (tmp_of p) p]).
  split.
  { unfold miss_events.
    replace (UpstreamResponse st ct :: map UpstreamData chunks ++ [UpstreamEnd] ++
             repeat FileFlushed (length chunks) ++ [FileFinished; RenameDone])
      with ((UpstreamResponse st ct :: map UpstreamData chunks ++ [UpstreamEnd] ++
             repeat FileFlushed (length chunks) ++ [FileFinished]) ++ [RenameDone]).
    2:{ cbn [app]. f_equal. rewrite <- app_assoc. cbn [app]. f_equal. f_equal.
        by rewrite <- app_assoc. }
    rewrite conn_run_app, Hprefix. cbn [mbind option_bind conn_run].
    rewrite (rename_step (mkServer fs' (upstream_log s1)) _ _ _ _ Htmp).
    reflexivity. }
  subst r2. unfold pass_on.
  destruct ct as [[|a t]|]; cbn; by rewrite append_nil_r.
Qed.

Section served.
Context `{Platform}.

Lemma cache_path_same_asset (s1 s2 : string) (t1 t2 : URL) :
  new_URL s1 = Some t1 -> new_URL s2 = Some t2 -> same_asset t1 t2 ->
  cache_path t2 = cache_path t1.
Proof.
  intros H1 H2 Hsame.
  rewrite (cache_path_parsed s1 t1 H1), (cache_path_parsed s2 t2 H2).
  rewrite (normalized_same_asset t1 t2 Hsame).
  by destruct Hsame as (_ & _ & -> & _).
Qed.

(** X11. Two requests of the proxy route, neither a HEAD, for one asset,
    their upstream URLs kept as written and differing at most in the
    "key" and "session" parameters.  With no file under the cache path,
    the first is passed on upstream and, the upstream having answered
    (with any status that has a body) and ended and the file being
    flushed and renamed, the client has the upstream status and body, the
    cache path holds the body and the temporary file is gone.  The second
    request then asks nothing upstream: it is answered 200 with X-Cache:
    HIT and the length of the body (whatever the status the upstream
    had), the JSON content type for a manifest and none for a ".glb", and
    is sent the body. *)
Theorem cached_asset_served_whatever_credentials (req1 req2 : IncomingMessage)
    (t1 t2 : URL) (p : string) (s0 : Server) (st : Z) (ct : option string)
    (chunks : list string) :
  asks_for req1 t1 -> asks_for req2 t2 ->
  String.eqb (method req1) "HEAD" = false -> String.eqb (method req2) "HEAD" = false ->
  plain_url t1 = true -> plain_url t2 = true -> same_asset t1 t2 ->
  cache_path t1 = Ok (Some p) -> body_status st = true -> fs s0 !! p = None ->
  exists s1 c1 s2 c2 up,
    handle req1 s0 = (s1, c1) /\ upstream_log s1 = upstream_log s0 ++ [up] /\
    conn_run (miss_events st ct chunks) (s1, c1) = Some (s2, c2) /\
    statusCode (res c2) = st /\
    sent (res c2) = concat_chunks chunks /\ ended (res c2) = true /\
    fs s2 !! p = Some (concat_chunks chunks) /\ fs s2 !! tmp_of p = None /\
    exists c3 c4,
      handle req2 s2 = (s2, c3) /\ upstream c3 = NotAsked /\
      statusCode (res c3) = 200%Z /\
      assoc "X-Cache" (headers (res c3)) = Some "HIT"%string /\
      assoc "Content-Length" (headers (res c3)) =
        Some (pretty (String.length (concat_chunks chunks))) /\
      assoc "Content-Type" (headers (res c3)) =
        (if endsWith (pathname t2) ".json"
         then Some "application/json; charset=utf-8"%string else None) /\
      conn_step ReadEnds (s2, c3) = Some (s2, c4) /\
      sent (res c4) = concat_chunks chunks /\ ended (res c4) = true.
Proof.
  intros Hreq1 Hreq2 _ _ Hplain _ Hsame Hcp Hbody Hnone.
  pose proof (plain_url_http t1 Hplain) as Hhttp.
  assert (Hcp2 : cache_path t2 = Ok (Some p)).
  { destruct Hreq1 as [_ _ (a1 & g1 & _ & Hn1)]. destruct Hreq2 as [_ _ (a2 & g2 & _ & Hn2)].
    by rewrite (cache_path_same_asset _ _ t1 t2 Hn1 Hn2 Hsame). }
  pose proof (handle_asks_for req1 t1 (Some p) s0 Hreq1 Hcp) as Hh1.
  cbn [mbind option_bind] in Hh1. rewrite Hnone, Hhttp in Hh1.
  destruct (miss_completes
              (mkServer (fs s0)
                 (upstream_log s0 ++
                    [mkUpstream (protocol t1) (host t1) (pathname t1 +:+ search t1)
                       (String.eqb (protocol t1) "https:")]))
              p st ct chunks Hnone) as (fs' & r2 & t2' & Hrun & Hst & Hsent & Hend & _).
  cbn [upstream_log] in Hrun.
  set (s2 := mkServer (<[p := concat_chunks chunks]> (delete (tmp_of p) fs')) _) in Hrun.
  assert (Hp2 : fs s2 !! p = Some (concat_chunks chunks))
    by (subst s2; cbn [fs]; by rewrite lookup_insert_eq).
  assert (Htmp2 : fs s2 !! tmp_of p = None).
  { subst s2. cbn [fs]. rewrite lookup_insert_ne by (pose proof (tmp_of_neq p); done).
    by rewrite lookup_delete_eq. }
  eexists _, _, s2, _, _. split; [exact Hh1|]. split; [done|]. split; [exact Hrun|].
  cbn [res]. rewrite (body_status_not_0 st Hbody) in Hst. do 5 (split; [done|]).
  pose proof (handle_asks_for req2 t2 (Some p) s2 Hreq2 Hcp2) as Hh2.
  cbn [mbind option_bind] in Hh2. rewrite Hp2 in Hh2. cbn zeta in Hh2.
  destruct (endsWith (pathname t2) ".json");
    (eexists _, _; split; [exact Hh2|]; rewrite conn_step_read_ends; cbn; by repeat split).
Qed.

End served.

Lemma glb_request_asks :
  asks_for glb_request (parsed "https://tiles.example/a.glb?key=K&session=S").
Proof.
  split; [reflexivity|reflexivity|].
  exists "h", "ttps://tiles.example/a.glb?key=K&session=S"%string. split; reflexivity.
Defined.

Lemma glb_request_2_asks :
  asks_for glb_request_2 (parsed "https://tiles.example/a.glb?session=OTHER").
Proof.
  split; [reflexivity|reflexivity|].
  exists "h", "ttps://tiles.example/a.glb?session=OTHER"%string. split; reflexivity.
Defined.

(** Witness: a ".glb" fetched under one key and session, answered 404 by
    the upstream, and asked for again under another session. *)
Lemma cached_asset_served_whatever_credentials_witness :
  exists s1 c1 s2 c2 c3,
    handle (H := example_platform) glb_request empty_server = (s1, c1) /\
    conn_run (miss_events 404 None ["gone"%string]) (s1, c1) = Some (s2, c2) /\
    statusCode (res c2) = 404%Z /\
    handle (H := example_platform) glb_request_2 s2 = (s2, c3) /\
    statusCode (res c3) = 200%Z /\
    assoc "Content-Type" (headers (res c3)) = None.
Proof.
  destruct (cached_asset_served_whatever_credentials (H := example_platform)
              glb_request glb_request_2 _ _ glb_path empty_server 404 None ["gone"%string]
              glb_request_asks glb_request_2_asks)
    as (s1 & c1 & s2 & c2 & up & Hh & _ & Hrun & Hst & _ & _ & _ & _ & c3 & c4 &
        Hh2 & _ & Hst2 & _ & _ & Hct & _).
  - reflexivity.
  - reflexivity.
  - reflexivity.
  - reflexivity.
  - repeat split.
  - reflexivity.
  - reflexivity.
  - reflexivity.
  - exists s1, c1, s2, c2, c3. repeat split; assumption.
Defined.

Lemma connection_keeps_other_files_witness :
  exists s c,
    conn_run (miss_events 200 None ["glTF"%string])
      (handle (H := example_platform) glb_request other_file_server) = Some (s, c) /\
    fs s !! "tile-cache/other"%string = Some "kept"%string.
Proof.
  set (sc0 := handle (H := example_platform) glb_request other_file_server).
  set (es := miss_events 200 None ["glTF"%string]).
  set (sc := default sc0 (conn_run es sc0)).
  assert (Hrun : conn_run es (fst sc0, snd sc0) = Some (fst sc, snd sc))
    by (vm_compute; reflexivity).
  exists (fst sc), (snd sc). split; [exact Hrun|].
  refine (proj1 (proj2 (proj2 (connection_keeps_other_files (H := example_platform)
            glb_request other_file_server (fst sc0) (snd sc0) es (fst sc) (snd sc)
            eq_refl Hrun))) "tile-cache/other"%string "kept"%string _ _).
  - reflexivity.
  - intros p [= <-]. vm_compute. discriminate.
Defined.

(** *** From the client to the proxy *)


Section through.
Context `{Platform}.


End through.


(** ** The client, call by call *)





(** ** After a failed refresh *)

Lemma same_refreshes_refl (w : World) : same_refreshes w w.
Proof. by repeat split. Qed.

Lemma same_refreshes_trans (w1 w2 w3 : World) :
  same_refreshes w1 w2 -> same_refreshes w2 w3 -> same_refreshes w1 w3.
Proof. intros (? & ? & ?) (? & ? & ?). repeat split; congruence. Qed.

Lemma same_refreshes_set_stage (i : nat) (s : stage) (w : World) :
  same_refreshes w (set_stage i s w).
Proof. unfold set_stage. destruct (tasks w !! i); by repeat split. Qed.

Lemma same_refreshes_add_response (i : nat) (res : Response) (w : World) :
  same_refreshes w (add_response i res w).
Proof. unfold add_response. destruct (tasks w !! i); by repeat split. Qed.

Lemma same_refreshes_send (i : nat) (url : string) (o : FetchOptions) (w : World) :
  same_refreshes w (send (mkRequest (DataCall i) url o) w).
Proof.
  repeat split. unfold refresh_calls, send. cbn [network].
  rewrite List.filter_app, length_app. cbn. lia.
Qed.

Lemma same_refreshes_send_data (i : nat) (r : bool) (o : FetchOptions) (g : URL)
    (w : World) :
  same_refreshes w (send_data i r o g w).
Proof.
  unfold send_data, fail. destruct (through_proxy (auth w) g).
  - eapply same_refreshes_trans; [apply same_refreshes_send|apply same_refreshes_set_stage].
  - apply same_refreshes_set_stage.
Qed.

Lemma same_refreshes_finish (i : nat) (res : Response) (w : World) :
  same_refreshes w (finish i res w).
Proof.
  unfold finish. destruct (sessionToken (auth w)); try destruct (isMapTilesSession (auth w));
    apply same_refreshes_set_stage.
Qed.

Lemma same_refreshes_start (w : World) (t : task) :
  same_refreshes w (mkWorld (auth w) (promises w) (tasks w ++ [t]) (network w)).
Proof. by repeat split. Qed.

(** A step of a client whose marker holds a promise that is not pending. *)
Lemma settled_marker_step (p : nat) (e : event) (w w' : World) :
  one_in_flight w -> _tokenRefreshPromise (auth w) = Some p ->
  promises w !! p <> Some Pending -> step e w = Some w' ->
  _tokenRefreshPromise (auth w') = Some p /\ promises w' = promises w /\
  refresh_calls w' = refresh_calls w.
Proof.
  intros Hone Hmark Hp.
  assert (Hsame : forall w1, same_refreshes w w1 ->
            _tokenRefreshPromise (auth w1) = Some p /\ promises w1 = promises w /\
            refresh_calls w1 = refresh_calls w).
  { intros w1 (-> & -> & ->). done. }
  assert (Hrt : forall o w1, same_refreshes w w1 -> refreshToken o w1 = Ok (w1, p)).
  { intros o w1 (Ha & _ & _). apply refreshToken_in_flight. by rewrite Ha. }
  destruct e as [u o|q r|i|i r|i]; cbn [step].
  - intros [= <-]. unfold call_fetch.
    rewrite (Hrt o w (same_refreshes_refl w)), Hmark.
    destruct (sessionToken (auth w)); try destruct (isMapTilesSession (auth w));
      apply Hsame, same_refreshes_start.
  - unfold refresh_settles. destruct (promises w !! q) as [[| |]|] eqn:Hq; try done.
    destruct Hone as [Hpm _]. pose proof (Hpm q Hq) as Hq'.
    assert (q = p) as -> by congruence. done.
  - unfold resume. destruct (tasks w !! i) as [t|]; [|done]. cbn [mbind option_bind].
    destruct (t_stage t) as [m|rt g|g m|res|o]; try done.
    + assert (Hc : same_refreshes w
        match parse_URL (t_url t) with
        | Ok googleUrl =>
            send_data i false (t_options t)
              (apply_token (auth w) (searchParams_set "key" (apiToken (auth w)) googleUrl)) w
        | Throw e => fail i e w
        end).
      { destruct (parse_URL (t_url t)); [apply same_refreshes_send_data|].
        apply same_refreshes_set_stage. }
      destruct m as [m|]; [|by intros [= <-]; apply Hsame].
      destruct (promises w !! m) as [[| |]|]; try done; intros [= <-]; apply Hsame;
        [done|apply same_refreshes_set_stage].
    + destruct (promises w !! m) as [[| |]|]; try done; intros [= <-]; apply Hsame.
      * apply same_refreshes_send_data.
      * apply same_refreshes_set_stage.
  - unfold data_arrives. destruct (tasks w !! i) as [t|]; [|done]. cbn [mbind option_bind].
    destruct (t_stage t) as [m|rt g|g m|res|o]; try done.
    destruct r as [e|res]; [intros [= <-]; apply Hsame, same_refreshes_set_stage|].
    pose proof (same_refreshes_add_response i res w) as Hadd.
    destruct (negb rt && is_4xx res && _).
    + rewrite (Hrt _ _ Hadd). intros [= <-]. apply Hsame.
      eapply same_refreshes_trans; [exact Hadd|apply same_refreshes_set_stage].
    + intros [= <-]. apply Hsame.
      eapply same_refreshes_trans; [exact Hadd|apply same_refreshes_finish].
  - unfold body_read. destruct (tasks w !! i) as [t|]; [|done]. cbn [mbind option_bind].
    destruct (t_stage t) as [m|rt g|g m|res|o]; try done.
    destruct (body res) as [j|]; [|intros [= <-]; apply Hsame, same_refreshes_set_stage].
    destruct (getSessionToken j) as [tok|e]; intros [= <-];
      [|apply Hsame, same_refreshes_set_stage].
    destruct (same_refreshes_set_stage i (Done (ReturnedJson j))
                (set_auth (set_sessionToken tok (auth w)) w)) as (-> & -> & ->).
    done.
Qed.

Lemma wedged_run (p : nat) (e : string) (es : list event) (w w' : World) :
  one_in_flight w -> wedged p e w -> run es w = Some w' ->
  one_in_flight w' /\ wedged p e w' /\ refresh_calls w' = refresh_calls w.
Proof.
  revert w. induction es as [|ev es IH]; intros w Hone [Hm Hp]; cbn [run].
  - intros [= <-]. split; [done|]. split; [by split|done].
  - destruct (step ev w) as [w1|] eqn:Hstep; [|done]. cbn [mbind option_bind]. intros Hrun.
    destruct (settled_marker_step p ev w w1 Hone Hm) as (Hm1 & Hp1 & Hc1);
      [by rewrite Hp|done|].
    destruct (IH w1) as (Hone' & Hw' & Hc'); [by eapply one_in_flight_step| |done|].
    { split; [done|]. by rewrite Hp1. }
    split; [done|]. split; [done|congruence].
Qed.

(** X8. A failed refresh is never made up for.  In a state a client has
    reached, let the answer to the refresh in flight settle its promise
    as rejected (a network error, a status that is not ok, a body that is
    not JSON, a token that cannot be extracted).  Then, whatever happens
    afterwards, [_tokenRefreshPromise] holds that rejected promise, no
    refresh request is ever sent again, and every later call of [fetch]
    fails at line 37 with the error of that refresh, having sent
    nothing. *)
Theorem failed_refresh_is_permanent (a : GoogleCloudAuth) (es0 es : list event)
    (w0 w1 w : World) (p : nat) (r : net_result) (e : string) :
  _tokenRefreshPromise a = None -> run es0 (fresh a) = Some w0 ->
  step (RefreshSettles p r) w0 = Some w1 -> promises w1 !! p = Some (Rejected e) ->
  run es w1 = Some w ->
  _tokenRefreshPromise (auth w) = Some p /\ promises w !! p = Some (Rejected e) /\
  refresh_calls w = refresh_calls w0 /\
  forall url options,
    after_run [Call url options; Resume (length (tasks w))] w (fun w' =>
      stage_of (length (tasks w)) w' = Some (Done (Failed e)) /\
      network w' = network w).
Proof.
  intros Ha Hrun0 Hsettle Hrej Hrun.
  assert (Hone0 : one_in_flight w0).
  { eapply one_in_flight_run; [|done]. split; cbn; [by intros []|].
    intros q. by rewrite Ha. }
  assert (Hone1 : one_in_flight w1) by by eapply one_in_flight_step.
  assert (Hw1 : wedged p e w1 /\ refresh_calls w1 = refresh_calls w0).
  { cbn [step] in Hsettle. unfold refresh_settles in Hsettle.
    destruct (promises w0 !! p) as [[| |]|] eqn:Hp; try done.
    destruct (refresh_then r (auth w0)) as [s a1] eqn:Hthen.
    injection Hsettle as <-. cbn [promises] in Hrej.
    rewrite list_lookup_insert_eq in Hrej by by eapply lookup_lt_Some.
    injection Hrej as ->.
    apply refresh_then_marker in Hthen. subst a1.
    destruct Hone0 as [Hpm _]. repeat split; cbn.
    - by apply Hpm.
    - apply list_lookup_insert_eq. by eapply lookup_lt_Some. }
  destruct Hw1 as [Hw1 Hc1].
  destruct (wedged_run p e es w1 w Hone1 Hw1 Hrun) as (Hone & [Hm Hp] & Hc).
  split; [done|]. split; [done|]. split; [congruence|].
  intros url options. unfold after_run. cbn [run step mbind option_bind].
  assert (Hcall : call_fetch url options w =
                  mkWorld (auth w) (promises w)
                    (tasks w ++ [mkTask url options (AwaitMarker (Some p)) []]) (network w)).
  { unfold call_fetch. rewrite (refreshToken_in_flight options w p Hm), Hm.
    by destruct (sessionToken (auth w)); try destruct (isMapTilesSession (auth w)). }
  rewrite Hcall. unfold resume. cbn [tasks].
  rewrite lookup_app_r by lia. rewrite Nat.sub_diag. cbn. rewrite Hp.
  cbn [mbind option_bind]. unfold fail. rewrite network_set_stage. split; [|done].
  apply stage_of_set_stage. cbn [tasks]. rewrite lookup_app_r by lia.
  rewrite Nat.sub_diag. by eexists.
Qed.

Lemma failed_refresh_is_permanent_witness :
  refresh_calls wedged_world = 2 /\
  after_run [Call tile_url no_options; Resume 2] wedged_world (fun w' =>
    stage_of 2 w' =
      Some (Done (Failed "GoogleCloudAuth: Failed to load data with error code 500"))).
Proof.
  destruct (failed_refresh_is_permanent map_client wedged_prefix
              [Resume 0; Call tile_url no_options; Resume 1]
              wedged_world_0 wedged_world_1 wedged_world 1 (status_reply 500)
              "GoogleCloudAuth: Failed to load data with error code 500")
    as (_ & _ & Hc & Hcall); [reflexivity..|].
  split; [exact Hc|].
  specialize (Hcall tile_url no_options). unfold after_run in *.
  change (length (tasks wedged_world)) with 2 in Hcall.
  destruct (run _ wedged_world) as [w'|]; [|exact Hcall]. exact (proj1 Hcall).
Defined.

(** ** Before the session is there *)






(** ** One refresh request for each promise *)

Lemma refreshToken_counts (o : FetchOptions) (w w' : World) (p : nat) :
  refreshToken o w = Ok (w', p) ->
  refresh_calls w' + length (promises w) = refresh_calls w + length (promises w').
Proof.
  unfold refreshToken. destruct (_tokenRefreshPromise (auth w)); [by intros [= <- _]|].
  destruct (parse_URL _); [|done]. cbn [bind]. destruct (through_proxy _ _); [|done].
  cbn [bind]. intros [= <- _]. rewrite refresh_calls_app. cbn. rewrite length_app. cbn. lia.
Qed.

Lemma refresh_count_step (e : event) (w w' : World) :
  step e w = Some w' ->
  refresh_calls w' + length (promises w) = refresh_calls w + length (promises w').
Proof.
  assert (Hsame : forall w1 w2, same_refreshes w1 w2 ->
            refresh_calls w2 + length (promises w1) = refresh_calls w1 + length (promises w2)).
  { intros w1 w2 (_ & -> & ->). done. }
  destruct e as [u o|q r|i|i r|i]; cbn [step].
  - intros [= <-]. unfold call_fetch.
    destruct (sessionToken (auth w)); try (by apply Hsame, same_refreshes_start).
    destruct (isMapTilesSession (auth w)); [|by apply Hsame, same_refreshes_start].
    destruct (refreshToken o w) as [[w1 q]|e] eqn:Hr; [|by apply Hsame, same_refreshes_start].
    apply refreshToken_counts in Hr. unfold refresh_calls in *. cbn. lia.
  - unfold refresh_settles. destruct (promises w !! q) as [[| |]|]; try done.
    destruct (refresh_then r (auth w)) as [s' a']. intros [= <-].
    unfold refresh_calls. cbn. by rewrite length_insert.
  - unfold resume. destruct (tasks w !! i) as [t|]; [|done]. cbn [mbind option_bind].
    destruct (t_stage t) as [m|rt g|g m|res|o]; try done.
    + assert (Hc : same_refreshes w
        match parse_URL (t_url t) with
        | Ok googleUrl =>
            send_data i false (t_options t)
              (apply_token (auth w) (searchParams_set "key" (apiToken (auth w)) googleUrl)) w
        | Throw e => fail i e w
        end).
      { destruct (parse_URL (t_url t)); [apply same_refreshes_send_data|].
        apply same_refreshes_set_stage. }
      destruct m as [m|]; [|by intros [= <-]; apply Hsame].
      destruct (promises w !! m) as [[| |]|]; try done; intros [= <-]; apply Hsame;
        [done|apply same_refreshes_set_stage].
    + destruct (promises w !! m) as [[| |]|]; try done; intros [= <-]; apply Hsame.
      * apply same_refreshes_send_data.
      * apply same_refreshes_set_stage.
  - unfold data_arrives. destruct (tasks w !! i) as [t|]; [|done]. cbn [mbind option_bind].
    destruct (t_stage t) as [m|rt g|g m|res|o]; try done.
    destruct r as [e|res]; [intros [= <-]; apply Hsame, same_refreshes_set_stage|].
    pose proof (same_refreshes_add_response i res w) as Hadd.
    destruct (negb rt && is_4xx res && _).
    + destruct (refreshToken _ _) as [[w2 q]|e] eqn:Hr; intros [= <-].
      * apply refreshToken_counts in Hr. destruct Hadd as (_ & Hp & Hc).
        destruct (same_refreshes_set_stage i (AwaitRetry g q) w2) as (_ & Hp2 & Hc2).
        rewrite Hp2, Hc2, <- Hp, <- Hc. done.
      * apply Hsame. eapply same_refreshes_trans; [exact Hadd|apply same_refreshes_set_stage].
    + intros [= <-]. apply Hsame.
      eapply same_refreshes_trans; [exact Hadd|apply same_refreshes_finish].
  - unfold body_read. destruct (tasks w !! i) as [t|]; [|done]. cbn [mbind option_bind].
    destruct (t_stage t) as [m|rt g|g m|res|o]; try done.
    destruct (body res) as [j|]; [|intros [= <-]; apply Hsame, same_refreshes_set_stage].
    destruct (getSessionToken j) as [tok|e]; intros [= <-];
      [|apply Hsame, same_refreshes_set_stage].
    destruct (same_refreshes_set_stage i (Done (ReturnedJson j))
                (set_auth (set_sessionToken tok (auth w)) w)) as (_ & -> & ->).
    done.
Qed.

Lemma refresh_count_run (es : list event) (w w' : World) :
  run es w = Some w' ->
  refresh_calls w' + length (promises w) = refresh_calls w + length (promises w').
Proof.
  revert w. induction es as [|e es IH]; intros w; cbn [run].
  - by intros [= <-].
  - destruct (step e w) as [w1|] eqn:Hstep; [|done]. cbn [mbind option_bind]. intros Hrun.
    apply refresh_count_step in Hstep. apply IH in Hrun. lia.
Qed.

(** X7. One refresh at a time.  In every state a client reaches: each
    refresh request sent has its promise; a promise that is pending is
    the one [_tokenRefreshPromise] holds, so that at most one refresh is
    unanswered; and while [_tokenRefreshPromise] is null none is. *)
Theorem one_refresh_at_a_time (a : GoogleCloudAuth) (es : list event) (w : World) :
  _tokenRefreshPromise a = None -> run es (fresh a) = Some w ->
  refresh_calls w = length (promises w) /\
  (forall p, promises w !! p = Some Pending -> _tokenRefreshPromise (auth w) = Some p) /\
  (forall p q, promises w !! p = Some Pending -> promises w !! q = Some Pending -> p = q) /\
  (_tokenRefreshPromise (auth w) = None -> forall p, promises w !! p <> Some Pending).
Proof.
  intros Ha Hrun.
  assert (Hw : one_in_flight w).
  { eapply one_in_flight_run; [|done]. split; cbn; [by intros []|].
    intros r. by rewrite Ha. }
  destruct Hw as [Hpm _]. split; [|split; [done|split]].
  - apply refresh_count_run in Hrun. cbn in Hrun. lia.
  - intros p q Hp Hq. apply Hpm in Hp, Hq. congruence.
  - intros Hnone p Hp. apply Hpm in Hp. congruence.
Qed.

(** Witness: the refresh asked by a retry is the one pending, the first
    one is fulfilled. *)
Lemma one_refresh_at_a_time_witness :
  refresh_calls wedged_world_0 = 2 /\ _tokenRefreshPromise (auth wedged_world_0) = Some 1.
Proof.
  destruct (one_refresh_at_a_time map_client wedged_prefix wedged_world_0)
    as (Hc & Hm & _); [reflexivity..|].
  split; [exact Hc|]. apply Hm. reflexivity.
Defined.

Lemma same_data_trans (w1 w2 w3 : World) :
  same_data w1 w2 -> same_data w2 w3 -> same_data w1 w3.
Proof. intros H1 H2 j. by rewrite H2, H1. Qed.

Lemma same_data_set_stage (i : nat) (s : stage) (w : World) : same_data w (set_stage i s w).
Proof. intros j. unfold data_calls. by rewrite network_set_stage. Qed.

Lemma same_data_add_response (i : nat) (res : Response) (w : World) :
  same_data w (add_response i res w).
Proof. intros j. unfold add_response. by destruct (tasks w !! i). Qed.

Lemma same_data_finish (i : nat) (res : Response) (w : World) : same_data w (finish i res w).
Proof.
  unfold finish. destruct (sessionToken (auth w)); try destruct (isMapTilesSession (auth w));
    apply same_data_set_stage.
Qed.

Lemma same_data_refreshToken (o : FetchOptions) (w w' : World) (p : nat) :
  refreshToken o w = Ok (w', p) -> same_data w w'.
Proof. intros (_ & _ & Hd)%refreshToken_keeps. exact Hd. Qed.

(** The data requests a step adds: none, or one, of the call that goes
    on from line 37 or from line 61. *)
Lemma data_calls_step (e : event) (w w' : World) :
  step e w = Some w' ->
  same_data w w' \/
  exists i t,
    e = Resume i /\ tasks w !! i = Some t /\
    ((exists p, t_stage t = AwaitMarker p) \/ (exists g p, t_stage t = AwaitRetry g p)) /\
    data_calls i w' = data_calls i w + 1 /\
    forall j, j <> i -> data_calls j w' = data_calls j w.
Proof.
  destruct e as [u o|q r|i|i r|i]; cbn [step].
  - intros [= <-]. left. unfold call_fetch.
    destruct (sessionToken (auth w)); try done.
    destruct (isMapTilesSession (auth w)); [|done].
    destruct (refreshToken o w) as [[w1 q]|e] eqn:Hr; [|done].
    intros j. apply (same_data_refreshToken _ _ _ _ Hr).
  - unfold refresh_settles. destruct (promises w !! q) as [[| |]|]; try done.
    destruct (refresh_then r (auth w)) as [s' a']. intros [= <-]. by left.
  - unfold resume. destruct (tasks w !! i) as [t|] eqn:Ht; [|done]. cbn [mbind option_bind].
    assert (Hsend : forall rt g,
      ((exists p, t_stage t = AwaitMarker p) \/ (exists g p, t_stage t = AwaitRetry g p)) ->
      same_data w (send_data i rt (t_options t) g w) \/
      exists i0 t0,
        Resume i = Resume i0 /\ tasks w !! i0 = Some t0 /\
        ((exists p, t_stage t0 = AwaitMarker p) \/ (exists g p, t_stage t0 = AwaitRetry g p)) /\
        data_calls i0 (send_data i rt (t_options t) g w) = data_calls i0 w + 1 /\
        forall j, j <> i0 ->
          data_calls j (send_data i rt (t_options t) g w) = data_calls j w).
    { intros rt g Hst. destruct (send_data_updates i rt g t w Ht) as [[e ->]|[_ _ Hi Ho]].
      - left. apply same_data_set_stage.
      - right. by exists i, t. }
    destruct (t_stage t) as [m|rt g|g m|res|o] eqn:Hs; try done.
    + assert (Hc : forall w1,
        match parse_URL (t_url t) with
        | Ok googleUrl =>
            send_data i false (t_options t)
              (apply_token (auth w) (searchParams_set "key" (apiToken (auth w)) googleUrl)) w
        | Throw e => fail i e w
        end = w1 ->
        same_data w w1 \/
        exists i0 t0,
          Resume i = Resume i0 /\ tasks w !! i0 = Some t0 /\
          ((exists p, t_stage t0 = AwaitMarker p) \/
           (exists g p, t_stage t0 = AwaitRetry g p)) /\
          data_calls i0 w1 = data_calls i0 w + 1 /\
          forall j, j <> i0 -> data_calls j w1 = data_calls j w).
      { intros w1 <-. destruct (parse_URL (t_url t)).
        - apply Hsend. left. by eexists.
        - left. apply same_data_set_stage. }
      destruct m as [m|]; [|intros [= <-]; by apply Hc].
      destruct (promises w !! m) as [[| |]|]; try done; intros [= <-];
        [by apply Hc|left; apply same_data_set_stage].
    + destruct (promises w !! m) as [[| |]|]; try done; intros [= <-].
      * apply Hsend. right. by eexists _, _.
      * left. apply same_data_set_stage.
  - unfold data_arrives. destruct (tasks w !! i) as [t|]; [|done]. cbn [mbind option_bind].
    destruct (t_stage t) as [m|rt g|g m|res|o]; try done. left.
    destruct r as [e|res]; [injection H as <-; apply same_data_set_stage|].
    pose proof (same_data_add_response i res w) as Hadd.
    destruct (negb rt && is_4xx res && _).
    + destruct (refreshToken _ _) as [[w2 q]|e] eqn:Hr; injection H as <-.
      * eapply same_data_trans; [exact Hadd|].
        eapply same_data_trans; [by eapply same_data_refreshToken|apply same_data_set_stage].
      * eapply same_data_trans; [exact Hadd|apply same_data_set_stage].
    + injection H as <-. eapply same_data_trans; [exact Hadd|apply same_data_finish].
  - unfold body_read. destruct (tasks w !! i) as [t|]; [|done]. cbn [mbind option_bind].
    destruct (t_stage t) as [m|rt g|g m|res|o]; try done. left.
    destruct (body res) as [j|]; [|injection H as <-; apply same_data_set_stage].
    destruct (getSessionToken j) as [tok|e]; injection H as <-;
      [|apply same_data_set_stage].
    intros k. unfold data_calls. by rewrite network_set_stage.
Qed.

Lemma single_inv_step (e : event) (w w' : World) :
  single_inv w -> step e w = Some w' -> single_inv w'.
Proof.
  intros [Hf Hc] Hstep. split; [by eapply fetch_inv_step|].
  destruct (data_calls_step e w w' Hstep) as [Hsame|(i & t & _ & Ht & Hst & Hi & Ho)].
  - intros j. rewrite Hsame. apply Hc.
  - intros j. destruct (decide (j = i)) as [->|Hne]; [|rewrite Ho by done; apply Hc].
    pose proof (inv_tasks _ _ Hf i t Ht) as Hti. unfold task_inv in Hti.
    destruct Hst as [[p Hs]|(g & p & Hs)]; rewrite Hs in Hti.
    + destruct Hti as [Hn _]. lia.
    + destruct Hti as (_ & r1 & _ & Hdue). unfold retry_due in Hdue.
      by rewrite andb_false_r in Hdue.
Qed.

Lemma single_inv_run (es : list event) (w w' : World) :
  single_inv w -> run es w = Some w' -> single_inv w'.
Proof.
  revert w. induction es as [|e es IH]; intros w Hinv; cbn [run].
  - by intros [= <-].
  - destruct (step e w) as [w1|] eqn:Hstep; [|done]. cbn [mbind option_bind].
    apply IH. by eapply single_inv_step.
Qed.

Lemma silent_inv_step (e : event) (w w' : World) :
  silent_inv w -> step e w = Some w' -> silent_inv w'.
Proof.
  intros (Hm & Ha & Hp & Hc).
  assert (Hsame : forall w1, same_refreshes w w1 -> silent_inv w1).
  { intros w1 (H1 & H2 & H3). unfold silent_inv. by rewrite H1, H2, H3. }
  destruct e as [u o|q r|i|i r|i]; cbn [step].
  - intros [= <-]. unfold call_fetch. rewrite Hm.
    destruct (sessionToken (auth w)); by apply Hsame, same_refreshes_start.
  - unfold refresh_settles. by rewrite Hp.
  - unfold resume. destruct (tasks w !! i) as [t|]; [|done]. cbn [mbind option_bind].
    destruct (t_stage t) as [m|rt g|g m|res|o]; try done.
    + assert (Hcont : same_refreshes w
        match parse_URL (t_url t) with
        | Ok googleUrl =>
            send_data i false (t_options t)
              (apply_token (auth w) (searchParams_set "key" (apiToken (auth w)) googleUrl)) w
        | Throw e => fail i e w
        end).
      { destruct (parse_URL (t_url t)); [apply same_refreshes_send_data|].
        apply same_refreshes_set_stage. }
      destruct m as [m|]; [|by intros [= <-]; apply Hsame].
      by rewrite Hp.
    + by rewrite Hp.
  - unfold data_arrives. destruct (tasks w !! i) as [t|]; [|done]. cbn [mbind option_bind].
    destruct (t_stage t) as [m|rt g|g m|res|o]; try done.
    destruct r as [e|res]; [intros [= <-]; apply Hsame, same_refreshes_set_stage|].
    pose proof (same_refreshes_add_response i res w) as Hadd.
    rewrite (proj1 Hadd), Ha, andb_false_r.
    intros [= <-]. apply Hsame.
    eapply same_refreshes_trans; [exact Hadd|apply same_refreshes_finish].
  - unfold body_read. destruct (tasks w !! i) as [t|]; [|done]. cbn [mbind option_bind].
    destruct (t_stage t) as [m|rt g|g m|res|o]; try done.
    destruct (body res) as [j|]; [|intros [= <-]; apply Hsame, same_refreshes_set_stage].
    destruct (getSessionToken j) as [tok|e]; intros [= <-];
      [|apply Hsame, same_refreshes_set_stage].
    destruct (same_refreshes_set_stage i (Done (ReturnedJson j))
                (set_auth (set_sessionToken tok (auth w)) w)) as (H1 & H2 & H3).
    unfold silent_inv. rewrite H1, H2, H3. by repeat split.
Qed.

(** X9. A client whose [autoRefreshToken] is off never retries: in every
    state it reaches, each call of [fetch] has sent one data request at
    most, no call waits for a retry, and a call that has returned,
    returned its only response, whatever the status.  If the client is
    moreover in 3D-tiles mode, [fetch] never sends a refresh request. *)
Theorem without_auto_refresh (a : GoogleCloudAuth) (es : list event) (w : World) :
  autoRefreshToken a = false -> run es (fresh a) = Some w ->
  (forall i, data_calls i w <= 1) /\
  (forall i t, tasks w !! i = Some t ->
     match t_stage t with
     | AwaitRetry _ _ | AwaitData true _ => False
     | ReadBody res | Done (Returned res) => t_responses t = [res]
     | Done (ReturnedJson j) => exists res, t_responses t = [res] /\ body res = Some j
     | _ => True
     end) /\
  (isMapTilesSession a = false -> refresh_calls w = 0).
Proof.
  intros Ha Hrun.
  assert (Hinv : single_inv w).
  { eapply single_inv_run; [|done]. split; [|intros i; cbn; lia].
    rewrite <- Ha. apply fetch_inv_fresh. }
  destruct Hinv as [Hf Hc]. split; [done|]. split.
  - intros i t Ht. pose proof (inv_tasks _ _ Hf i t Ht) as Hti.
    unfold task_inv, settled, retry_due in Hti.
    destruct (t_stage t) as [p|[] g|g p|r|[r|j|e']]; try done.
    + destruct Hti as (_ & r1 & _ & Hdue). by rewrite andb_false_r in Hdue.
    + destruct Hti as (_ & r1 & _ & Hdue). by rewrite andb_false_r in Hdue.
    + destruct Hti as [(_ & Hrs & _)|(_ & r1 & _ & Hdue)]; [done|].
      by rewrite andb_false_r in Hdue.
    + destruct Hti as [(_ & Hrs & _)|(_ & r1 & _ & Hdue)]; [done|].
      by rewrite andb_false_r in Hdue.
    + destruct Hti as (r & Hb & [(_ & Hrs & _)|(_ & r1 & _ & Hdue)]); [by exists r|].
      by rewrite andb_false_r in Hdue.
  - intros Hm.
    assert (Hs : silent_inv w).
    { assert (Hgen : forall w0, silent_inv w0 -> run es w0 = Some w -> silent_inv w).
      { clear Hrun. induction es as [|e es IH]; intros w0 Hw0; cbn [run].
        - by intros [= <-].
        - destruct (step e w0) as [w1|] eqn:Hstep; [|done]. cbn [mbind option_bind].
          apply IH. by eapply silent_inv_step. }
      apply (Hgen (fresh a)); [|done]. by repeat split. }
    by destruct Hs as (_ & _ & _ & Hs).
Qed.

Lemma without_auto_refresh_witness :
  (forall i, data_calls i quiet_world <= 1) /\ refresh_calls quiet_world = 0.
Proof.
  destruct (without_auto_refresh tiles3d_client quiet_events quiet_world)
    as (Hc & _ & Hr); [reflexivity..|].
  split; [exact Hc|]. apply Hr. reflexivity.
Defined.

(** ** The key on every request *)

Lemma keyed_set_key (a : GoogleCloudAuth) (u : URL) :
  wf_URL u -> keyed a (searchParams_set "key" (apiToken a) u).
Proof.
  intros Hu. split; [by apply searchParams_set_wf|].
  unfold searchParams_get, searchParams_set, update_query. cbn [searchParams].
  by rewrite params_get_set_eq, params_count_set_eq.
Qed.

Lemma keyed_apply_token (a a' : GoogleCloudAuth) (g : URL) :
  keyed a g -> keyed a (apply_token a' g).
Proof.
  intros (Hwf & Hk & Hc). unfold apply_token. destruct (truthy _); [|done].
  split; [by apply searchParams_set_wf|].
  unfold searchParams_get, searchParams_set, update_query in *. cbn [searchParams].
  by rewrite params_get_set_ne, params_count_set_ne.
Qed.

Lemma through_proxy_ext (a a' : GoogleCloudAuth) (g : URL) :
  proxyURL a' = proxyURL a -> through_proxy a' g = through_proxy a g.
Proof. intros Hp. unfold through_proxy. by rewrite Hp. Qed.

Lemma key_inv_set_stage (a : GoogleCloudAuth) (i : nat) (s : stage) (w : World) :
  key_inv a w -> stage_keyed a s -> key_inv a (set_stage i s w).
Proof.
  intros [Ht Hp Hn Hs] Hst. unfold set_stage.
  destruct (tasks w !! i) as [t|] eqn:Hi; [|done]. split; cbn; try done.
  intros j tj Hj. destruct (decide (j = i)) as [->|Hne].
  - rewrite list_lookup_insert_eq in Hj by by eapply lookup_lt_Some.
    by injection Hj as <-.
  - rewrite list_lookup_insert_ne in Hj by done. by eapply Hs.
Qed.

Lemma key_inv_add_response (a : GoogleCloudAuth) (i : nat) (res : Response) (w : World) :
  key_inv a w -> key_inv a (add_response i res w).
Proof.
  intros [Ht Hp Hn Hs]. unfold add_response.
  destruct (tasks w !! i) as [t|] eqn:Hi; [|done]. split; cbn; try done.
  intros j tj Hj. destruct (decide (j = i)) as [->|Hne].
  - rewrite list_lookup_insert_eq in Hj by by eapply lookup_lt_Some.
    injection Hj as <-. cbn. by apply (Hs i t).
  - rewrite list_lookup_insert_ne in Hj by done. by eapply Hs.
Qed.

Lemma key_inv_start (a : GoogleCloudAuth) (w : World) (t : task) :
  key_inv a w -> stage_keyed a (t_stage t) ->
  key_inv a (mkWorld (auth w) (promises w) (tasks w ++ [t]) (network w)).
Proof.
  intros [Ht Hp Hn Hs] Hst. split; cbn; try done.
  intros j tj Hj. apply lookup_app_Some in Hj as [Hj|[_ Hj]]; [by eapply Hs|].
  apply list_lookup_singleton_Some in Hj as [_ <-]. done.
Qed.

Lemma key_inv_send_data (a : GoogleCloudAuth) (i : nat) (rt : bool) (o : FetchOptions)
    (g : URL) (w : World) :
  key_inv a w -> keyed a g -> key_inv a (send_data i rt o g w).
Proof.
  intros Hinv Hg. unfold send_data, fail.
  destruct (through_proxy (auth w) g) as [f|e] eqn:Hf; [|by apply key_inv_set_stage].
  apply key_inv_set_stage; [|done].
  destruct Hinv as [Ht Hp Hn Hs]. split; cbn; try done.
  apply Forall_app. split; [done|]. apply Forall_singleton.
  exists g, f. split; [done|]. split; [|done]. by rewrite <- (through_proxy_ext a (auth w)).
Qed.

Lemma key_inv_refreshToken (a : GoogleCloudAuth) (o : FetchOptions) (w w' : World) (p : nat) :
  key_inv a w -> refreshToken o w = Ok (w', p) -> key_inv a w'.
Proof.
  intros [Ht Hp Hn Hs]. unfold refreshToken.
  destruct (_tokenRefreshPromise (auth w)); [by intros [= <- _]|].
  unfold parse_URL. destruct (new_URL (authURL (auth w))) as [authUrl|] eqn:Hu; [|done].
  cbn [bind]. destruct (through_proxy _ _) as [f|] eqn:Hf; [|done]. cbn [bind].
  intros [= <- _]. split; cbn; try done.
  apply Forall_app. split; [done|]. apply Forall_singleton.
  exists (searchParams_set "key" (apiToken (auth w)) authUrl), f.
  rewrite Ht in *. split; [apply keyed_set_key; by eapply new_URL_wf|].
  split; [|done]. by rewrite <- (through_proxy_ext a (auth w)).
Qed.

Lemma key_inv_step (a : GoogleCloudAuth) (e : event) (w w' : World) :
  key_inv a w -> step e w = Some w' -> key_inv a w'.
Proof.
  intros Hinv. destruct e as [u o|q r|i|i r|i]; cbn [step].
  - intros [= <-]. unfold call_fetch.
    destruct (sessionToken (auth w)); try (by apply key_inv_start).
    destruct (isMapTilesSession (auth w)); [|by apply key_inv_start].
    destruct (refreshToken o w) as [[w1 q]|e] eqn:Hr; [|by apply key_inv_start].
    apply (key_inv_start a w1); [|done]. by eapply key_inv_refreshToken.
  - unfold refresh_settles. destruct (promises w !! q) as [[| |]|]; try done.
    destruct (refresh_then r (auth w)) as [s a'] eqn:Hthen. intros [= <-].
    destruct Hinv as [Ht Hp Hn Hs].
    assert (Ha : apiToken a' = apiToken (auth w) /\ proxyURL a' = proxyURL (auth w)).
    { unfold refresh_then in Hthen. destruct r as [e|res]; [by injection Hthen as _ <-|].
      destruct (ok res); [|by injection Hthen as _ <-].
      destruct (body res) as [j|]; [|by injection Hthen as _ <-].
      destruct (getSessionToken j); by injection Hthen as _ <-. }
    destruct Ha as [Ha1 Ha2]. split; cbn; try done; congruence.
  - unfold resume. destruct (tasks w !! i) as [t|] eqn:Hi; [|done]. cbn [mbind option_bind].
    pose proof (key_stages a w Hinv i t Hi) as Hst.
    destruct (t_stage t) as [m|rt g|g m|res|o]; try done.
    + assert (Hc : key_inv a
        match parse_URL (t_url t) with
        | Ok googleUrl =>
            send_data i false (t_options t)
              (apply_token (auth w) (searchParams_set "key" (apiToken (auth w)) googleUrl)) w
        | Throw e => fail i e w
        end).
      { unfold parse_URL. destruct (new_URL (t_url t)) as [u|] eqn:Hu;
          [|by apply key_inv_set_stage].
        apply key_inv_send_data; [done|]. apply keyed_apply_token.
        rewrite (key_token a w Hinv). apply keyed_set_key. by eapply new_URL_wf. }
      destruct m as [m|]; [|by intros [= <-]].
      destruct (promises w !! m) as [[| |]|]; try done; intros [= <-];
        [done|by apply key_inv_set_stage].
    + destruct (promises w !! m) as [[| |]|]; try done; intros [= <-].
      * apply key_inv_send_data; [done|]. by apply keyed_apply_token.
      * by apply key_inv_set_stage.
  - unfold data_arrives. destruct (tasks w !! i) as [t|] eqn:Hi; [|done].
    cbn [mbind option_bind].
    pose proof (key_stages a w Hinv i t Hi) as Hst.
    destruct (t_stage t) as [m|rt g|g m|res|o]; try done.
    destruct r as [e|res]; [intros [= <-]; by apply key_inv_set_stage|].
    pose proof (key_inv_add_response a i res w Hinv) as Hadd.
    destruct (negb rt && is_4xx res && _).
    + destruct (refreshToken _ _) as [[w2 q]|e] eqn:Hr; intros [= <-].
      * apply key_inv_set_stage; [|done]. by eapply key_inv_refreshToken.
      * by apply key_inv_set_stage.
    + intros [= <-]. unfold finish.
      destruct (sessionToken _); try destruct (isMapTilesSession _);
        by apply key_inv_set_stage.
  - unfold body_read. destruct (tasks w !! i) as [t|]; [|done]. cbn [mbind option_bind].
    destruct (t_stage t) as [m|rt g|g m|res|o]; try done.
    destruct (body res) as [j|]; [|intros [= <-]; by apply key_inv_set_stage].
    destruct (getSessionToken j) as [tok|e]; intros [= <-];
      [|by apply key_inv_set_stage].
    apply key_inv_set_stage; [|done]. by destruct Hinv.
Qed.

Lemma key_inv_run (a : GoogleCloudAuth) (es : list event) (w w' : World) :
  key_inv a w -> run es w = Some w' -> key_inv a w'.
Proof.
  revert w. induction es as [|e es IH]; intros w Hinv; cbn [run].
  - by intros [= <-].
  - destruct (step e w) as [w1|] eqn:Hstep; [|done]. cbn [mbind option_bind].
    apply IH. by eapply key_inv_step.
Qed.

(** X4. Every request carries the API key, once.  Whatever a client has
    sent, a refresh request or a data request, first or retried, is a
    request for a URL whose parameter "key" occurs once and is the
    client's API key, whatever the caller's URL had under that name; the
    URL as written parses back to itself.  The request goes to that URL,
    or, with a proxy, to the proxy with that URL as its "url". *)
Theorem every_request_carries_the_key (a : GoogleCloudAuth) (es : list event) (w : World)
    (r : Request) :
  run es (fresh a) = Some w -> In r (network w) ->
  exists target fetchUrl,
    through_proxy a target = Ok fetchUrl /\ req_url r = URL_toString fetchUrl /\
    (proxyURL a = None -> fetchUrl = target) /\
    new_URL (URL_toString target) = Some target /\
    searchParams_get "key" target = Some (apiToken a) /\
    params_count "key" (searchParams target) = 1.
Proof.
  intros Hrun Hin.
  assert (Hinv : key_inv a w).
  { eapply key_inv_run; [|done]. split; cbn; try done. }
  pose proof (key_network a w Hinv) as Hall. rewrite List.Forall_forall in Hall.
  destruct (Hall r Hin) as (target & f & (Hwf & Hk & Hc) & Hf & Hurl).
  exists target, f. split; [done|]. split; [done|]. split.
  - intros Hno. unfold through_proxy in Hf. rewrite Hno in Hf. by injection Hf.
  - split; [by apply new_URL_toString|done].
Qed.

(** Witness: the four requests of a call retried after a 401. *)
Lemma every_request_carries_the_key_witness :
  Forall (fun r => exists target,
            new_URL (req_url r) = Some target /\
            searchParams_get "key" target = Some "KEY"%string)
         (network retry_world).
Proof.
  apply List.Forall_forall. intros r Hin.
  destruct (every_request_carries_the_key map_client retry_events retry_world r eq_refl Hin)
    as (target & f & _ & Hurl & Hsame & Hparse & Hkey & _).
  exists target. rewrite Hurl, (Hsame eq_refl). split; [exact Hparse|exact Hkey].
Defined.

(** ** What the build bundles *)

Lemma starts_with_spec (a s : string) :
  starts_with a s = true <-> exists r, s = a +:+ r.
Proof.
  revert s. induction a as [|c a IH]; intros s.
  - split; [intros _; by exists s|done].
  - destruct s as [|d s]; cbn [starts_with].
    + split; [done|]. by intros [r Hr].
    + rewrite andb_true_iff, Ascii.eqb_eq, IH. split.
      * intros [-> [r ->]]. by exists r.
      * intros [r Hr]. rewrite append_cons in Hr. injection Hr as -> ->. split; [done|by exists r].
Qed.

(** X16. Which modules the library build bundles.  A module is bundled
    (not external) exactly when its name begins with ".", "/" or a
    backslash, or begins with "3d-tiles-renderer": so are the relative
    imports, every entry point of the build and the package's own
    subpaths such as "3d-tiles-renderer/core", which the auth client
    imports, but also any other package whose name begins with these
    letters; the empty name and every other bare name are external. *)
Theorem external_spec (p : string) :
  (external p = false <->
   (exists c r, p = String c r /\ (c = "." \/ c = "/" \/ c = "\")) \/
   (exists r, p = ("3d-tiles-renderer" +:+ r)%string)) /\
  Forall (fun e => external (snd e) = false) entry /\
  external "3d-tiles-renderer/core" = false /\
  external EmptyString = true /\ external "three" = true.
Proof.
  split; [|by repeat constructor].
  unfold external. rewrite andb_false_iff, !negb_false_iff, starts_with_spec.
  apply or_iff_compat_r. unfold is_path_like.
  destruct p as [|c r]; [split; [done|by intros (? & ? & ? & _)]|].
  unfold is_char. rewrite !orb_true_iff, !Ascii.eqb_eq. split.
  - intros Hc. exists c, r. split; [done|tauto].
  - intros (c' & r' & [= -> ->] & Hc). tauto.
Qed.

(** ** The token of a content URI *)

Lemma split_head (d : ascii) (s : string) :
  head (split d s) = Some (fst (break (is_char d) s)).
Proof.
  induction s as [|c s IH]; [done|]. simpl. unfold is_char at 1.
  destruct (Ascii.eqb c d); [done|].
  destruct (break (is_char d) s) as [a b]. simpl in *.
  destruct (split d s) as [|w ws]; [done|]. by injection IH as ->.
Qed.

Lemma uri_params_query (base q : string) :
  avoids (is_char "?") base = true ->
  uri_params (base +:+ "?" +:+ q) = Some (fst (break (is_char "?") q)).
Proof.
  intros Hb. unfold uri_params. rewrite append_cons, append_nil_l, split_append by done.
  pose proof (split_head "?" q) as Hh.
  destruct (split "?" q) as [|w ws]; [done|]. by injection Hh as ->.
Qed.

Lemma uri_params_none (base : string) :
  avoids (is_char "?") base = true -> uri_params base = None.
Proof. intros Hb. unfold uri_params. by rewrite split_avoids. Qed.

Lemma break_avoids (p : ascii -> bool) (s : string) :
  avoids p s = true -> break p s = (s, EmptyString).
Proof.
  intros Hs. rewrite <- (append_nil_r s) at 1. by apply break_append.
Qed.

(** X10. The token the callback of [getSessionToken] takes from a tile
    with a content URI, lines 177-181.  The walk stops at a tile whose
    content URI is not empty; the token is the first "session" parameter
    of what stands between the first "?" of the URI and the next one,
    percent-decoded, and null when there is none: a URI with no "?" gives
    null, what follows a second "?" is not read, and a token written into
    the URI by [URLSearchParams] is read back as it was.  At an empty URI
    the walk goes on and the token is left as it is. *)
Theorem token_of_content_uri (base q : string) (children : list json) (s : json) :
  avoids (is_char "?") base = true ->
  token_callback (Some (content_tile (base +:+ "?" +:+ q) children)) s =
    Ok (true, session_param (Some (fst (break (is_char "?") q)))) /\
  (base <> EmptyString ->
   token_callback (Some (content_tile base children)) s = Ok (true, JNull)) /\
  token_callback (Some (content_tile EmptyString children)) s = Ok (false, s) /\
  (forall rest,
      token_of_uri (base +:+ "?" +:+ q +:+ "?" +:+ rest) =
      token_of_uri (base +:+ "?" +:+ fst (break (is_char "?") q))) /\
  (forall l,
      token_of_uri (base +:+ "?" +:+ serialize_urlencoded l) =
      match params_get "session" l with
      | Some v => JStr v
      | None => JNull
      end).
Proof.
  intros Hb.
  assert (Hcb : forall u, u <> EmptyString ->
            token_callback (Some (content_tile u children)) s = Ok (true, token_of_uri u)).
  { intros u Hu. unfold token_callback, content_tile. cbn.
    destruct u as [|c u]; [done|]. done. }
  assert (Hq : forall q',
            token_of_uri (base +:+ "?" +:+ q') =
            session_param (Some (fst (break (is_char "?") q')))).
  { intros q'. unfold token_of_uri. by rewrite uri_params_query. }
  split; [|split; [|split; [done|split]]].
  - rewrite Hcb, Hq; [done|]. by destruct base.
  - intros Hne. rewrite Hcb by done. unfold token_of_uri. by rewrite uri_params_none.
  - intros rest. rewrite !Hq. do 2 f_equal.
    destruct (break (is_char "?") q) as [a b] eqn:Hbr.
    destruct (break_spec _ _ _ _ Hbr) as (-> & Ha & Hs). cbn [fst].
    rewrite (break_avoids _ a Ha). cbn [fst].
    rewrite append_assoc. rewrite break_append; [done|done|].
    destruct b as [|c b]; [done|]. exact Hs.
  - intros l. rewrite Hq. rewrite break_avoids by by apply serialize_urlencoded_avoids.
    cbn [fst]. unfold session_param. by rewrite parse_serialize_urlencoded.
Qed.

(** Witness: the URI of the example; a second "?" hides the session. *)
Lemma token_of_content_uri_witness :
  token_callback (Some (content_tile "mesh.glb?v=1?session=xyz" [])) JNull = Ok (true, JNull) /\
  token_of_uri "mesh.glb?other=1&session=a%2Fb+c" = JStr "a/b c".
Proof.
  destruct (token_of_content_uri "mesh.glb" "v=1?session=xyz" [] JNull eq_refl)
    as (Hcb & _ & _ & _ & Hl).
  split; [exact Hcb|].
  exact (Hl [("other", "1"); ("session", "a/b c")]%string).
Defined.

(** ** Client and proxy together *)

Section shared.
Context `{Platform}.


End shared.


(** ** The retry of [fetch] *)
















(** ** One miss at a time *)

(** The chunks handed to the response are those the upstream delivered. *)
Lemma received_step (e : conn_event) (s s' : Server) (c c' : Conn) :
  conn_step e (s, c) = Some (s', c') ->
  received (trace c') = received (trace c) ++ chunk_of e.
Proof.
  destruct c as [r gone cp up f rd unc tr]. unfold conn_step, fail_response.
  destruct e, up; cbn; try done; repeat case_match; try done;
    intros; simplify_eq; cbn; rewrite ?received_app; cbn; by rewrite ?app_nil_r.
Qed.

Lemma received_run (es : list conn_event) (s s' : Server) (c c' : Conn) :
  conn_run es (s, c) = Some (s', c') ->
  received (trace c') = received (trace c) ++ upstream_chunks es.
Proof.
  revert s c. induction es as [|e es IH]; intros s c; cbn [conn_run].
  - intros [= <- <-]. by rewrite app_nil_r.
  - destruct (conn_step e (s, c)) as [[s1 c1]|] eqn:Hstep; [|done].
    cbn [mbind option_bind]. intros Hrun.
    rewrite (IH _ _ Hrun), (received_step _ _ _ _ _ Hstep), <- app_assoc. done.
Qed.

(** The upstream has ended only after its 'end'. *)
Lemma ended_step (e : conn_event) (s s' : Server) (c c' : Conn) :
  conn_step e (s, c) = Some (s', c') -> upstream c' = UpEnded ->
  upstream c = UpEnded \/ e = UpstreamEnd.
Proof.
  destruct c as [r gone cp up f rd unc tr]. unfold conn_step, fail_response.
  destruct e, up; cbn; try done; repeat case_match; try done;
    intros; simplify_eq; cbn in *; auto; done.
Qed.

Lemma ended_run (es : list conn_event) (s s' : Server) (c c' : Conn) :
  conn_run es (s, c) = Some (s', c') -> upstream c' = UpEnded ->
  upstream c = UpEnded \/ In UpstreamEnd es.
Proof.
  revert s c. induction es as [|e es IH]; intros s c; cbn [conn_run].
  - intros [= <- <-]. by left.
  - destruct (conn_step e (s, c)) as [[s1 c1]|] eqn:Hstep; [|done].
    cbn [mbind option_bind]. intros Hrun Hc.
    destruct (IH _ _ Hrun Hc) as [Hup|Hin]; [|right; by right].
    destruct (ended_step _ _ _ _ _ Hstep Hup) as [Hu|He]; [by left|right; left; by rewrite He].
Qed.

Section lone_miss.
Context `{Platform}.

(** X17. One miss at a time.  On a connection that missed the cache for
    [p], as long as no other connection writes the files of [p], whatever
    the events that follow (chunks, flushes, errors, the client leaving):
    every chunk the upstream delivers is handed to the file stream and
    then to the response; [fs.rename] is called only from the temporary
    file to [p], once the upstream has ended and the file holds every
    chunk it delivered; a file under [p], when there is one, holds the
    whole upstream body; and a request that is then served from the cache
    under [p] reads the whole upstream body. *)
Theorem lone_miss_file_complete (req : IncomingMessage) (s0 s1 : Server) (c1 : Conn)
    (p : string) (es : list conn_event) (s : Server) (c : Conn) :
  handle req s0 = (s1, c1) -> upstream c1 = Asked -> cachePath c1 = Some p ->
  conn_run es (s1, c1) = Some (s, c) ->
  List.filter is_write (trace c) = paired (upstream_chunks es) /\
  (forall src dst,
      In (Rename src dst) (trace c) ->
      src = tmp_of p /\ dst = p /\ upstream c = UpEnded /\ In UpstreamEnd es /\
      (fs s !! tmp_of p = Some (concat_chunks (upstream_chunks es)) \/
       fs s !! p = Some (concat_chunks (upstream_chunks es)))) /\
  (fs s !! p = None \/
   upstream c = UpEnded /\ In UpstreamEnd es /\
   fs s !! p = Some (concat_chunks (upstream_chunks es))) /\
  (forall reader s' c' content,
      handle reader s = (s', c') -> cachePath c' = Some p ->
      readStream c' = Reading content ->
      In UpstreamEnd es /\ content = concat_chunks (upstream_chunks es)).
Proof.
  intros Hh Hu Hp Hrun.
  destruct (miss_facts req s0 s1 c1 p es s c Hh Hu Hp Hrun) as (Hw & Hren & Hfile).
  destruct (handle_asked req s0 s1 c1 Hh Hu) as (_ & _ & _ & Ht & _).
  pose proof (received_run es s1 s c1 c Hrun) as Hrec. rewrite Ht in Hrec.
  cbn [received app] in Hrec. rewrite Hrec in *.
  assert (Hend : upstream c = UpEnded -> In UpstreamEnd es).
  { intros Hc. destruct (ended_run es s1 s c1 c Hrun Hc) as [Hup|Hin]; [congruence|done]. }
  split; [done|]. split; [|split].
  - intros src dst Hin. destruct (Hren src dst Hin) as (-> & -> & Hup & Hor).
    repeat split; try done. by apply Hend.
  - destruct Hfile as [Hnone|[Hup Hfull]]; [by left|right]. split; [done|].
    split; [by apply Hend|done].
  - intros reader s' c' content Hread Hcp Hrs.
    destruct (handle_reading reader s s' c' content Hread Hrs) as (p' & Hp' & Hsome).
    assert (p' = p) as -> by congruence.
    destruct Hfile as [Hnone|[Hup Hfull]]; [congruence|].
    split; [by apply Hend|congruence].
Qed.

End lone_miss.

(** Witness: the client leaves after the first of two chunks; the file
    under the final name holds both. *)
Lemma lone_miss_file_complete_witness :
  exists s c,
    conn_run disconnect_events (handle (H := example_platform) glb_request empty_server)
      = Some (s, c) /\
    client_gone c = true /\ sent (res c) = "gl"%string /\
    fs s !! glb_path = Some "glTF"%string.
Proof.
  set (sc0 := handle (H := example_platform) glb_request empty_server).
  set (sc := default sc0 (conn_run disconnect_events sc0)).
  assert (Hrun : conn_run disconnect_events (fst sc0, snd sc0) = Some (fst sc, snd sc))
    by (vm_compute; reflexivity).
  exists (fst sc), (snd sc). split; [exact Hrun|]. split; [reflexivity|].
  split; [reflexivity|].
  destruct (lone_miss_file_complete (H := example_platform) glb_request empty_server
              (fst sc0) (snd sc0) glb_path disconnect_events (fst sc) (snd sc)
              eq_refl eq_refl eq_refl Hrun) as (_ & _ & [Hnone|(_ & _ & Hsome)] & _).
  - vm_compute in Hnone. discriminate Hnone.
  - exact Hsome.
Defined.
